(** * gemfileparser: a shallow embedding of [gemfileparser/__init__.py]

    The module parses Ruby Gemfiles and gemspec files line by line with a
    table of regular expressions.  This development embeds

    - the [str] methods the parser calls ([strip], [startswith], [index],
      slicing), on [string];
    - the fragment of Python's [re] the patterns are written in, as a
      backtracking matcher with the priorities of [re.match] (anchored at
      the start of the line, greedy and lazy repetition, alternation tried
      left to right, named groups);
    - the class [GemfileParser]: its pattern table, [preprocess],
      [parse_line], [parse_gemfile], [parse_gemspec] and [parse], with the
      class attribute [global_group] and the instance attribute
      [dependencies] threaded as an explicit state.

    Characters are [ascii] values read as the code points below U+0100 (the
    predicates [isspace], [\d] and [\w] follow Python 3 on that range); text
    with other code points is outside the model. *)

From Stdlib Require Import String Ascii List Arith NArith Bool Lia.
From stdpp Require Import base option gmap strings list.

Local Open Scope string_scope.

(** ** Python [str] operations *)

Module Py.

(** The double quote character, and a text between double quotes. *)
Definition DQ : ascii := "034"%char.
Definition quoted (s : string) : string := String DQ (s +:+ String DQ "").

Definition code (c : ascii) : N := N_of_ascii c.

Definition in_range (lo hi : N) (c : ascii) : bool :=
  (lo <=? code c)%N && (code c <=? hi)%N.

(** [str.isspace] on one character: TAB..CR, FS..US, space, NEL, NBSP. *)
Definition isspace (c : ascii) : bool :=
  in_range 9 13 c || in_range 28 32 c || (code c =? 133)%N || (code c =? 160)%N.

(** [s.lstrip()], [s.rstrip()], [s.strip()] *)
Fixpoint lstrip (s : string) : string :=
  match s with
  | EmptyString => EmptyString
  | String c s' => if isspace c then lstrip s' else s
  end.

Fixpoint rstrip (s : string) : string :=
  match s with
  | EmptyString => EmptyString
  | String c s' =>
      match rstrip s' with
      | EmptyString => if isspace c then EmptyString else String c EmptyString
      | r => String c r
      end
  end.

Definition strip (s : string) : string := rstrip (lstrip s).

(** [s.startswith(p)] *)
Fixpoint startswith (s p : string) {struct p} : bool :=
  match p with
  | EmptyString => true
  | String b p' =>
      match s with
      | EmptyString => false
      | String a s' => Ascii.eqb a b && startswith s' p'
      end
  end.

(** [s[len(p):]] when [s.startswith(p)] *)
Fixpoint strip_prefix (p s : string) {struct p} : option string :=
  match p with
  | EmptyString => Some s
  | String b p' =>
      match s with
      | EmptyString => None
      | String a s' => if Ascii.eqb a b then strip_prefix p' s' else None
      end
  end.

(** [s.find(c)] for a one-character [c]: [None] stands for -1, so that
    [c in s] is [is_Some (find c s)] and [s.index(c)] is the position. *)
Fixpoint find (c : ascii) (s : string) : option nat :=
  match s with
  | EmptyString => None
  | String a s' => if Ascii.eqb a c then Some 0 else option_map S (find c s')
  end.

(** [s[:n]] *)
Fixpoint slice_to (n : nat) (s : string) : string :=
  match n, s with
  | S n', String a s' => String a (slice_to n' s')
  | _, _ => EmptyString
  end.

Definition rev (s : string) : string :=
  string_of_list_ascii (List.rev (list_ascii_of_string s)).

(** [s.endswith(p)] *)
Definition endswith (s p : string) : bool := startswith (rev s) (rev p).

(** [s.rfind(c)], [None] standing for -1 *)
Definition rfind (c : ascii) (s : string) : option nat :=
  match find c (rev s) with
  | Some i => Some (String.length s - 1 - i)
  | None => None
  end.

(** [s.rstrip(c)] for a one-character [c] *)
Fixpoint rstrip_char (c : ascii) (s : string) : string :=
  match s with
  | EmptyString => EmptyString
  | String a s' =>
      match rstrip_char c s' with
      | EmptyString => if Ascii.eqb a c then EmptyString else String a EmptyString
      | r => String a r
      end
  end.

Fixpoint all_char (c : ascii) (s : string) : bool :=
  match s with
  | EmptyString => true
  | String a s' => Ascii.eqb a c && all_char c s'
  end.

(** [posixpath.dirname]:
<<
    i = p.rfind('/') + 1
    head = p[:i]
    if head and head != '/'*len(head): head = head.rstrip('/')
    return head
>> *)
Definition dirname (p : string) : string :=
  let i := match rfind "/" p with Some j => S j | None => 0 end in
  let head := slice_to i p in
  if negb (String.eqb head "") && negb (all_char "/" head)
  then rstrip_char "/" head else head.

(** [posixpath.join] of two components:
<<
    if b.startswith('/'): path = b
    elif not path or path.endswith('/'): path += b
    else: path += '/' + b
>> *)
Definition join (a b : string) : string :=
  if startswith b "/" then b
  else if String.eqb a "" || endswith a "/" then a +:+ b
  else a +:+ "/" +:+ b.

End Py.

(** ** The fragment of [re] used by the pattern table *)

Module Re.

(** One item of a bracketed character set. *)
Inductive citem : Type :=
| Ch (c : ascii)          (* a literal character *)
| Range (lo hi : ascii)   (* lo-hi *)
| Digit                   (* \d *)
| Word.                   (* \w *)

Inductive re : Type :=
| Eps                            (* the empty pattern *)
| Lit (s : string)               (* literal text *)
| Dot                            (* .  : any character but a newline *)
| Cls (items : list citem)       (* [...] *)
| Cat (r1 r2 : re)               (* r1 r2 *)
| Alt (r1 r2 : re)               (* r1|r2 *)
| Star (r : re)                  (* r*  (greedy) *)
| LazyStar (r : re)              (* r*? *)
| Named (name : string) (r : re) (* (?P<name>r) *).

(** [r+], [r?] and an unnamed group [(r)], whose capture is never read. *)
Definition Plus (r : re) : re := Cat r (Star r).
Definition Opt (r : re) : re := Alt r Eps.
Definition Grp (r : re) : re := r.

Declare Scope re_scope.
Delimit Scope re_scope with re.
Bind Scope re_scope with re.
Infix "⋅" := Cat (at level 60, right associativity) : re_scope.

(** [\d] and [\w] of a [str] pattern, on the code points below 256. *)
Definition is_digit (c : ascii) : bool := Py.in_range 48 57 c.

Definition is_word (c : ascii) : bool :=
  Py.in_range 48 57 c || Py.in_range 65 90 c || Py.in_range 97 122 c
  || (Py.code c =? 95)%N
  || (Py.code c =? 170)%N || (Py.code c =? 178)%N || (Py.code c =? 179)%N
  || (Py.code c =? 181)%N || (Py.code c =? 185)%N || (Py.code c =? 186)%N
  || Py.in_range 188 190 c || Py.in_range 192 214 c
  || Py.in_range 216 246 c || Py.in_range 248 255 c.

Definition in_item (c : ascii) (i : citem) : bool :=
  match i with
  | Ch a => Ascii.eqb c a
  | Range lo hi => Py.in_range (Py.code lo) (Py.code hi) c
  | Digit => is_digit c
  | Word => is_word c
  end.

Definition in_class (items : list citem) (c : ascii) : bool :=
  existsb (in_item c) items.

Definition is_newline (c : ascii) : bool := (Py.code c =? 10)%N.

(** The groups of a match, the most recently closed first. *)
Definition captures := list (string * string).

(** What is left to match after a piece of a pattern: the rest of the text
    and the groups closed so far go in, the groups of the whole match come
    out, or [None] to make the piece backtrack. *)
Definition cont : Type := string -> captures -> option captures.

(** The two repetitions.  [body] matches one iteration; an iteration that
    consumes no text ends the repetition, so [String.length s] iterations
    are enough for [s]. *)
Section Repetition.
Variable body : string -> captures -> cont -> option captures.
Variable k : cont.

(** greedy: one more iteration first, the continuation when that fails *)
Fixpoint star_loop (n : nat) (s : string) (c : captures) {struct n}
  : option captures :=
  match n with
  | O => k s c
  | S n' =>
      match body s c (fun s' c' =>
              if Nat.ltb (String.length s') (String.length s)
              then star_loop n' s' c' else None) with
      | Some m => Some m
      | None => k s c
      end
  end.

(** lazy: the continuation first, one more iteration when that fails *)
Fixpoint lazy_loop (n : nat) (s : string) (c : captures) {struct n}
  : option captures :=
  match n with
  | O => k s c
  | S n' =>
      match k s c with
      | Some m => Some m
      | None =>
          body s c (fun s' c' =>
            if Nat.ltb (String.length s') (String.length s)
            then lazy_loop n' s' c' else None)
      end
  end.
End Repetition.

(** Backtracking matcher in continuation-passing style: [exec r s c k]
    matches [r] at the start of [s] and hands the rest of the text and the
    groups to [k]; when [k] fails the next alternative of [r] is tried, in
    the order of Python's engine. *)
Fixpoint exec (r : re) (s : string) (c : captures) (k : cont) {struct r}
  : option captures :=
  match r with
  | Eps => k s c
  | Lit l =>
      match Py.strip_prefix l s with
      | Some s' => k s' c
      | None => None
      end
  | Dot =>
      match s with
      | String a s' => if is_newline a then None else k s' c
      | EmptyString => None
      end
  | Cls items =>
      match s with
      | String a s' => if in_class items a then k s' c else None
      | EmptyString => None
      end
  | Cat r1 r2 => exec r1 s c (fun s' c' => exec r2 s' c' k)
  | Alt r1 r2 =>
      match exec r1 s c k with
      | Some m => Some m
      | None => exec r2 s c k
      end
  | Star r1 => star_loop (exec r1) k (String.length s) s c
  | LazyStar r1 => lazy_loop (exec r1) k (String.length s) s c
  | Named name r1 =>
      exec r1 s c (fun s' c' =>
        k s' ((name, Py.slice_to (String.length s - String.length s') s) :: c'))
  end.

(** [pattern.match(s)]: anchored at the start, free at the end. *)
Definition match_ (r : re) (s : string) : option captures :=
  exec r s [] (fun _ c => Some c).

(** [m.group(name)] *)
Fixpoint group (name : string) (c : captures) : option string :=
  match c with
  | [] => None
  | (n, v) :: c' => if String.eqb n name then Some v else group name c'
  end.

(** [pattern.match(s)] followed by [.group(name)], [None] when the pattern
    does not match. *)
Definition match_group (r : re) (name : string) (s : string) : option string :=
  match match_ r s with
  | Some c => group name c
  | None => None
  end.

End Re.

(** ** The class [GemfileParser] *)

Module GemfileParser.
Import Py Re.
Local Open Scope list_scope.
Local Open Scope re_scope.

(** [class Dependency].  A field that [__init__] sets to [None] is an
    [option]; [platforms] and [groups] start as the empty list and are only
    ever replaced by the raw text of a match, so [None] stands for [[]]
    there; [git], [path], [github] and [branch] do not exist until
    [setattr] creates them, [None] standing for the missing attribute.
    [group] is [None] only between the constructor and the next statement
    of [parse_line], which stores the class attribute [global_group], a
    [str], in it. *)
Record Dependency : Type := mkDependency {
  name : option string;
  requirement : list string;
  autorequire : option string;
  source : option string;
  parent : list string;
  group : string;
  platform : option string;
  platforms : option string;
  groups : option string;
  git : option string;
  path : option string;
  github : option string;
  branch : option string
}.

(** [dep = self.Dependency(); dep.group = g; dep.parent = parent] *)
Definition new_Dependency (g : string) (par : list string) : Dependency :=
  {| name := None; requirement := []; autorequire := None; source := None;
     parent := par; group := g; platform := None; platforms := None;
     groups := None; git := None; path := None; github := None;
     branch := None |}.

(** [dep.requirement.append(v)] *)
Definition append_requirement (v : string) (d : Dependency) : Dependency :=
  mkDependency (name d) (requirement d ++ [v]) (autorequire d) (source d)
    (parent d) (group d) (platform d) (platforms d) (groups d) (git d)
    (path d) (github d) (branch d).

(** [setattr(dep, attr, v)], for the attribute names of the pattern table *)
Definition setattr (d : Dependency) (attr v : string) : Dependency :=
  let 'mkDependency n r a s p g pf pfs gs gi pa gh br := d in
  if String.eqb attr "name" then mkDependency (Some v) r a s p g pf pfs gs gi pa gh br
  else if String.eqb attr "source" then mkDependency n r a (Some v) p g pf pfs gs gi pa gh br
  else if String.eqb attr "git" then mkDependency n r a s p g pf pfs gs (Some v) pa gh br
  else if String.eqb attr "platform" then mkDependency n r a s p g (Some v) pfs gs gi pa gh br
  else if String.eqb attr "platforms" then mkDependency n r a s p g pf (Some v) gs gi pa gh br
  else if String.eqb attr "path" then mkDependency n r a s p g pf pfs gs gi (Some v) gh br
  else if String.eqb attr "github" then mkDependency n r a s p g pf pfs gs gi pa (Some v) br
  else if String.eqb attr "branch" then mkDependency n r a s p g pf pfs gs gi pa gh (Some v)
  else if String.eqb attr "autorequire" then mkDependency n r (Some v) s p g pf pfs gs gi pa gh br
  else if String.eqb attr "group" then mkDependency n r a s p v pf pfs gs gi pa gh br
  else if String.eqb attr "groups" then mkDependency n r a s p g pf pfs (Some v) gi pa gh br
  else d.

(** *** The pattern table

    Each pattern is preceded by its source text, in which Q stands for the
    double quote character. *)

Definition sp : re := Cls [Ch " "].
(** ['\Q] *)
Definition quote : re := Cls [Ch "'"; Ch DQ].
(** (:|[ ]?=>) *)
Definition key_sep : re := Grp (Alt (Lit ":") (Opt sp ⋅ Lit "=>")).
(** [a-zA-Z:\/\.-] *)
Definition url_items : list citem :=
  [Range "a" "z"; Range "A" "Z"; Ch ":"; Ch "/"; Ch "."; Ch "-"].
Definition url_chars : re := Cls url_items.

(** gem ['\Q](?P<name>.*?)['\Q] *)
Definition name_regex : re :=
  Lit "gem " ⋅ quote ⋅ Named "name" (LazyStar Dot) ⋅ quote.

(** .*source(:|[ ]?=>)[ ]*['\Q](?P<source>[a-zA-Z:\/\.-\\]+)['\Q].*
    (in the set, the last item is the range from the dot to the backslash) *)
Definition source_regex : re :=
  Star Dot ⋅ Lit "source" ⋅ key_sep ⋅ Star sp ⋅ quote
  ⋅ Named "source"
      (Plus (Cls [Range "a" "z"; Range "A" "Z"; Ch ":"; Ch "/"; Range "." "\"]))
  ⋅ quote ⋅ Star Dot.

(** .*git(:|[ ]?=>)[ ]*(?P<git>[a-zA-Z:\/\.-]+).* *)
Definition git_regex : re :=
  Star Dot ⋅ Lit "git" ⋅ key_sep ⋅ Star sp ⋅ Named "git" (Plus url_chars)
  ⋅ Star Dot.

(** .*platform(:|[ ]?=>)[ ]*(?P<platform>[a-zA-Z:\/\.-]+).* *)
Definition platform_regex : re :=
  Star Dot ⋅ Lit "platform" ⋅ key_sep ⋅ Star sp
  ⋅ Named "platform" (Plus url_chars) ⋅ Star Dot.

(** .*platforms(:|[ ]?=>)[ ]*(?P<platforms>\[.*\])[,]?.* *)
Definition platforms_regex : re :=
  Star Dot ⋅ Lit "platforms" ⋅ key_sep ⋅ Star sp
  ⋅ Named "platforms" (Lit "[" ⋅ Star Dot ⋅ Lit "]")
  ⋅ Opt (Cls [Ch ","]) ⋅ Star Dot.

(** .*path(:|[ ]?=>)[ ]*(?P<path>.+['\Q\)]).* *)
Definition path_regex : re :=
  Star Dot ⋅ Lit "path" ⋅ key_sep ⋅ Star sp
  ⋅ Named "path" (Plus Dot ⋅ Cls [Ch "'"; Ch DQ; Ch ")"]) ⋅ Star Dot.

(** .*github(:|[ ]?=>)[ ]*[\'\Q](?P<github>[a-zA-Z:\/\.-0-9]+)[\'\Q].*
    (in the set, dot to 0 is a range, then the hyphen and 9 are literals) *)
Definition github_regex : re :=
  Star Dot ⋅ Lit "github" ⋅ key_sep ⋅ Star sp ⋅ quote
  ⋅ Named "github"
      (Plus (Cls [Range "a" "z"; Range "A" "Z"; Ch ":"; Ch "/"; Range "." "0";
                  Ch "-"; Ch "9"]))
  ⋅ quote ⋅ Star Dot.

(** .*branch(:|[ ]?=>)[ ]*(?P<branch>[a-zA-Z:\/\.-]+).* *)
Definition branch_regex : re :=
  Star Dot ⋅ Lit "branch" ⋅ key_sep ⋅ Star sp
  ⋅ Named "branch" (Plus url_chars) ⋅ Star Dot.

(** .*require(:|[ ]?=>)[ ]*(?P<autorequire>[a-zA-Z:\/\.-]+).* *)
Definition autorequire_regex : re :=
  Star Dot ⋅ Lit "require" ⋅ key_sep ⋅ Star sp
  ⋅ Named "autorequire" (Plus url_chars) ⋅ Star Dot.

(** .*group(:|[ ]?=>)[ ]*(?P<group>[a-zA-Z:\/\.-]+).* *)
Definition group_regex : re :=
  Star Dot ⋅ Lit "group" ⋅ key_sep ⋅ Star sp
  ⋅ Named "group" (Plus url_chars) ⋅ Star Dot.

(** .*groups(:|[ ]?=>)[ ]*(?P<groups>\[.*\]),.* *)
Definition groups_regex : re :=
  Star Dot ⋅ Lit "groups" ⋅ key_sep ⋅ Star sp
  ⋅ Named "groups" (Lit "[" ⋅ Star Dot ⋅ Lit "]") ⋅ Lit "," ⋅ Star Dot.

(** gem[ ]['\Q].*?['\Q](?P<requirement>(CLAUSE)+).*
    where CLAUSE is [>|<|=|~>|\d]+[ ]*[0-9\.\w]+[ ,]* *)
Definition requirement_regex : re :=
  Lit "gem" ⋅ sp ⋅ quote ⋅ LazyStar Dot ⋅ quote
  ⋅ Named "requirement"
      (Plus (Grp
         (Plus (Cls [Ch ">"; Ch "|"; Ch "<"; Ch "|"; Ch "="; Ch "|"; Ch "~";
                     Ch ">"; Ch "|"; Digit])
          ⋅ Star sp
          ⋅ Plus (Cls [Range "0" "9"; Ch "."; Word])
          ⋅ Star (Cls [Ch " "; Ch ","]))))
  ⋅ Star Dot.

(** [gemfile_regexes], an [OrderedDict]: the keys in insertion order *)
Definition gemfile_regexes : list (string * re) :=
  [ ("name", name_regex);
    ("source", source_regex);
    ("git", git_regex);
    ("platform", platform_regex);
    ("platforms", platforms_regex);
    ("path", path_regex);
    ("github", github_regex);
    ("branch", branch_regex);
    ("autorequire", autorequire_regex);
    ("group", group_regex);
    ("groups", groups_regex);
    ("requirement", requirement_regex) ].

(** .*group[ ]?(:|[ ]?=>)[ ]*(?P<groupblock>.*?) do *)
Definition group_block_regex : re :=
  Star Dot ⋅ Lit "group" ⋅ Opt sp ⋅ key_sep ⋅ Star sp
  ⋅ Named "groupblock" (LazyStar Dot) ⋅ Lit " do".

(** .*add_development_dependency (?P<line>REST) where REST is .* *)
Definition add_dvtdep_regex : re :=
  Star Dot ⋅ Lit "add_development_dependency " ⋅ Named "line" (Star Dot).

(** .*add_runtime_dependency (?P<line>REST) where REST is .* *)
Definition add_rundep_regex : re :=
  Star Dot ⋅ Lit "add_runtime_dependency " ⋅ Named "line" (Star Dot).

(** *** Objects and state *)

(** The attributes of a parser that [__init__] sets and nothing changes. *)
Record parser : Type := mkParser {
  filepath : string;
  appname : string;
  contents : list string;
  gemspec : bool
}.

(** What parsing mutates: the class attribute [GemfileParser.global_group]
    (shared by every parser of the process), the dictionary
    [self.dependencies], and the lines printed so far. *)
Record state : Type := mkState {
  global_group : string;
  dependencies : gmap string (list Dependency);
  stdout : list string
}.

Definition set_global_group (g : string) (st : state) : state :=
  mkState g (dependencies st) (stdout st).

Definition set_dependencies (d : gmap string (list Dependency)) (st : state)
  : state :=
  mkState (global_group st) d (stdout st).

Definition print (msg : string) (st : state) : state :=
  mkState (global_group st) (dependencies st) (stdout st ++ [msg]).

(** The files the parser can see: [open(path).readlines()], [None] when
    [open] raises, and [glob.glob(pattern)]. *)
Record filesystem : Type := mkFS {
  readlines : string -> option (list string);
  glob : string -> list string
}.

(** A call returns, or an [open] raised and the exception reached the
    caller. *)
Inductive result (A : Type) : Type :=
| Ok (a : A)
| IOError (path : string).
Arguments Ok {A} a.
Arguments IOError {A} path.

Definition bind {A B : Type} (r : result A) (f : A -> result B) : result B :=
  match r with
  | Ok a => f a
  | IOError p => IOError p
  end.

Notation "'let*' x := r 'in' k" := (bind r (fun x => k))
  (at level 10, x name, r at level 100, k at level 200).

Definition open_readlines (fs : filesystem) (path : string)
  : result (list string) :=
  match readlines fs path with
  | Some ls => Ok ls
  | None => IOError path
  end.

(** The value of [self.dependencies] after [__init__]. *)
Definition init_dependencies : gmap string (list Dependency) :=
  <["development" := []]> (<["runtime" := []]> (<["test" := []]>
    (<["production" := []]> (<["metrics" := []]> ∅)))).

Definition predefined_groups : list string :=
  ["development"; "runtime"; "test"; "production"; "metrics"].

(** [GemfileParser(filepath, appname)] *)
Definition __init__ (fs : filesystem) (filepath appname : string)
  : result parser :=
  let* contents := open_readlines fs filepath in
  Ok (mkParser filepath appname contents (endswith filepath "gemspec")).

(** The state a parser starts from when the class attribute holds [g]. *)
Definition init_state (g : string) : state := mkState g init_dependencies [].

(** *** Methods *)

Definition preprocess (line : string) : string :=
  let line :=
    match find "#" line with
    | Some i => slice_to i line
    | None => line
    end in
  strip line.

(** One turn of the loop over [gemfile_regexes] in [parse_line].  Every
    pattern of the table has its named group on each of its paths, so the
    group of a match is never unset ([MatcherFacts.table_groups_set]) and the
    branch for an unset group is never taken. *)
Definition apply_criteria (line : string) (dep : Dependency)
    (entry : string * re) : Dependency :=
  let '(criteria, criteria_regex) := entry in
  match match_ criteria_regex line with
  | Some m =>
      match Re.group criteria m with
      | Some v =>
          if String.eqb criteria "requirement"
          then append_requirement v dep
          else setattr dep criteria v
      | None => dep
      end
  | None => dep
  end.

(** The record [parse_line] builds before it files it.  Under Python 3
    [unicode(line)] raises [NameError] and the line is used as it is. *)
Definition build_dependency (appname g line : string) : Dependency :=
  let dep := new_Dependency g (if String.eqb appname "" then [] else [appname]) in
  fold_left (apply_criteria line) gemfile_regexes dep.

Definition parse_line (self : parser) (line : string) (st : state) : state :=
  let dep := build_dependency (appname self) (global_group st) line in
  match dependencies st !! group dep with
  | Some deps => set_dependencies (<[group dep := deps ++ [dep]]> (dependencies st)) st
  | None => set_dependencies (<[group dep := [dep]]> (dependencies st)) st
  end.

(** The body of the loop of [parse_gemspec]. *)
Definition gemspec_line (self : parser) (raw : string) (st : state) : state :=
  let line := preprocess raw in
  match match_ add_dvtdep_regex line with
  | Some m =>
      let st := set_global_group "development" st in
      match Re.group "line" m with
      | Some line => parse_line self line st
      | None => st
      end
  | None =>
      match match_ add_rundep_regex line with
      | Some m =>
          let st := set_global_group "runtime" st in
          match Re.group "line" m with
          | Some line => parse_line self line st
          | None => st
          end
      | None => st
      end
  end.

Definition parse_gemspec (fs : filesystem) (self : parser) (path : string)
    (st : state) : result state :=
  let* contents := (if String.eqb path "" then Ok (contents self)
                    else open_readlines fs path) in
  Ok (fold_left (fun st raw => gemspec_line self raw st) contents st).

(** The body of the loop of [parse_gemfile]. *)
Definition gemfile_line (fs : filesystem) (self : parser) (raw : string)
    (st : state) : result state :=
  let line := preprocess raw in
  if String.eqb line "" || startswith line "source" then Ok st
  else if startswith line "group" then
    match match_ group_block_regex line with
    | Some m =>
        match Re.group "groupblock" m with
        | Some g => Ok (set_global_group g st)
        | None => Ok st
        end
    | None => Ok st
    end
  else if startswith line "end" then Ok (set_global_group "runtime" st)
  else if startswith line "gemspec" then
    let gemfiledir := dirname (filepath self) in
    let gemspec_list := glob fs (join gemfiledir "*.gemspec") in
    match gemspec_list with
    | _ :: _ :: _ => Ok (print "Multiple gemspec files found" st)
    | [] => Ok (print "No gemspec file found. Ignoring the gemspec call" st)
    | [gemspec_file] => parse_gemspec fs self (join gemfiledir gemspec_file) st
    end
  else if startswith line "gem " then Ok (parse_line self line st)
  else Ok st.

Fixpoint gemfile_lines (fs : filesystem) (self : parser) (ls : list string)
    (st : state) : result state :=
  match ls with
  | [] => Ok st
  | raw :: ls' =>
      let* st' := gemfile_line fs self raw st in
      gemfile_lines fs self ls' st'
  end.

Definition parse_gemfile (fs : filesystem) (self : parser) (path : string)
    (st : state) : result state :=
  let* contents := (if String.eqb path "" then Ok (contents self)
                    else open_readlines fs path) in
  gemfile_lines fs self contents st.

Definition parse (fs : filesystem) (self : parser) (st : state)
  : result state :=
  if gemspec self then parse_gemspec fs self "" st
  else parse_gemfile fs self "" st.

(** [GemfileParser(filepath, appname).parse()] in a process whose class
    attribute [global_group] holds [g]. *)
Definition run (fs : filesystem) (filepath appname g : string) : result state :=
  let* self := __init__ fs filepath appname in
  parse fs self (init_state g).

End GemfileParser.

(** ** Vocabulary of the statements

    Predicates on text, views of the matcher on one-character patterns, and
    relations between states, used to state and prove the properties. *)

Module Aux.
Import Py Re GemfileParser.
Local Open Scope list_scope.

(** Texts all of whose characters satisfy [p], and the longest such prefix
    of a text. *)
Fixpoint all (p : ascii -> bool) (s : string) : bool :=
  match s with
  | EmptyString => true
  | String a s' => p a && all p s'
  end.

Fixpoint take_while (p : ascii -> bool) (s : string) : string :=
  match s with
  | EmptyString => EmptyString
  | String a s' => if p a then String a (take_while p s') else EmptyString
  end.

Fixpoint drop_while (p : ascii -> bool) (s : string) : string :=
  match s with
  | EmptyString => EmptyString
  | String a s' => if p a then drop_while p s' else s
  end.

Definition is_letter (a : ascii) : bool := in_range 65 90 a || in_range 97 122 a.

(** The characters of a Ruby identifier: letters, digits, underscore. *)
Definition is_ident (a : ascii) : bool :=
  is_letter a || in_range 48 57 a || Ascii.eqb a "_".

Definition not_newline (a : ascii) : bool := negb (is_newline a).

(** Greedy repetition of a one-character pattern, by recursion on the
    text: the longest run first, then one character less at a time. *)
Fixpoint char_star (p : ascii -> bool) (k : cont) (s : string) (c : captures)
  : option captures :=
  match s with
  | EmptyString => k s c
  | String a s' =>
      if p a then
        match char_star p k s' c with
        | Some m => Some m
        | None => k s c
        end
      else k s c
  end.

(** Lazy repetition of a one-character pattern: the shortest run first. *)
Fixpoint char_lazy (p : ascii -> bool) (k : cont) (s : string) (c : captures)
  : option captures :=
  match k s c with
  | Some m => Some m
  | None =>
      match s with
      | EmptyString => None
      | String a s' => if p a then char_lazy p k s' c else None
      end
  end.

(** [body] matches exactly one character, which must satisfy [p]. *)
Definition single (p : ascii -> bool)
    (body : string -> captures -> cont -> option captures) : Prop :=
  forall s c k,
    body s c k =
    match s with
    | String a s' => if p a then k s' c else None
    | EmptyString => None
    end.

(** The effect of one pattern of the table on the record being built. *)
Definition update (c : string) (o : option string) (d : Dependency)
  : Dependency :=
  match o with
  | Some v =>
      if String.eqb c "requirement" then append_requirement v d
      else setattr d c v
  | None => d
  end.

Definition pick {A : Type} (c attr : string) (new old : A) : A :=
  if String.eqb c attr then new else old.

(** [d2] holds every key of [d1], and each sequence of [d1] is a prefix of
    the one [d2] has under the same key. *)
Definition extends (d1 d2 : gmap string (list Dependency)) : Prop :=
  forall k,
    (is_Some (d1 !! k) -> is_Some (d2 !! k)) /\
    exists l, d2 !!! k = d1 !!! k ++ l.

(** Lines that leave the group state alone: every line that starts with
    none of [group], [end] and [gemspec]. *)
Definition keeps_group (raw : string) : bool :=
  let line := preprocess raw in
  negb (startswith line "group") && negb (startswith line "end")
  && negb (startswith line "gemspec").

(** The per-line group pattern matches the line. *)
Definition has_group_attribute (line : string) : bool :=
  match match_ group_regex line with Some _ => true | None => false end.

(** The keyword [kw] occurs nowhere in [s]. *)
Fixpoint no_keyword (kw s : string) : bool :=
  negb (startswith s kw)
  && match s with
     | EmptyString => true
     | String _ s' => no_keyword kw s'
     end.

(** What may follow the symbol of a group attribute: nothing, or a comma
    and further attributes that do not hold the keyword [group]. *)
Definition comma_tail (t : string) : bool :=
  match t with
  | EmptyString => true
  | String a t' => Ascii.eqb a "," && no_keyword "group" t'
  end.

(** The ways the pattern table lets a key meet its value: [key: value],
    [key => value] and [key=> value]. *)
Definition is_key_sep (sep : string) : bool :=
  String.eqb sep ":" || String.eqb sep " =>" || String.eqb sep "=>".

(** The groups set in [c] are set in [c']. *)
Definition keeps (c c' : captures) : Prop :=
  forall n, is_Some (Re.group n c) -> is_Some (Re.group n c').

(** A success of a piece of a pattern is a success of its continuation,
    on groups that still hold those the piece started from. *)
Definition through
    (body : string -> captures -> cont -> option captures) : Prop :=
  forall s c k m,
    body s c k = Some m ->
    exists s' c', k s' c' = Some m /\ keeps c c'.

(** The group [n] is closed on every path through the pattern. *)
Fixpoint sets (n : string) (r : re) : bool :=
  match r with
  | Named n' r1 => String.eqb n' n || sets n r1
  | Cat r1 r2 => sets n r1 || sets n r2
  | Alt r1 r2 => sets n r1 && sets n r2
  | _ => false
  end.

(** Neither directive pattern matches the line. *)
Definition no_directive (raw : string) : bool :=
  match match_ add_dvtdep_regex (preprocess raw),
        match_ add_rundep_regex (preprocess raw) with
  | None, None => true
  | _, _ => false
  end.

End Aux.

(** ** Inputs the properties are stated and tried on

    In the comments, Q stands for the double quote character. *)

Module Inputs.
Import Py GemfileParser.
Local Open Scope list_scope.

(** gem QfooQ, Q>= 1.0Q *)
Definition gem_foo : string :=
  "gem " +:+ quoted "foo" +:+ ", " +:+ quoted ">= 1.0".

(** gem QfooQ, Q>= 1.0Q, Q< 2.0Q *)
Definition gem_foo_two_clauses : string :=
  "gem " +:+ quoted "foo" +:+ ", " +:+ quoted ">= 1.0" +:+ ", "
  +:+ quoted "< 2.0".

(** gem QbarQ, path: Q../barQ *)
Definition gem_bar_path : string :=
  "gem " +:+ quoted "bar" +:+ ", path: " +:+ quoted "../bar".

(** gem QfooQ, group: :dev *)
Definition gem_foo_group_dev : string :=
  "gem " +:+ quoted "foo" +:+ ", group: :dev".

(** gem QfooQ, group: :test *)
Definition gem_foo_group_test : string :=
  "gem " +:+ quoted "foo" +:+ ", group: :test".

(** gem QbazQ *)
Definition gem_baz : string := "gem " +:+ quoted "baz".

(** QrspecQ, Q~> 3.0Q *)
Definition rspec_arguments : string :=
  quoted "rspec" +:+ ", " +:+ quoted "~> 3.0".

(** spec.add_development_dependency QrspecQ, Q~> 3.0Q *)
Definition add_rspec : string :=
  "spec.add_development_dependency " +:+ rspec_arguments.

(** A Gemfile with one group block, as [readlines] returns it. *)
Definition block_gemfile : list string :=
  [ "source 'https://rubygems.org'" +:+ String "010" "";
    "group :test do" +:+ String "010" "";
    "  " +:+ gem_foo +:+ "  # pinned" +:+ String "010" "";
    "end" +:+ String "010" "";
    gem_baz +:+ String "010" "" ].

(** A Gemfile whose block holds a line with a group attribute of its own. *)
Definition override_gemfile : list string :=
  [ "group :test do"; "  " +:+ gem_foo_group_dev; "end" ].

(** No file at all. *)
Definition no_files : filesystem := mkFS (fun _ => None) (fun _ => []).

(** One file, at [path]. *)
Definition one_file (path : string) (ls : list string) : filesystem :=
  mkFS (fun p => if String.eqb p path then Some ls else None) (fun _ => []).

(** A project seen from its own directory: [Gemfile] and [foo.gemspec]. *)
Definition project_here : filesystem :=
  mkFS (fun p =>
          if String.eqb p "Gemfile" then Some ["gemspec"; gem_foo]
          else if String.eqb p "foo.gemspec" then Some [add_rspec]
          else None)
       (fun pattern =>
          if String.eqb pattern "*.gemspec" then ["foo.gemspec"] else []).

(** The same project with a group attribute on the line after the
    directive. *)
Definition project_with_attribute : filesystem :=
  mkFS (fun p =>
          if String.eqb p "Gemfile" then Some ["gemspec"; gem_foo_group_dev]
          else if String.eqb p "foo.gemspec" then Some [add_rspec]
          else None)
       (fun pattern =>
          if String.eqb pattern "*.gemspec" then ["foo.gemspec"] else []).

(** The same project seen from the directory above it, where it is the
    directory [proj]: [glob.glob] returns each match with the directory
    part of the pattern in front. *)
Definition project_from_above : filesystem :=
  mkFS (fun p =>
          if String.eqb p "proj/Gemfile" then Some ["gemspec"; gem_foo]
          else if String.eqb p "proj/foo.gemspec" then Some [add_rspec]
          else None)
       (fun pattern =>
          if String.eqb pattern "proj/*.gemspec" then ["proj/foo.gemspec"]
          else []).

End Inputs.

(** ** Vocabulary of the further properties *)

Module Cover.
Import Py Re GemfileParser Aux.
Local Open Scope list_scope.

(** What a pattern matches, as a relation: [sem r u c c'] says that [r]
    matches exactly the text [u] and turns the groups [c] into [c']. *)
Inductive star_sem (S : string -> captures -> captures -> Prop)
  : string -> captures -> captures -> Prop :=
| star_sem_nil c : star_sem S "" c c
| star_sem_cons u v c c1 c2 :
    S u c c1 -> star_sem S v c1 c2 -> star_sem S (u +:+ v) c c2.

Fixpoint sem (r : re) (u : string) (c c' : captures) {struct r} : Prop :=
  match r with
  | Eps => u = "" /\ c' = c
  | Lit l => u = l /\ c' = c
  | Dot => (exists a, u = String a "" /\ is_newline a = false) /\ c' = c
  | Cls items => (exists a, u = String a "" /\ in_class items a = true) /\ c' = c
  | Cat r1 r2 =>
      exists u1 u2 c1, u = u1 +:+ u2 /\ sem r1 u1 c c1 /\ sem r2 u2 c1 c'
  | Alt r1 r2 => sem r1 u c c' \/ sem r2 u c c'
  | Star r1 => star_sem (sem r1) u c c'
  | LazyStar r1 => star_sem (sem r1) u c c'
  | Named n r1 => exists c1, sem r1 u c c1 /\ c' = (n, u) :: c1
  end.

(** The pattern holds no named group. *)
Fixpoint plain (r : re) : bool :=
  match r with
  | Cat r1 r2 | Alt r1 r2 => plain r1 && plain r2
  | Star r1 | LazyStar r1 => plain r1
  | Named _ _ => false
  | _ => true
  end.

(** The number of records of a result collection. *)
Definition total (deps : gmap string (list Dependency)) : nat :=
  map_fold (fun _ l n => length l + n) 0 deps.

(** The kinds of line of the two loops. *)
Definition is_dependency_line (raw : string) : bool :=
  startswith (preprocess raw) "gem ".

Definition is_gemspec_call (raw : string) : bool :=
  startswith (preprocess raw) "gemspec".

Definition is_directive (raw : string) : bool := negb (no_directive raw).

(** The diagnostic of a gemspec call that finds no gemspec, or several. *)
Definition diagnostic (found : list string) : string :=
  match found with
  | [] => "No gemspec file found. Ignoring the gemspec call"
  | _ => "Multiple gemspec files found"
  end.

(** [P key record] holds of every record of the collection. *)
Definition every (P : string -> Dependency -> Prop)
    (deps : gmap string (list Dependency)) : Prop :=
  forall k d, d ∈ deps !!! k -> P k d.

(** Under every key, [d2] holds the records of [front] and then those of
    [d1]. *)
Definition behind (front : string -> list Dependency)
    (d1 d2 : gmap string (list Dependency)) : Prop :=
  forall k, d2 !!! k = front k ++ d1 !!! k.

(** [body] consumes a text that [S] accepts and goes on with its
    continuation on the rest. *)
Definition sound (S : string -> captures -> captures -> Prop)
    (body : string -> captures -> cont -> option captures) : Prop :=
  forall s c k m,
    body s c k = Some m ->
    exists u s' c', s = u +:+ s' /\ S u c c' /\ k s' c' = Some m.

(** [kw] occurs in [s]. *)
Definition has_keyword (kw s : string) : bool := negb (no_keyword kw s).

Definition is_quote (a : ascii) : bool := Ascii.eqb a "'" || Ascii.eqb a DQ.

(** The characters a name can hold. *)
Definition is_name_char (a : ascii) : bool := not_newline a && negb (is_quote a).

(** The two directives of a gemspec, each with the space that follows it. *)
Definition dvtdep_keyword : string := "add_development_dependency ".
Definition rundep_keyword : string := "add_runtime_dependency ".

(** The attribute patterns whose value is a bare token, with the keyword
    each one looks for and the attribute it sets. *)
Definition token_patterns : list (string * string * re) :=
  [ ("git", "git", git_regex);
    ("platform", "platform", platform_regex);
    ("branch", "branch", branch_regex);
    ("require", "autorequire", autorequire_regex);
    ("group", "group", group_regex) ].

(** The characters a source and a github value can hold: the sets of
    their patterns. *)
Definition is_source_char (a : ascii) : bool :=
  in_class [Range "a" "z"; Range "A" "Z"; Ch ":"; Ch "/"; Range "." "\"] a.

Definition is_github_char (a : ascii) : bool :=
  in_class [Range "a" "z"; Range "A" "Z"; Ch ":"; Ch "/"; Range "." "0";
            Ch "-"; Ch "9"] a.

(** The characters a requirement can hold: those of the sets of its
    pattern. *)
Definition is_requirement_char (a : ascii) : bool :=
  in_class [Ch ">"; Ch "|"; Ch "<"; Ch "="; Ch "~"; Digit; Ch " ";
            Range "0" "9"; Ch "."; Word; Ch ","] a.

(** The characters a requirement can start with. *)
Definition is_operator_char (a : ascii) : bool :=
  in_class [Ch ">"; Ch "|"; Ch "<"; Ch "="; Ch "~"; Digit] a.

End Cover.

(** * Properties *)

(** ** The line preprocessor *)

Module PreprocessFacts.
Import Py GemfileParser Aux.

Lemma find_slice_to c s i : find c s = Some i -> find c (slice_to i s) = None.
Proof.
  revert i. induction s as [|a s IH]; intros i; simpl; [discriminate|].
  destruct (Ascii.eqb a c) eqn:E.
  - intros [= <-]. reflexivity.
  - destruct (find c s) as [j|]; simpl; [|discriminate].
    intros [= <-]. simpl. rewrite E, (IH j); reflexivity.
Qed.

Lemma find_cons_None c a s :
  find c (String a s) = None <-> Ascii.eqb a c = false /\ find c s = None.
Proof.
  simpl. destruct (Ascii.eqb a c); [split; [discriminate|intros [? _]; discriminate]|].
  destruct (find c s); simpl; split; try discriminate; auto.
  intros [_ ?]; discriminate.
Qed.

Lemma find_lstrip_None c s : find c s = None -> find c (lstrip s) = None.
Proof.
  induction s as [|a s IH]; [reflexivity|].
  intros H. pose proof H as [E F]%find_cons_None.
  simpl lstrip. destruct (isspace a); auto.
Qed.

Lemma find_rstrip_None c s : find c s = None -> find c (rstrip s) = None.
Proof.
  induction s as [|a s IH]; [reflexivity|].
  intros [E F]%find_cons_None. specialize (IH F).
  simpl rstrip. destruct (rstrip s) as [|b r].
  - destruct (isspace a); [reflexivity|]. apply find_cons_None; auto.
  - apply find_cons_None; auto.
Qed.

Lemma lstrip_idem s : lstrip (lstrip s) = lstrip s.
Proof.
  induction s as [|a s IH]; [reflexivity|].
  simpl. destruct (isspace a) eqn:E; [exact IH|]. simpl. rewrite E. reflexivity.
Qed.

Lemma rstrip_idem s : rstrip (rstrip s) = rstrip s.
Proof.
  induction s as [|a s IH]; [reflexivity|].
  simpl. destruct (rstrip s) as [|b r] eqn:R.
  - destruct (isspace a) eqn:E; [reflexivity|]. simpl. rewrite E. reflexivity.
  - change (rstrip (String a (String b r))) with
      (match rstrip (String b r) with
       | EmptyString => if isspace a then EmptyString else String a EmptyString
       | r' => String a r'
       end).
    rewrite IH. reflexivity.
Qed.

(** Stripping the two ends is independent of the order. *)
Lemma lstrip_rstrip s : lstrip (rstrip s) = rstrip (lstrip s).
Proof.
  induction s as [|a s IH]; [reflexivity|].
  simpl lstrip at 2. destruct (isspace a) eqn:E.
  - rewrite <- IH. simpl rstrip.
    destruct (rstrip s); rewrite ?E; simpl; rewrite ?E; reflexivity.
  - simpl rstrip.
    destruct (rstrip s); rewrite ?E; simpl; rewrite ?E; reflexivity.
Qed.

Lemma strip_idem s : strip (strip s) = strip s.
Proof.
  unfold strip. rewrite lstrip_rstrip, rstrip_idem, lstrip_idem. reflexivity.
Qed.

Lemma find_strip_None c s : find c s = None -> find c (strip s) = None.
Proof. intros H. unfold strip. apply find_rstrip_None, find_lstrip_None, H. Qed.

(** A preprocessed line holds no [#]. *)
Lemma preprocess_no_hash line : find "#" (preprocess line) = None.
Proof.
  unfold preprocess. destruct (find "#" line) as [i|] eqn:F.
  - apply find_strip_None, find_slice_to, F.
  - apply find_strip_None, F.
Qed.

End PreprocessFacts.

(** ** The dependency builder *)

Module BuilderFacts.
Import Py Re GemfileParser Aux.
Local Open Scope list_scope.


Lemma apply_criteria_eq line d c r :
  apply_criteria line d (c, r) = update c (match_group r c line) d.
Proof.
  unfold apply_criteria, match_group, update.
  destruct (match_ r line) as [m|]; [destruct (Re.group c m)|]; reflexivity.
Qed.

Lemma pick_same {A : Type} c attr (x : A) : pick c attr x x = x.
Proof. unfold pick. destruct (String.eqb c attr); reflexivity. Qed.

Lemma update_mk c o n r a s p g pf pfs gs gi pa gh br :
  update c o (mkDependency n r a s p g pf pfs gs gi pa gh br) =
  mkDependency
    (pick c "name" (from_option Some n o) n)
    (pick c "requirement" (from_option (fun v => r ++ [v]) r o) r)
    (pick c "autorequire" (from_option Some a o) a)
    (pick c "source" (from_option Some s o) s)
    p
    (pick c "group" (from_option id g o) g)
    (pick c "platform" (from_option Some pf o) pf)
    (pick c "platforms" (from_option Some pfs o) pfs)
    (pick c "groups" (from_option Some gs o) gs)
    (pick c "git" (from_option Some gi o) gi)
    (pick c "path" (from_option Some pa o) pa)
    (pick c "github" (from_option Some gh o) gh)
    (pick c "branch" (from_option Some br o) br).
Proof.
  destruct o as [v|]; [|cbn [from_option update]; rewrite !pick_same; reflexivity].
  unfold update, setattr, pick. cbn [from_option id].
  repeat match goal with
  | |- context [String.eqb c ?k] =>
      destruct (String.eqb_spec c k) as [->|?]; [reflexivity|]
  end.
  reflexivity.
Qed.

(** What [parse_line] builds, field by field: each attribute is the group
    of its own pattern, [group] falls back on the current global group, and
    [requirement] holds the one match of its pattern, if any. *)
Lemma build_dependency_eq app g line :
  build_dependency app g line =
  {| name := match_group name_regex "name" line;
     requirement :=
       match match_group requirement_regex "requirement" line with
       | Some v => [v]
       | None => []
       end;
     autorequire := match_group autorequire_regex "autorequire" line;
     source := match_group source_regex "source" line;
     parent := if String.eqb app "" then [] else [app];
     group :=
       match match_group group_regex "group" line with
       | Some v => v
       | None => g
       end;
     platform := match_group platform_regex "platform" line;
     platforms := match_group platforms_regex "platforms" line;
     groups := match_group groups_regex "groups" line;
     git := match_group git_regex "git" line;
     path := match_group path_regex "path" line;
     github := match_group github_regex "github" line;
     branch := match_group branch_regex "branch" line |}.
Proof.
  unfold build_dependency, gemfile_regexes, new_Dependency. cbn [fold_left].
  rewrite !apply_criteria_eq.
  generalize (match_group name_regex "name" line),
    (match_group requirement_regex "requirement" line),
    (match_group autorequire_regex "autorequire" line),
    (match_group source_regex "source" line),
    (match_group group_regex "group" line),
    (match_group platform_regex "platform" line),
    (match_group platforms_regex "platforms" line),
    (match_group groups_regex "groups" line),
    (match_group git_regex "git" line),
    (match_group path_regex "path" line),
    (match_group github_regex "github" line),
    (match_group branch_regex "branch" line).
  intros.
  repeat (rewrite update_mk;
          cbv beta iota delta [pick String.eqb Ascii.eqb Bool.eqb]).
  f_equal;
    match goal with
    | |- context [from_option _ _ ?o] => destruct o; reflexivity
    end.
Qed.

End BuilderFacts.

(** ** The result collection and the group state *)

Module StateFacts.
Import Py Re GemfileParser Aux BuilderFacts.
Local Open Scope list_scope.

Lemma startswith_app s p : startswith s p = true <-> exists t, s = p +:+ t.
Proof.
  revert s. induction p as [|b p IH]; intros s; simpl.
  - split; [intros _; exists s|]; reflexivity.
  - destruct s as [|a s]; [split; [discriminate|intros [t E]; discriminate E]|].
    rewrite andb_true_iff, IH. split.
    + intros [->%Ascii.eqb_eq [t ->]]. eauto.
    + intros [t E]. simpl in E. injection E as -> ->.
      rewrite Ascii.eqb_refl. eauto.
Qed.


Lemma extends_refl d : extends d d.
Proof. intros k. split; [auto|]. exists []. rewrite app_nil_r. reflexivity. Qed.

Lemma extends_trans d1 d2 d3 : extends d1 d2 -> extends d2 d3 -> extends d1 d3.
Proof.
  intros H12 H23 k. destruct (H12 k) as [S12 [l E12]], (H23 k) as [S23 [l' E23]].
  split; [auto|]. exists (l ++ l'). rewrite E23, E12, app_assoc. reflexivity.
Qed.

Lemma extends_elem d1 d2 k x :
  extends d1 d2 -> x ∈ d1 !!! k -> x ∈ d2 !!! k.
Proof.
  intros H Hx. destruct (H k) as [_ [l ->]]. apply elem_of_app. auto.
Qed.

(** [parse_line] appends the record it builds to the sequence keyed by the
    record's group, creates the sequence when the key is new, and touches
    nothing else. *)
Lemma parse_line_dependencies self line st :
  let dep := build_dependency (appname self) (global_group st) line in
  dependencies (parse_line self line st) =
  <[group dep := (dependencies st !!! group dep) ++ [dep]]> (dependencies st).
Proof.
  intros dep. unfold parse_line. fold dep.
  rewrite lookup_total_alt.
  destruct (dependencies st !! group dep); reflexivity.
Qed.

Lemma parse_line_global_group self line st :
  global_group (parse_line self line st) = global_group st.
Proof.
  unfold parse_line.
  destruct (dependencies st !! _); reflexivity.
Qed.

Lemma parse_line_stdout self line st :
  stdout (parse_line self line st) = stdout st.
Proof.
  unfold parse_line.
  destruct (dependencies st !! _); reflexivity.
Qed.

Lemma parse_line_extends self line st :
  extends (dependencies st) (dependencies (parse_line self line st)).
Proof.
  rewrite parse_line_dependencies. cbv zeta.
  set (dep := build_dependency _ _ _). intros k.
  destruct (decide (group dep = k)) as [<-|Hne].
  - rewrite lookup_insert_eq, lookup_total_insert_eq. eauto.
  - rewrite lookup_insert_ne, lookup_total_insert_ne by done.
    split; [auto|]. exists []. rewrite app_nil_r. reflexivity.
Qed.

Lemma gemspec_line_extends self raw st :
  extends (dependencies st) (dependencies (gemspec_line self raw st)).
Proof.
  unfold gemspec_line.
  repeat match goal with
  | |- context [match ?o with Some _ => _ | None => _ end] => destruct o
  end;
  try apply extends_refl;
  apply (parse_line_extends self _ (set_global_group _ st)).
Qed.

Lemma gemspec_lines_extends self ls st :
  extends (dependencies st)
    (dependencies (fold_left (fun st raw => gemspec_line self raw st) ls st)).
Proof.
  revert st. induction ls as [|raw ls IH]; intros st; simpl.
  - apply extends_refl.
  - eapply extends_trans; [apply gemspec_line_extends|apply IH].
Qed.

Lemma parse_gemspec_extends fs self path st st' :
  parse_gemspec fs self path st = Ok st' ->
  extends (dependencies st) (dependencies st').
Proof.
  unfold parse_gemspec.
  destruct (if String.eqb path "" then _ else _) as [ls|p]; simpl; [|discriminate].
  intros [= <-]. apply gemspec_lines_extends.
Qed.

Lemma gemfile_line_extends fs self raw st st' :
  gemfile_line fs self raw st = Ok st' ->
  extends (dependencies st) (dependencies st').
Proof.
  unfold gemfile_line.
  repeat match goal with
  | |- context [if ?b then _ else _] => destruct b
  | |- context [match ?o with Some _ => _ | None => _ end] => destruct o
  | |- context [match ?l with [] => _ | _ :: _ => _ end] => destruct l
  end;
  try (intros [= <-]; first [apply extends_refl | apply parse_line_extends]).
  apply parse_gemspec_extends.
Qed.

Lemma gemfile_lines_extends fs self ls st st' :
  gemfile_lines fs self ls st = Ok st' ->
  extends (dependencies st) (dependencies st').
Proof.
  revert st. induction ls as [|raw ls IH]; intros st; simpl.
  - intros [= <-]. apply extends_refl.
  - destruct (gemfile_line fs self raw st) as [st1|p] eqn:E; simpl; [|discriminate].
    intros H. eapply extends_trans; [eapply gemfile_line_extends, E|apply IH, H].
Qed.

Lemma gemfile_lines_app fs self l1 l2 st :
  gemfile_lines fs self (l1 ++ l2) st =
  (let* st1 := gemfile_lines fs self l1 st in gemfile_lines fs self l2 st1).
Proof.
  revert st. induction l1 as [|raw l1 IH]; intros st; simpl; [reflexivity|].
  destruct (gemfile_line fs self raw st); simpl; auto.
Qed.

Lemma gemfile_lines_app_Ok fs self l1 l2 st st' :
  gemfile_lines fs self (l1 ++ l2) st = Ok st' ->
  exists st1, gemfile_lines fs self l1 st = Ok st1 /\
              gemfile_lines fs self l2 st1 = Ok st'.
Proof.
  rewrite gemfile_lines_app.
  destruct (gemfile_lines fs self l1 st) as [st1|]; simpl; [eauto|discriminate].
Qed.

Lemma gemfile_lines_cons_Ok fs self raw ls st st' :
  gemfile_lines fs self (raw :: ls) st = Ok st' ->
  exists st1, gemfile_line fs self raw st = Ok st1 /\
              gemfile_lines fs self ls st1 = Ok st'.
Proof.
  simpl. destruct (gemfile_line fs self raw st) as [st1|]; simpl; [eauto|discriminate].
Qed.

(** A line that starts with the keyword [gem] and a space reaches
    [parse_line]. *)
Lemma gemfile_line_gem fs self raw st :
  startswith (preprocess raw) "gem " = true ->
  gemfile_line fs self raw st = Ok (parse_line self (preprocess raw) st).
Proof.
  intros [t E]%startswith_app. unfold gemfile_line. rewrite E. reflexivity.
Qed.

(** A line that starts with [end] resets the group. *)
Lemma gemfile_line_end fs self raw st :
  startswith (preprocess raw) "end" = true ->
  gemfile_line fs self raw st = Ok (set_global_group "runtime" st).
Proof.
  intros [t E]%startswith_app. unfold gemfile_line. rewrite E. reflexivity.
Qed.


Lemma gemfile_line_keeps_group fs self raw st st' :
  keeps_group raw = true ->
  gemfile_line fs self raw st = Ok st' ->
  global_group st' = global_group st.
Proof.
  unfold keeps_group, gemfile_line. cbv zeta.
  destruct (startswith (preprocess raw) "group"); [discriminate|].
  destruct (startswith (preprocess raw) "end"); [discriminate|].
  destruct (startswith (preprocess raw) "gemspec"); [discriminate|].
  intros _.
  destruct (_ || _); [intros [= <-]; reflexivity|].
  destruct (startswith _ _); intros [= <-];
    [apply parse_line_global_group|reflexivity].
Qed.

Lemma gemfile_lines_keep_group fs self ls st st' :
  forallb keeps_group ls = true ->
  gemfile_lines fs self ls st = Ok st' ->
  global_group st' = global_group st.
Proof.
  revert st. induction ls as [|raw ls IH]; intros st; simpl.
  - intros _ [= <-]. reflexivity.
  - intros [K Ks]%andb_true_iff.
    destruct (gemfile_line fs self raw st) as [st1|] eqn:E; simpl; [|discriminate].
    intros H. rewrite (IH _ Ks H). eapply gemfile_line_keeps_group; eauto.
Qed.

(** Where a dependency line lands: in the result of the whole file, under
    the key of the record built from the group state the line met. *)
Lemma gemfile_lines_files fs self pre raw post st0 st1 st' :
  startswith (preprocess raw) "gem " = true ->
  gemfile_lines fs self pre st0 = Ok st1 ->
  gemfile_lines fs self (pre ++ raw :: post) st0 = Ok st' ->
  let dep := build_dependency (appname self) (global_group st1) (preprocess raw) in
  exists later,
    dependencies st' !!! group dep =
    (dependencies st1 !!! group dep) ++ dep :: later.
Proof.
  intros Hgem Hpre Hall dep.
  apply gemfile_lines_app_Ok in Hall as (st1' & Hpre' & Hrest).
  rewrite Hpre in Hpre'. injection Hpre' as <-.
  apply gemfile_lines_cons_Ok in Hrest as (st2 & Hline & Hpost).
  rewrite (gemfile_line_gem _ _ _ _ Hgem) in Hline. injection Hline as <-.
  apply gemfile_lines_extends in Hpost.
  destruct (Hpost (group dep)) as [_ [later ->]].
  rewrite parse_line_dependencies. cbv zeta. fold dep.
  rewrite lookup_total_insert_eq, <- app_assoc. eauto.
Qed.

End StateFacts.

(** ** The matcher on the shapes of text the claims speak of *)

Module ReFacts.
Import Py Re Aux.
Local Open Scope list_scope.


Lemma single_Dot : single not_newline (exec Dot).
Proof.
  intros [|a s] c k; simpl; [reflexivity|].
  unfold not_newline. destruct (is_newline a); reflexivity.
Qed.

Lemma single_Cls items : single (in_class items) (exec (Cls items)).
Proof. intros [|a s] c k; reflexivity. Qed.

Lemma star_loop_single p body k n s c :
  single p body -> String.length s <= n ->
  star_loop body k n s c = char_star p k s c.
Proof.
  intros Hb. revert s c. induction n as [|n IH]; intros s c Hn.
  - destruct s; [reflexivity|simpl in Hn; lia].
  - simpl. rewrite Hb. destruct s as [|a s]; [reflexivity|].
    simpl. destruct (p a); [|reflexivity].
    replace (Nat.ltb (String.length s) (S (String.length s))) with true
      by (symmetry; apply Nat.ltb_lt; lia).
    rewrite IH by (simpl in Hn; lia). reflexivity.
Qed.

Lemma lazy_loop_single p body k n s c :
  single p body -> String.length s <= n ->
  lazy_loop body k n s c = char_lazy p k s c.
Proof.
  intros Hb. revert s c. induction n as [|n IH]; intros s c Hn.
  - destruct s; [|simpl in Hn; lia]. simpl. destruct (k "" c); reflexivity.
  - simpl. rewrite Hb. destruct s as [|a s]; simpl; [reflexivity|].
    destruct (k (String a s) c); [reflexivity|].
    destruct (p a); [|reflexivity].
    replace (Nat.ltb (String.length s) (S (String.length s))) with true
      by (symmetry; apply Nat.ltb_lt; lia).
    apply IH. simpl in Hn; lia.
Qed.

Lemma exec_Star_single p r s c k :
  single p (exec r) -> exec (Star r) s c k = char_star p k s c.
Proof. intros H. simpl. apply star_loop_single; [exact H|lia]. Qed.

Lemma exec_LazyStar_single p r s c k :
  single p (exec r) -> exec (LazyStar r) s c k = char_lazy p k s c.
Proof. intros H. simpl. apply lazy_loop_single; [exact H|lia]. Qed.

(** The greedy repetition ends on the longest run when the continuation
    accepts there. *)
Lemma char_star_longest p k s c m :
  k (drop_while p s) c = Some m -> char_star p k s c = Some m.
Proof.
  induction s as [|a s IH]; simpl; [auto|].
  destruct (p a); [|auto]. intros H. rewrite (IH H). reflexivity.
Qed.

(** It fails when the continuation rejects every run. *)
Lemma char_star_cons_None p k a s c :
  char_star p k s c = None -> k (String a s) c = None ->
  char_star p k (String a s) c = None.
Proof. intros H1 H2. simpl. rewrite H1, H2. destruct (p a); reflexivity. Qed.

(** A match found further right wins over the text before it. *)
Lemma char_star_skip p k pre s c m :
  all p pre = true -> char_star p k s c = Some m ->
  char_star p k (pre +:+ s) c = Some m.
Proof.
  induction pre as [|a pre IH]; simpl; [auto|].
  intros [-> Hp]%andb_true_iff H. rewrite (IH Hp H). reflexivity.
Qed.

(** The lazy repetition stops at the first place the continuation
    accepts. *)
Lemma char_lazy_first p k pre s c m :
  all p pre = true ->
  (forall t, t <> EmptyString -> (exists u, pre = u +:+ t) -> k (t +:+ s) c = None) ->
  k s c = Some m ->
  char_lazy p k (pre +:+ s) c = Some m.
Proof.
  induction pre as [|a pre IH]; intros Hp Hfail Hk.
  - simpl. destruct s; simpl; rewrite Hk; reflexivity.
  - simpl in Hp. apply andb_true_iff in Hp as [Ha Hp].
    change (char_lazy p k (String a pre +:+ s) c) with
      (match k (String a pre +:+ s) c with
       | Some m => Some m
       | None => if p a then char_lazy p k (pre +:+ s) c else None
       end).
    rewrite (Hfail (String a pre)) by (try discriminate; exists ""; reflexivity).
    rewrite Ha. apply IH; [exact Hp| |exact Hk].
    intros t Ht [u ->]. apply Hfail; [exact Ht|]. exists (String a u). reflexivity.
Qed.

Lemma strip_prefix_Some p s t : strip_prefix p s = Some t <-> s = p +:+ t.
Proof.
  revert s. induction p as [|b p IH]; intros s; simpl.
  - split; [intros [= ->]|intros ->]; reflexivity.
  - destruct s as [|a s]; [split; discriminate|].
    destruct (Ascii.eqb_spec a b) as [->|Hne].
    + rewrite IH. split; [intros ->; reflexivity|intros [= ->]; reflexivity].
    + split; [discriminate|intros [= -> _]; contradiction].
Qed.

Lemma strip_prefix_startswith p s :
  startswith s p = false -> strip_prefix p s = None.
Proof.
  revert s. induction p as [|b p IH]; intros s; simpl; [discriminate|].
  destruct s as [|a s]; [reflexivity|].
  destruct (Ascii.eqb a b); simpl; auto.
Qed.

Lemma all_app p s t : all p (s +:+ t) = all p s && all p t.
Proof.
  induction s as [|a s IH]; simpl; [reflexivity|].
  rewrite IH, andb_assoc. reflexivity.
Qed.

Lemma take_while_all p s : all p s = true -> take_while p s = s.
Proof.
  induction s as [|a s IH]; simpl; [reflexivity|].
  intros [-> H]%andb_true_iff. rewrite (IH H). reflexivity.
Qed.

Lemma length_drop_while p s : String.length (drop_while p s) <= String.length s.
Proof.
  induction s as [|a s IH]; simpl; [lia|]. destruct (p a); simpl; lia.
Qed.

Lemma slice_to_drop_while p s :
  slice_to (String.length s - String.length (drop_while p s)) s = take_while p s.
Proof.
  induction s as [|a s IH]; simpl; [reflexivity|].
  destruct (p a).
  - pose proof (length_drop_while p s).
    rewrite Nat.sub_succ_l by lia. simpl. rewrite IH. reflexivity.
  - simpl. rewrite Nat.sub_diag. reflexivity.
Qed.

Lemma slice_to_length s : slice_to (String.length s) s = s.
Proof. induction s as [|a s IH]; simpl; [|rewrite IH]; reflexivity. Qed.

(** What the sets of the patterns say about identifier characters. *)
Lemma ident_facts a :
  is_ident a = true ->
  Ascii.eqb a ":" = false /\ Ascii.eqb a " " = false /\
  Ascii.eqb a "=" = false /\ is_newline a = false.
Proof.
  destruct a as [[] [] [] [] [] [] [] []]; vm_compute; intros H;
    first [discriminate H | repeat split].
Qed.

End ReFacts.

(** ** The matcher: iterations of a repetition, groups of a match *)

Module MatcherFacts.
Import Py Re GemfileParser Aux.
Local Open Scope list_scope.

Lemma keeps_refl c : keeps c c.
Proof. intros n H. exact H. Qed.

Lemma keeps_trans c1 c2 c3 : keeps c1 c2 -> keeps c2 c3 -> keeps c1 c3.
Proof. intros H12 H23 n H. apply H23, H12, H. Qed.

Lemma keeps_cons n v c : keeps c ((n, v) :: c).
Proof.
  intros n' H. cbn [Re.group]. destruct (String.eqb n n'); [eauto|exact H].
Qed.

Lemma star_loop_through body k n s c m :
  through body -> star_loop body k n s c = Some m ->
  exists s' c', k s' c' = Some m /\ keeps c c'.
Proof.
  intros Hb. revert s c. induction n as [|n IH]; intros s c; simpl.
  - intros H. exists s, c. split; [exact H|apply keeps_refl].
  - destruct (body s c _) as [m'|] eqn:E.
    + intros [= ->]. apply Hb in E as (s1 & c1 & E & K1).
      destruct (Nat.ltb _ _); [|discriminate].
      apply IH in E as (s2 & c2 & E & K2).
      exists s2, c2. split; [exact E|eapply keeps_trans; eassumption].
    + intros H. exists s, c. split; [exact H|apply keeps_refl].
Qed.

Lemma lazy_loop_through body k n s c m :
  through body -> lazy_loop body k n s c = Some m ->
  exists s' c', k s' c' = Some m /\ keeps c c'.
Proof.
  intros Hb. revert s c. induction n as [|n IH]; intros s c; simpl.
  - intros H. exists s, c. split; [exact H|apply keeps_refl].
  - destruct (k s c) as [m'|] eqn:E.
    + intros [= ->]. exists s, c. split; [exact E|apply keeps_refl].
    + intros (s1 & c1 & E1 & K1)%Hb.
      destruct (Nat.ltb _ _); [|discriminate].
      apply IH in E1 as (s2 & c2 & E2 & K2).
      exists s2, c2. split; [exact E2|eapply keeps_trans; eassumption].
Qed.

Lemma exec_through r : through (exec r).
Proof.
  induction r as [|l| |items|r1 IH1 r2 IH2|r1 IH1 r2 IH2|r1 IH1|r1 IH1|n r1 IH1];
    intros s c k m; cbn [exec].
  - intros H. exists s, c. split; [exact H|apply keeps_refl].
  - destruct (strip_prefix l s) as [s'|]; [|discriminate].
    intros H. exists s', c. split; [exact H|apply keeps_refl].
  - destruct s as [|a s']; [discriminate|].
    destruct (is_newline a); [discriminate|].
    intros H. exists s', c. split; [exact H|apply keeps_refl].
  - destruct s as [|a s']; [discriminate|].
    destruct (in_class items a); [|discriminate].
    intros H. exists s', c. split; [exact H|apply keeps_refl].
  - intros (s1 & c1 & E1 & K1)%IH1. apply IH2 in E1 as (s2 & c2 & E2 & K2).
    exists s2, c2. split; [exact E2|eapply keeps_trans; eassumption].
  - destruct (exec r1 s c k) as [m'|] eqn:E.
    + intros [= ->]. exact (IH1 _ _ _ _ E).
    + apply IH2.
  - apply star_loop_through, IH1.
  - apply lazy_loop_through, IH1.
  - intros (s1 & c1 & E1 & K1)%IH1. eexists _, _. split; [exact E1|].
    eapply keeps_trans; [exact K1|apply keeps_cons].
Qed.

(** A piece of a pattern whose continuation always fails, fails. *)
Lemma exec_None r s c k :
  (forall s' c', k s' c' = None) -> exec r s c k = None.
Proof.
  intros Hk. destruct (exec r s c k) as [m|] eqn:E; [|reflexivity].
  apply exec_through in E as (s' & c' & E & _). rewrite Hk in E. discriminate.
Qed.

(** The matcher only looks at the values of its continuation. *)
Lemma star_loop_ext body k1 k2 n s c :
  (forall s c k k', (forall s' c', k s' c' = k' s' c') -> body s c k = body s c k') ->
  (forall s' c', k1 s' c' = k2 s' c') ->
  star_loop body k1 n s c = star_loop body k2 n s c.
Proof.
  intros Hb Hk. revert s c. induction n as [|n IH]; intros s c; simpl; [apply Hk|].
  rewrite Hk. erewrite Hb; [reflexivity|].
  intros s' c'. simpl. rewrite IH. reflexivity.
Qed.

Lemma lazy_loop_ext body k1 k2 n s c :
  (forall s c k k', (forall s' c', k s' c' = k' s' c') -> body s c k = body s c k') ->
  (forall s' c', k1 s' c' = k2 s' c') ->
  lazy_loop body k1 n s c = lazy_loop body k2 n s c.
Proof.
  intros Hb Hk. revert s c. induction n as [|n IH]; intros s c; simpl; [apply Hk|].
  rewrite Hk. erewrite Hb; [reflexivity|].
  intros s' c'. simpl. rewrite IH. reflexivity.
Qed.

Lemma exec_ext r s c k k' :
  (forall s' c', k s' c' = k' s' c') -> exec r s c k = exec r s c k'.
Proof.
  revert s c k k'.
  induction r as [|l| |items|r1 IH1 r2 IH2|r1 IH1 r2 IH2|r1 IH1|r1 IH1|n r1 IH1];
    intros s c k k' Hk; cbn [exec].
  - apply Hk.
  - destruct (strip_prefix l s); [apply Hk|reflexivity].
  - destruct s as [|a s']; [reflexivity|]. rewrite Hk. reflexivity.
  - destruct s as [|a s']; [reflexivity|]. rewrite Hk. reflexivity.
  - apply IH1. intros s' c'. apply IH2, Hk.
  - rewrite (IH1 _ _ _ _ Hk), (IH2 _ _ _ _ Hk). reflexivity.
  - apply star_loop_ext; [exact IH1|exact Hk].
  - apply lazy_loop_ext; [exact IH1|exact Hk].
  - apply IH1. intros s' c'. apply Hk.
Qed.

(** A repetition never runs out of iterations: more than the length of
    the text changes nothing. *)
Lemma star_loop_fuel r k n s c :
  String.length s <= n ->
  star_loop (exec r) k (S n) s c = star_loop (exec r) k n s c.
Proof.
  revert s c. induction n as [|n IH]; intros s c Hn.
  - destruct s; [|simpl in Hn; lia]. simpl.
    rewrite exec_None; [reflexivity|]. intros s' c'.
    destruct (Nat.ltb_spec (String.length s') 0); [lia|reflexivity].
  - change (star_loop (exec r) k (S (S n)) s c) with
      (match exec r s c (fun s' c' =>
               if Nat.ltb (String.length s') (String.length s)
               then star_loop (exec r) k (S n) s' c' else None) with
       | Some m => Some m
       | None => k s c
       end).
    erewrite exec_ext; [reflexivity|]. intros s' c'. simpl.
    destruct (Nat.ltb_spec (String.length s') (String.length s)); [|reflexivity].
    apply IH. lia.
Qed.

Lemma lazy_loop_fuel r k n s c :
  String.length s <= n ->
  lazy_loop (exec r) k (S n) s c = lazy_loop (exec r) k n s c.
Proof.
  revert s c. induction n as [|n IH]; intros s c Hn.
  - destruct s; [|simpl in Hn; lia]. simpl.
    destruct (k "" c); [reflexivity|].
    apply exec_None. intros s' c'.
    destruct (Nat.ltb_spec (String.length s') 0); [lia|reflexivity].
  - change (lazy_loop (exec r) k (S (S n)) s c) with
      (match k s c with
       | Some m => Some m
       | None =>
           exec r s c (fun s' c' =>
             if Nat.ltb (String.length s') (String.length s)
             then lazy_loop (exec r) k (S n) s' c' else None)
       end).
    simpl. destruct (k s c); [reflexivity|].
    apply exec_ext. intros s' c'.
    destruct (Nat.ltb_spec (String.length s') (String.length s)); [|reflexivity].
    apply IH. lia.
Qed.

(** A pattern on every path of which the group [n] is closed. *)
Lemma sets_sound n r s c k m :
  sets n r = true -> exec r s c k = Some m ->
  exists s' c', k s' c' = Some m /\ is_Some (Re.group n c').
Proof.
  revert s c k.
  induction r as [|l| |items|r1 IH1 r2 IH2|r1 IH1 r2 IH2|r1 IH1|r1 IH1|n' r1 IH1];
    intros s c k; cbn [sets]; try discriminate.
  - intros [H|H]%orb_true_iff; cbn [exec].
    + intros (s1 & c1 & E1 & S1)%(IH1 _ _ _ H).
      apply exec_through in E1 as (s2 & c2 & E2 & K2). eauto.
    + intros (s1 & c1 & E1 & _)%exec_through. eapply IH2; eassumption.
  - intros [H1 H2]%andb_true_iff. cbn [exec].
    destruct (exec r1 s c k) as [m'|] eqn:E.
    + intros [= ->]. eapply IH1; eassumption.
    + apply IH2, H2.
  - intros [H|H]%orb_true_iff; cbn [exec].
    + apply String.eqb_eq in H. subst n'.
      intros (s1 & c1 & E1 & _)%exec_through. eexists _, _. split; [exact E1|].
      cbn [Re.group]. rewrite String.eqb_refl. eauto.
    + intros (s1 & c1 & E1 & S1)%(IH1 _ _ _ H). eexists _, _. split; [exact E1|].
      apply keeps_cons, S1.
Qed.

Lemma match_sets n r line m :
  sets n r = true -> match_ r line = Some m -> is_Some (Re.group n m).
Proof.
  intros Hs (s' & c' & [= <-] & H)%(sets_sound _ _ _ _ _ _ Hs). exact H.
Qed.

(** The group read after each match of the parser is set by the match:
    the branches of the model for an unset group are never taken. *)
Lemma table_groups_set entry line m :
  entry ∈ gemfile_regexes ->
  match_ entry.2 line = Some m -> is_Some (Re.group entry.1 m).
Proof.
  intros Hin. apply match_sets. unfold gemfile_regexes in Hin.
  repeat (apply elem_of_cons in Hin as [->|Hin]; [reflexivity|]).
  apply elem_of_nil in Hin. contradiction.
Qed.

Lemma directive_groups_set line m :
  (match_ group_block_regex line = Some m -> is_Some (Re.group "groupblock" m)) /\
  (match_ add_dvtdep_regex line = Some m -> is_Some (Re.group "line" m)) /\
  (match_ add_rundep_regex line = Some m -> is_Some (Re.group "line" m)).
Proof. repeat split; apply match_sets; reflexivity. Qed.

End MatcherFacts.

Module PatternFacts.
Import Py Re GemfileParser Aux ReFacts.
Local Open Scope list_scope.
Local Open Scope re_scope.

Lemma exec_Cat r1 r2 s c k :
  exec (r1 ⋅ r2) s c k = exec r1 s c (fun s' c' => exec r2 s' c' k).
Proof. reflexivity. Qed.

Lemma exec_Lit l s c k :
  exec (Lit l) s c k =
  match strip_prefix l s with Some s' => k s' c | None => None end.
Proof. reflexivity. Qed.

(** After the keyword of an attribute the separator pattern needs a colon,
    a space or an equals sign: it fails on an identifier character and at
    the end of the line. *)
Lemma key_sep_ident t c k :
  all is_ident t = true -> exec key_sep t c k = None.
Proof.
  destruct t as [|a t]; [reflexivity|]. simpl all.
  intros [Ha _]%andb_true_iff.
  destruct (ident_facts a Ha) as (E1 & E2 & E3 & _).
  unfold key_sep, Grp, Opt, sp. cbn [exec strip_prefix in_class existsb in_item].
  rewrite E1, E2, E3. reflexivity.
Qed.

Lemma keyword_key_sep_ident kw rest t c k :
  all is_ident t = true -> exec (Lit kw ⋅ key_sep ⋅ rest) t c k = None.
Proof.
  intros Ht. rewrite exec_Cat, exec_Lit.
  destruct (strip_prefix kw t) as [t'|] eqn:E; [|reflexivity].
  apply strip_prefix_Some in E. subst t.
  rewrite all_app in Ht. apply andb_true_iff in Ht as [_ Ht].
  rewrite exec_Cat. apply key_sep_ident, Ht.
Qed.

Lemma char_star_ident_None p (k : cont) s c :
  all is_ident s = true ->
  (forall t, all is_ident t = true -> k t c = None) ->
  char_star p k s c = None.
Proof.
  intros Hs Hk. induction s as [|a s IH]; [apply Hk; reflexivity|].
  apply char_star_cons_None; [|apply Hk, Hs].
  apply IH. simpl in Hs. apply andb_true_iff in Hs as [_ Hs]. exact Hs.
Qed.

Lemma url_chars_ident a :
  is_ident a = true ->
  in_class url_items a = is_letter a.
Proof.
  destruct a as [[] [] [] [] [] [] [] []]; vm_compute; intros H;
    first [discriminate H | reflexivity].
Qed.

Lemma take_while_url_ident s :
  all is_ident s = true ->
  take_while (in_class url_items) s = take_while is_letter s.
Proof.
  induction s as [|a s IH]; cbn [take_while all]; [reflexivity|].
  intros [Ha Hs]%andb_true_iff. rewrite (url_chars_ident a Ha), (IH Hs).
  reflexivity.
Qed.

Lemma exec_Eps s c k : exec Eps s c k = k s c.
Proof. reflexivity. Qed.

Lemma exec_Alt r1 r2 s c k :
  exec (Alt r1 r2) s c k =
  match exec r1 s c k with Some m => Some m | None => exec r2 s c k end.
Proof. reflexivity. Qed.

Lemma exec_Named n r s c k :
  exec (Named n r) s c k =
  exec r s c (fun s' c' =>
    k s' ((n, slice_to (String.length s - String.length s') s) :: c')).
Proof. reflexivity. Qed.

(** The closing [.*] of a pattern accepts whatever is left. *)
Lemma exec_tail s c : exec (Star Dot) s c (fun _ c' => Some c') = Some c.
Proof.
  rewrite (exec_Star_single not_newline) by apply single_Dot.
  induction s as [|a s IH]; simpl; [reflexivity|].
  rewrite IH. destruct (not_newline a); reflexivity.
Qed.

Lemma key_sep_first a t c k :
  is_ident a = true -> exec key_sep (String a t) c k = None.
Proof.
  intros Ha. destruct (ident_facts a Ha) as (E1 & E2 & E3 & _).
  unfold key_sep, Grp, Opt, sp. cbn [exec strip_prefix in_class existsb in_item].
  rewrite E1, E2, E3. reflexivity.
Qed.

Lemma strip_prefix_app_ident p t s u :
  all is_ident p = true ->
  match s with String a _ => is_ident a = false | EmptyString => True end ->
  strip_prefix p (t +:+ s) = Some u ->
  exists t', t = p +:+ t' /\ u = t' +:+ s.
Proof.
  revert t. induction p as [|b p IH]; intros t Hp Hs.
  - simpl. intros [= <-]. exists t. split; reflexivity.
  - simpl in Hp. apply andb_true_iff in Hp as [Hb Hp].
    destruct t as [|a t]; simpl.
    + destruct s as [|a s]; simpl; [discriminate|].
      destruct (Ascii.eqb_spec a b) as [->|_]; [congruence|discriminate].
    + destruct (Ascii.eqb_spec a b) as [->|_]; [|discriminate].
      intros (t' & -> & ->)%IH; [|exact Hp|exact Hs].
      exists t'. split; reflexivity.
Qed.

Lemma length_app_r s t : String.length t <= String.length (s +:+ t).
Proof.
  induction s as [|a s IH]; [apply Nat.le_refl|].
  apply Nat.le_le_succ_r, IH.
Qed.

Lemma slice_to_app s t :
  slice_to (String.length (s +:+ t) - String.length t) (s +:+ t) = s.
Proof.
  induction s as [|a s IH].
  - change ("" +:+ t) with t. rewrite Nat.sub_diag. destruct t; reflexivity.
  - change (String a s +:+ t) with (String a (s +:+ t)). cbn [String.length].
    rewrite Nat.sub_succ_l by apply length_app_r. cbn [slice_to].
    rewrite IH. reflexivity.
Qed.

Lemma all_ident_not_newline s : all is_ident s = true -> all not_newline s = true.
Proof.
  induction s as [|a s IH]; cbn [all]; [reflexivity|].
  intros [Ha Hs]%andb_true_iff. destruct (ident_facts a Ha) as (_ & _ & _ & E).
  rewrite (IH Hs). unfold not_newline. rewrite E. reflexivity.
Qed.

(** The start of a group block written with a symbol: the pattern skips
    the colon and captures the identifier. *)
Lemma group_block_regex_symbol sym :
  sym <> EmptyString -> all is_ident sym = true ->
  match_group group_block_regex "groupblock" ("group :" +:+ sym +:+ " do")
  = Some sym.
Proof.
  intros Hne Hsym. unfold match_group, match_, group_block_regex.
  rewrite exec_Cat, (exec_Star_single not_newline) by apply single_Dot.
  set (K := fun s' c' => exec _ s' c' _).
  assert (Hident : forall t, all is_ident t = true -> K (t +:+ " do") [] = None).
  { intros t Ht. unfold K. rewrite exec_Cat, exec_Lit.
    destruct (strip_prefix "group" (t +:+ " do")) as [u|] eqn:E; [|reflexivity].
    apply strip_prefix_app_ident in E as (t' & -> & ->); [|reflexivity..].
    rewrite all_app in Ht. apply andb_true_iff in Ht as [_ Ht].
    destruct t' as [|a t']; [reflexivity|].
    simpl in Ht. apply andb_true_iff in Ht as [Ha _].
    destruct (ident_facts a Ha) as (_ & E2 & _).
    change (String a t' +:+ " do") with (String a (t' +:+ " do")).
    unfold Opt. rewrite exec_Cat, exec_Alt. unfold sp at 1.
    rewrite (single_Cls [Ch " "]).
    replace (in_class [Ch " "] a) with false
      by (cbn [in_class existsb in_item]; rewrite E2; reflexivity).
    cbv iota. rewrite exec_Eps, exec_Cat. apply (key_sep_first a), Ha. }
  assert (Hfail : char_star not_newline K ("roup :" +:+ sym +:+ " do") [] = None).
  { repeat (apply char_star_cons_None; [|reflexivity]).
    clear Hne. induction sym as [|a sym IH].
    - repeat (apply char_star_cons_None; [|reflexivity]). reflexivity.
    - apply char_star_cons_None; [|apply (Hident (String a sym)), Hsym].
      apply IH. simpl in Hsym. apply andb_true_iff in Hsym as [_ H]. exact H. }
  change ("group :" +:+ sym +:+ " do")
    with (String "g" ("roup :" +:+ sym +:+ " do")).
  cbn [char_star]. rewrite Hfail. change (not_newline "g") with true. cbv iota.
  destruct sym as [|a sym]; [contradiction|]. clear Hne Hident Hfail.
  pose proof Hsym as Hnl%all_ident_not_newline.
  simpl in Hsym. apply andb_true_iff in Hsym as [Ha Hsym].
  destruct (ident_facts a Ha) as (E1 & E2 & E3 & E4).
  unfold K. rewrite exec_Cat, exec_Lit.
  change (strip_prefix "group" (String "g" ("roup :" +:+ String a sym +:+ " do")))
    with (Some (" :" +:+ String a sym +:+ " do")).
  cbv beta iota. unfold Opt. rewrite exec_Cat, exec_Alt. unfold sp at 1.
  rewrite (single_Cls [Ch " "]).
  change (" :" +:+ String a sym +:+ " do")
    with (String " " (":" +:+ String a sym +:+ " do")).
  change (in_class [Ch " "] " ") with true. cbv beta iota.
  unfold key_sep, Grp. rewrite exec_Cat, exec_Alt, exec_Lit.
  change (strip_prefix ":" (":" +:+ String a sym +:+ " do"))
    with (Some (String a sym +:+ " do")).
  cbv beta iota. unfold sp at 2.
  rewrite exec_Cat, (exec_Star_single (in_class [Ch " "])) by apply single_Cls.
  change (String a sym +:+ " do") with (String a (sym +:+ " do")).
  cbn [char_star].
  replace (in_class [Ch " "] a) with false
    by (cbn [in_class existsb in_item]; rewrite E2; reflexivity).
  cbv iota.
  rewrite exec_Cat, exec_Named, (exec_LazyStar_single not_newline)
    by apply single_Dot.
  change (String a (sym +:+ " do")) with (String a sym +:+ " do").
  rewrite (char_lazy_first _ _ (String a sym) " do" _
             [("groupblock", String a sym)] Hnl).
  - reflexivity.
  - intros t Ht [u Hu]. rewrite exec_Lit.
    destruct t as [|b t]; [contradiction|].
    assert (Hb : is_ident b = true).
    { assert (H : all is_ident (u +:+ String b t) = true)
        by (rewrite <- Hu; simpl; rewrite Ha, Hsym; reflexivity).
      rewrite all_app in H. apply andb_true_iff in H as [_ H].
      simpl in H. apply andb_true_iff in H as [H _]. exact H. }
    destruct (ident_facts b Hb) as (_ & F2 & _).
    change (String b t +:+ " do") with (String b (t +:+ " do")).
    cbn [strip_prefix]. rewrite F2. reflexivity.
  - rewrite slice_to_app. reflexivity.
Qed.

(** After the symbol the line ends, or goes on with a comma and a text
    without the keyword [group]. *)
Lemma comma_tail_first tail :
  comma_tail tail = true ->
  match tail with String a _ => is_ident a = false | EmptyString => True end.
Proof.
  destruct tail as [|a t]; [auto|]. cbn [comma_tail].
  intros [->%Ascii.eqb_eq _]%andb_true_iff. reflexivity.
Qed.

Lemma take_while_url_tail sym tail :
  all is_ident sym = true -> comma_tail tail = true ->
  take_while (in_class url_items) (sym +:+ tail) = take_while is_letter sym.
Proof.
  intros Hsym Htail. induction sym as [|a sym IH].
  - change ("" +:+ tail) with tail. destruct tail as [|b tail]; [reflexivity|].
    cbn [comma_tail] in Htail.
    apply andb_true_iff in Htail as [->%Ascii.eqb_eq _]. reflexivity.
  - change (String a sym +:+ tail) with (String a (sym +:+ tail)).
    cbn [all] in Hsym. apply andb_true_iff in Hsym as [Ha Hsym].
    cbn [take_while]. rewrite (url_chars_ident a Ha), (IH Hsym). reflexivity.
Qed.

(** The value of an attribute written as a symbol: the colon and the
    leading letters of the symbol. *)
Lemma symbol_value name sym tail :
  all is_ident sym = true -> comma_tail tail = true ->
  exec (Named name (Plus url_chars) ⋅ Star Dot) (":" +:+ sym +:+ tail) []
    (fun _ c' => Some c')
  = Some [(name, ":" +:+ take_while is_letter sym)].
Proof.
  intros Hsym Htail. unfold Plus, url_chars.
  rewrite exec_Cat, exec_Named, exec_Cat, (single_Cls url_items).
  change (":" +:+ sym +:+ tail) with (String ":" (sym +:+ tail)).
  change (in_class url_items ":") with true. cbv iota.
  rewrite (exec_Star_single (in_class url_items)) by apply single_Cls.
  apply char_star_longest. rewrite exec_tail.
  pose proof (length_drop_while (in_class url_items) (sym +:+ tail)).
  cbn [String.length]. rewrite Nat.sub_succ_l by lia.
  cbn [slice_to].
  rewrite slice_to_drop_while, take_while_url_tail by assumption.
  reflexivity.
Qed.

Lemma char_star_no_keyword p kw R k s c :
  no_keyword kw s = true ->
  char_star p (fun s' c' => exec (Lit kw ⋅ R) s' c' k) s c = None.
Proof.
  induction s as [|a s IH]; cbn [no_keyword];
    intros [Hk Hs]%andb_true_iff; apply negb_true_iff in Hk.
  - cbn [char_star]. rewrite exec_Cat, exec_Lit, (strip_prefix_startswith _ _ Hk).
    reflexivity.
  - apply char_star_cons_None; [apply IH, Hs|].
    rewrite exec_Cat, exec_Lit, (strip_prefix_startswith _ _ Hk). reflexivity.
Qed.

Lemma append_cons a s t : String a s +:+ t = String a (s +:+ t).
Proof. reflexivity. Qed.

Lemma append_nil t : "" +:+ t = t.
Proof. reflexivity. Qed.

Lemma char_star_cons_first p (k : cont) a s c :
  p a = true -> char_star p k s c = None ->
  char_star p k (String a s) c = k (String a s) c.
Proof. intros Ha Hs. cbn [char_star]. rewrite Ha, Hs. reflexivity. Qed.

(** The separator of an attribute, a single space and the colon of a
    symbol: the pattern goes on at the colon. *)
Lemma key_sep_space sep R Y c k m :
  is_key_sep sep = true ->
  exec R (":" +:+ Y) c k = Some m ->
  exec (key_sep ⋅ Star sp ⋅ R) (sep +:+ " :" +:+ Y) c k = Some m.
Proof.
  intros Hsep HR.
  assert (Hsp : forall c', exec (Star sp ⋅ R) (" :" +:+ Y) c' k
                           = match exec R (":" +:+ Y) c' k with
                             | Some m => Some m
                             | None => exec R (" :" +:+ Y) c' k
                             end).
  { intros c'. unfold sp.
    rewrite exec_Cat, (exec_Star_single (in_class [Ch " "])) by apply single_Cls.
    reflexivity. }
  unfold is_key_sep in Hsep.
  destruct (String.eqb_spec sep ":") as [->|_];
    [|destruct (String.eqb_spec sep " =>") as [->|_];
      [|destruct (String.eqb_spec sep "=>") as [->|_]; [|discriminate]]];
    unfold key_sep, Grp, Opt; rewrite exec_Cat, exec_Alt, exec_Lit;
    rewrite !append_cons, append_nil; cbn [strip_prefix Ascii.eqb Bool.eqb];
    cbv beta iota.
  - change (String " " (String ":" Y)) with (" :" +:+ Y).
    rewrite Hsp, HR. reflexivity.
  - rewrite exec_Cat, exec_Alt. unfold sp at 1.
    rewrite (single_Cls [Ch " "]). change (in_class [Ch " "] " ") with true.
    cbv beta iota. rewrite exec_Lit. cbn [strip_prefix Ascii.eqb Bool.eqb].
    cbv beta iota. change (String " " (String ":" Y)) with (" :" +:+ Y).
    rewrite Hsp, HR. reflexivity.
  - rewrite exec_Cat, exec_Alt. unfold sp at 1.
    rewrite (single_Cls [Ch " "]). change (in_class [Ch " "] "=") with false.
    cbv beta iota. rewrite exec_Eps, exec_Lit.
    cbn [strip_prefix Ascii.eqb Bool.eqb]. cbv beta iota.
    change (String " " (String ":" Y)) with (" :" +:+ Y).
    rewrite Hsp, HR. reflexivity.
Qed.

(** The per-line group attribute written with a symbol: the pattern
    captures the colon of the symbol and its leading letters. *)
Lemma group_regex_symbol rest sep sym tail :
  all not_newline rest = true -> is_key_sep sep = true ->
  all is_ident sym = true -> comma_tail tail = true ->
  match_group group_regex "group"
    (rest +:+ "group" +:+ sep +:+ " :" +:+ sym +:+ tail)
  = Some (":" +:+ take_while is_letter sym).
Proof.
  intros Hrest Hsep Hsym Htail. unfold match_group, match_, group_regex.
  rewrite exec_Cat, (exec_Star_single not_newline) by apply single_Dot.
  set (K := fun s' c' => exec _ s' c' _).
  rewrite (char_star_skip _ _ rest _ _
             [("group", ":" +:+ take_while is_letter sym)] Hrest);
    [reflexivity|].
  assert (Hafter : char_star not_newline K tail [] = None).
  { destruct tail as [|b tail']; [reflexivity|].
    pose proof Htail as Ht. cbn [comma_tail] in Ht.
    apply andb_true_iff in Ht as [->%Ascii.eqb_eq Ht].
    apply char_star_cons_None; [|reflexivity].
    apply char_star_no_keyword, Ht. }
  assert (Hin : char_star not_newline K (sym +:+ tail) [] = None).
  { clear Hrest. induction sym as [|a sym IH]; [exact Hafter|].
    change (String a sym +:+ tail) with (String a (sym +:+ tail)).
    apply char_star_cons_None.
    { apply IH. cbn [all] in Hsym. apply andb_true_iff in Hsym as [_ H]. exact H. }
    change (String a (sym +:+ tail)) with (String a sym +:+ tail).
    unfold K. rewrite exec_Cat, exec_Lit.
    destruct (strip_prefix "group" (String a sym +:+ tail)) as [u|] eqn:E;
      [|reflexivity].
    apply strip_prefix_app_ident in E as (t' & Et & ->);
      [|reflexivity|apply comma_tail_first, Htail].
    rewrite Et, all_app in Hsym. apply andb_true_iff in Hsym as [_ Ht'].
    destruct t' as [|b t'].
    - change ("" +:+ tail) with tail. destruct tail as [|b tail']; [reflexivity|].
      cbn [comma_tail] in Htail.
      apply andb_true_iff in Htail as [->%Ascii.eqb_eq _]. reflexivity.
    - change (String b t' +:+ tail) with (String b (t' +:+ tail)).
      cbn [all] in Ht'. apply andb_true_iff in Ht' as [Hb _].
      rewrite exec_Cat. apply key_sep_first, Hb. }
  assert (Hhere : K ("group" +:+ sep +:+ " :" +:+ sym +:+ tail) []
                  = Some [("group", ":" +:+ take_while is_letter sym)]).
  { unfold K. rewrite exec_Cat, exec_Lit.
    replace (strip_prefix "group" ("group" +:+ sep +:+ " :" +:+ sym +:+ tail))
      with (Some (sep +:+ " :" +:+ sym +:+ tail))
      by (symmetry; apply strip_prefix_Some; reflexivity).
    apply key_sep_space; [exact Hsep|].
    apply symbol_value; assumption. }
  etransitivity; [|exact Hhere]. clear Hhere.
  unfold is_key_sep in Hsep.
  destruct (String.eqb_spec sep ":") as [->|_];
    [|destruct (String.eqb_spec sep " =>") as [->|_];
      [|destruct (String.eqb_spec sep "=>") as [->|_]; [|discriminate]]];
    rewrite !append_cons, !append_nil;
    (apply char_star_cons_first; [reflexivity|]);
    repeat (apply char_star_cons_None; [|reflexivity]);
    exact Hin.
Qed.

(** The [name] and [requirement] patterns start with the keyword [gem]. *)
Lemma name_regex_needs_gem line :
  startswith line "gem " = false -> match_group name_regex "name" line = None.
Proof.
  intros H. unfold match_group, match_, name_regex.
  rewrite exec_Cat, exec_Lit, (strip_prefix_startswith _ _ H). reflexivity.
Qed.

Lemma requirement_regex_needs_gem line :
  startswith line "gem " = false ->
  match_group requirement_regex "requirement" line = None.
Proof.
  intros H. unfold match_group, match_, requirement_regex.
  rewrite exec_Cat, exec_Lit.
  destruct (strip_prefix "gem" line) as [t|] eqn:E; [|reflexivity].
  apply strip_prefix_Some in E. subst line.
  rewrite exec_Cat. unfold sp. rewrite (single_Cls [Ch " "]).
  destruct t as [|a t]; [reflexivity|].
  destruct (in_class [Ch " "] a) eqn:Ea; [|reflexivity].
  cbn [in_class existsb in_item] in Ea. rewrite orb_false_r in Ea.
  apply Ascii.eqb_eq in Ea. subst a. discriminate H.
Qed.

End PatternFacts.

(** ** Group blocks *)

Module GroupFacts.
Import Py Re GemfileParser Aux BuilderFacts StateFacts ReFacts PatternFacts.
Local Open Scope list_scope.


Lemma match_group_None r n line :
  match_ r line = None -> match_group r n line = None.
Proof. unfold match_group. intros ->. reflexivity. Qed.

(** Without a per-line group attribute the record takes the group state. *)
Lemma build_dependency_group app g line :
  has_group_attribute line = false -> group (build_dependency app g line) = g.
Proof.
  unfold has_group_attribute. intros H. rewrite build_dependency_eq.
  cbn [group]. rewrite match_group_None; [reflexivity|].
  destruct (match_ group_regex line); [discriminate|reflexivity].
Qed.

(** A line that starts a group block sets the group state to the name the
    block pattern captures. *)
Lemma gemfile_line_group fs self raw st g :
  startswith (preprocess raw) "group" = true ->
  match_group group_block_regex "groupblock" (preprocess raw) = Some g ->
  gemfile_line fs self raw st = Ok (set_global_group g st).
Proof.
  intros [t E]%startswith_app Hm. unfold gemfile_line.
  unfold match_group in Hm.
  destruct (match_ group_block_regex (preprocess raw)) as [m|]; [|discriminate].
  rewrite Hm, E. reflexivity.
Qed.

Lemma after_group_block fs self pre start mid st0 st1 g :
  startswith (preprocess start) "group" = true ->
  match_group group_block_regex "groupblock" (preprocess start) = Some g ->
  forallb keeps_group mid = true ->
  gemfile_lines fs self (pre ++ start :: mid) st0 = Ok st1 ->
  global_group st1 = g.
Proof.
  intros Hs Hm Hmid (sa & _ & H)%gemfile_lines_app_Ok.
  apply gemfile_lines_cons_Ok in H as (sb & Hline & H).
  rewrite (gemfile_line_group _ _ _ _ _ Hs Hm) in Hline. injection Hline as <-.
  rewrite (gemfile_lines_keep_group _ _ _ _ _ Hmid H). reflexivity.
Qed.

Lemma after_end fs self pre endl mid st0 st1 :
  startswith (preprocess endl) "end" = true ->
  forallb keeps_group mid = true ->
  gemfile_lines fs self (pre ++ endl :: mid) st0 = Ok st1 ->
  global_group st1 = "runtime".
Proof.
  intros He Hmid (sa & _ & H)%gemfile_lines_app_Ok.
  apply gemfile_lines_cons_Ok in H as (sb & Hline & H).
  rewrite (gemfile_line_end _ _ _ _ He) in Hline. injection Hline as <-.
  rewrite (gemfile_lines_keep_group _ _ _ _ _ Hmid H). reflexivity.
Qed.

(** A dependency line without a group attribute of its own is filed under
    the group state it meets. *)
Lemma gemfile_lines_files_under fs self pre raw post st0 st1 st' :
  startswith (preprocess raw) "gem " = true ->
  has_group_attribute (preprocess raw) = false ->
  gemfile_lines fs self pre st0 = Ok st1 ->
  gemfile_lines fs self (pre ++ raw :: post) st0 = Ok st' ->
  let dep := build_dependency (appname self) (global_group st1) (preprocess raw) in
  group dep = global_group st1 /\
  exists later,
    dependencies st' !!! global_group st1 =
    (dependencies st1 !!! global_group st1) ++ dep :: later.
Proof.
  intros Hgem Hattr Hpre Hall dep.
  pose proof (build_dependency_group (appname self) (global_group st1) _ Hattr) as Hg.
  fold dep in Hg. split; [exact Hg|].
  rewrite <- Hg. exact (gemfile_lines_files _ _ _ _ _ _ _ _ Hgem Hpre Hall).
Qed.

(** A text that does not start with the keyword [gem] and a space, such as
    what follows a directive of a gemspec, gives a record with no name and
    no requirement. *)
Lemma build_dependency_without_gem app g line :
  startswith line "gem " = false ->
  name (build_dependency app g line) = None /\
  requirement (build_dependency app g line) = [].
Proof.
  intros H. rewrite build_dependency_eq. cbn [name requirement].
  rewrite name_regex_needs_gem, requirement_regex_needs_gem by exact H.
  split; reflexivity.
Qed.

(** *** The gemspec directive *)

Lemma join_nonempty a b : b <> EmptyString -> join a b <> EmptyString.
Proof.
  intros Hb. unfold join. destruct (startswith b "/"); [exact Hb|].
  destruct (String.eqb a "" || endswith a "/");
    destruct a; try discriminate; destruct b; try discriminate; contradiction.
Qed.

(** With exactly one match of the glob, the directive runs the whole
    gemspec loop over the lines of the path it opens, on the current
    state. *)
Lemma gemfile_line_gemspec fs self raw st p glines :
  startswith (preprocess raw) "gemspec" = true ->
  glob fs (join (dirname (filepath self)) "*.gemspec") = [p] ->
  p <> EmptyString ->
  readlines fs (join (dirname (filepath self)) p) = Some glines ->
  gemfile_line fs self raw st =
  Ok (fold_left (fun st raw => gemspec_line self raw st) glines st).
Proof.
  intros [t E]%startswith_app Hglob Hp Hread. unfold gemfile_line.
  rewrite E.
  change (String.eqb ("gemspec" +:+ t) "" || startswith ("gemspec" +:+ t) "source")
    with false.
  change (startswith ("gemspec" +:+ t) "group") with false.
  change (startswith ("gemspec" +:+ t) "end") with false.
  change (startswith ("gemspec" +:+ t) "gemspec") with true.
  cbv beta iota zeta. rewrite Hglob. unfold parse_gemspec, open_readlines.
  destruct (String.eqb_spec (join (dirname (filepath self)) p) "") as [E0|_];
    [apply join_nonempty in E0; [contradiction|exact Hp]|].
  rewrite Hread. reflexivity.
Qed.

Lemma gemspec_line_no_directive self raw st :
  no_directive raw = true -> gemspec_line self raw st = st.
Proof.
  unfold no_directive, gemspec_line.
  destruct (match_ add_dvtdep_regex _); [discriminate|].
  destruct (match_ add_rundep_regex _); [discriminate|reflexivity].
Qed.

Lemma gemspec_line_development self raw st :
  match_ add_dvtdep_regex (preprocess raw) <> None ->
  global_group (gemspec_line self raw st) = "development".
Proof.
  unfold gemspec_line. destruct (match_ add_dvtdep_regex _) as [m|]; [|contradiction].
  intros _. destruct (Re.group "line" m); [|reflexivity].
  apply parse_line_global_group.
Qed.

(** The group state a gemspec leaves behind when the last directive it
    holds is [add_development_dependency]. *)
Lemma gemspec_lines_leave_development self gpre dline gpost st :
  match_ add_dvtdep_regex (preprocess dline) <> None ->
  forallb no_directive gpost = true ->
  global_group
    (fold_left (fun st raw => gemspec_line self raw st) (gpre ++ dline :: gpost) st)
  = "development".
Proof.
  intros Hd Hpost. rewrite fold_left_app. cbn [fold_left].
  set (s1 := gemspec_line self dline _).
  assert (H1 : global_group s1 = "development") by apply gemspec_line_development, Hd.
  clearbody s1. revert s1 H1.
  induction gpost as [|raw gpost IH]; intros s1 H1; [exact H1|].
  cbn [forallb] in Hpost. apply andb_true_iff in Hpost as [Hr Hpost].
  cbn [fold_left]. rewrite (gemspec_line_no_directive _ _ _ Hr). auto.
Qed.

End GroupFacts.

(** ** A match is a parse of a prefix of the line *)

Module SemFacts.
Import Py Re GemfileParser Aux Cover ReFacts PatternFacts.
Local Open Scope list_scope.

Lemma append_assoc (u v w : string) : (u +:+ v) +:+ w = u +:+ v +:+ w.
Proof.
  induction u as [|a u IH]; [reflexivity|].
  rewrite !append_cons, IH. reflexivity.
Qed.

Lemma append_nil_r (u : string) : u +:+ "" = u.
Proof.
  induction u as [|a u IH]; [reflexivity|]. rewrite append_cons, IH. reflexivity.
Qed.

Lemma star_loop_sem S body k n s c m :
  sound S body -> star_loop body k n s c = Some m ->
  exists u s' c', s = u +:+ s' /\ star_sem S u c c' /\ k s' c' = Some m.
Proof.
  intros Hb. revert s c. induction n as [|n IH]; intros s c; simpl.
  - intros H. exists "", s, c. repeat split; [constructor|exact H].
  - destruct (body s c _) as [m'|] eqn:E.
    + intros [= ->]. apply Hb in E as (u & s1 & c1 & -> & Hu & E).
      destruct (Nat.ltb _ _); [|discriminate].
      apply IH in E as (v & s2 & c2 & -> & Hv & E).
      exists (u +:+ v), s2, c2. rewrite append_assoc.
      repeat split; [econstructor; eassumption|exact E].
    + intros H. exists "", s, c. repeat split; [constructor|exact H].
Qed.

Lemma lazy_loop_sem S body k n s c m :
  sound S body -> lazy_loop body k n s c = Some m ->
  exists u s' c', s = u +:+ s' /\ star_sem S u c c' /\ k s' c' = Some m.
Proof.
  intros Hb. revert s c. induction n as [|n IH]; intros s c; simpl.
  - intros H. exists "", s, c. repeat split; [constructor|exact H].
  - destruct (k s c) as [m'|] eqn:E.
    + intros [= ->]. exists "", s, c. repeat split; [constructor|exact E].
    + intros (u & s1 & c1 & -> & Hu & E1)%Hb.
      destruct (Nat.ltb _ _); [|discriminate].
      apply IH in E1 as (v & s2 & c2 & -> & Hv & E2).
      exists (u +:+ v), s2, c2. rewrite append_assoc.
      repeat split; [econstructor; eassumption|exact E2].
Qed.

Lemma exec_sound r : sound (sem r) (exec r).
Proof.
  induction r as [|l| |items|r1 IH1 r2 IH2|r1 IH1 r2 IH2|r1 IH1|r1 IH1|n r1 IH1];
    intros s c k m; cbn [exec sem].
  - intros H. exists "", s, c. auto.
  - destruct (strip_prefix l s) as [s'|] eqn:E; [|discriminate].
    apply strip_prefix_Some in E. intros H. exists l, s', c. auto.
  - destruct s as [|a s']; [discriminate|].
    destruct (is_newline a) eqn:E; [discriminate|].
    intros H. exists (String a ""), s', c. repeat split; eauto.
  - destruct s as [|a s']; [discriminate|].
    destruct (in_class items a) eqn:E; [|discriminate].
    intros H. exists (String a ""), s', c. repeat split; eauto.
  - intros (u1 & s1 & c1 & -> & H1 & E)%IH1.
    apply IH2 in E as (u2 & s2 & c2 & -> & H2 & E).
    exists (u1 +:+ u2), s2, c2. rewrite append_assoc.
    repeat split; [|exact E]. exists u1, u2, c1. auto.
  - destruct (exec r1 s c k) as [m'|] eqn:E.
    + intros [= ->]. apply IH1 in E as (u & s' & c' & -> & H & E). eauto 10.
    + intros (u & s' & c' & -> & H & E')%IH2. eauto 10.
  - apply star_loop_sem, IH1.
  - apply lazy_loop_sem, IH1.
  - intros (u & s' & c1 & -> & H & E)%IH1. rewrite slice_to_app in E.
    exists u, s', ((n, u) :: c1). repeat split; [|exact E]. eauto.
Qed.

(** A match of a pattern reads a prefix of the line the pattern accepts,
    and returns the groups of that reading. *)
Lemma match_sound r line m :
  match_ r line = Some m -> exists u rest, line = u +:+ rest /\ sem r u [] m.
Proof.
  intros (u & s' & c' & -> & H & [= <-])%exec_sound. eauto.
Qed.

Lemma star_sem_plain S u c c' :
  (forall u c c', S u c c' -> c' = c) -> star_sem S u c c' -> c' = c.
Proof.
  intros HS. induction 1 as [|u v c c1 c2 H1 _ IH]; [reflexivity|].
  rewrite IH. eapply HS, H1.
Qed.

Lemma sem_plain r u c c' : plain r = true -> sem r u c c' -> c' = c.
Proof.
  revert u c c'.
  induction r as [|l| |items|r1 IH1 r2 IH2|r1 IH1 r2 IH2|r1 IH1|r1 IH1|n r1 IH1];
    intros u c c'; cbn [plain sem]; try discriminate.
  - intros _ [_ H]. exact H.
  - intros _ [_ H]. exact H.
  - intros _ [_ H]. exact H.
  - intros _ [_ H]. exact H.
  - intros [P1 P2]%andb_true_iff (u1 & u2 & c1 & _ & H1 & H2).
    rewrite (IH2 _ _ _ P2 H2). eapply IH1; eassumption.
  - intros [P1 P2]%andb_true_iff [H|H]; eauto.
  - intros P. apply star_sem_plain. intros; eapply IH1; eassumption.
  - intros P. apply star_sem_plain. intros; eapply IH1; eassumption.
Qed.

(** A repetition of a one-character pattern accepts texts of such
    characters. *)
Lemma star_sem_Cls items u c c' :
  star_sem (sem (Cls items)) u c c' -> all (in_class items) u = true.
Proof.
  induction 1 as [|u v c c1 c2 H1 _ IH]; [reflexivity|].
  destruct H1 as [(a & -> & Ha) _]. rewrite append_cons, append_nil.
  cbn [all]. rewrite Ha, IH. reflexivity.
Qed.

Lemma star_sem_Dot u c c' :
  star_sem (sem Dot) u c c' -> all not_newline u = true.
Proof.
  induction 1 as [|u v c c1 c2 H1 _ IH]; [reflexivity|].
  destruct H1 as [(a & -> & Ha) _]. rewrite append_cons, append_nil.
  cbn [all]. unfold not_newline at 1. rewrite Ha, IH. reflexivity.
Qed.

End SemFacts.

(** ** The line preprocessor, completely *)

Module StripFacts.
Import Py Re GemfileParser Aux Cover PreprocessFacts ReFacts PatternFacts SemFacts.
Local Open Scope list_scope.

Lemma lstrip_split s :
  exists l, s = l +:+ lstrip s /\ all isspace l = true.
Proof.
  induction s as [|a s (l & E & Hl)]; [exists ""; auto|].
  simpl lstrip. destruct (isspace a) eqn:Ha.
  - exists (String a l). rewrite append_cons, <- E. cbn [all]. rewrite Ha, Hl. auto.
  - exists "". auto.
Qed.

Lemma rstrip_split s :
  exists w, s = rstrip s +:+ w /\ all isspace w = true.
Proof.
  induction s as [|a s (w & E & Hw)]; [exists ""; auto|].
  simpl rstrip. destruct (rstrip s) as [|b r] eqn:R.
  - destruct (isspace a) eqn:Ha.
    + rewrite append_nil in E. subst s. exists (String a w).
      rewrite append_nil. cbn [all]. rewrite Ha, Hw. auto.
    + rewrite append_nil in E. subst s. exists w.
      rewrite append_cons, append_nil. auto.
  - exists w. rewrite append_cons, <- E. auto.
Qed.

Lemma find_split c s i :
  find c s = Some i -> exists t, s = slice_to i s +:+ String c t.
Proof.
  revert i. induction s as [|a s IH]; intros i; simpl; [discriminate|].
  destruct (Ascii.eqb_spec a c) as [->|_].
  - intros [= <-]. exists s. reflexivity.
  - destruct (find c s) as [j|]; simpl; [|discriminate].
    intros [= <-]. destruct (IH j eq_refl) as [t E]. exists t.
    cbn [slice_to]. rewrite append_cons, <- E. reflexivity.
Qed.

Lemma lstrip_head s a t : lstrip s = String a t -> isspace a = false.
Proof.
  induction s as [|b s IH]; simpl; [discriminate|].
  destruct (isspace b) eqn:Hb; [exact IH|]. intros [= <- _]. exact Hb.
Qed.

Lemma rstrip_last s t a : rstrip s = t +:+ String a "" -> isspace a = false.
Proof.
  revert t. induction s as [|b s IH]; intros t; simpl.
  - destruct t; discriminate.
  - destruct (rstrip s) as [|c r] eqn:R.
    + destruct (isspace b) eqn:Hb; [destruct t; discriminate|].
      destruct t as [|d t]; [intros [= <-]; exact Hb|].
      rewrite append_cons. intros [= _ H]. destruct t; discriminate.
    + destruct t as [|d t]; [rewrite append_nil; discriminate|].
      rewrite append_cons. intros [= _ H]. eapply IH, H.
Qed.

Lemma rstrip_head a t :
  isspace a = false -> exists t', rstrip (String a t) = String a t'.
Proof.
  intros Ha. simpl. destruct (rstrip t); rewrite ?Ha; eauto.
Qed.

Lemma lstrip_spaces l s : all isspace l = true -> lstrip (l +:+ s) = lstrip s.
Proof.
  induction l as [|a l IH]; [reflexivity|]. cbn [all].
  intros [Ha Hl]%andb_true_iff. rewrite append_cons. simpl. rewrite Ha. auto.
Qed.

Lemma rstrip_spaces_nil w : all isspace w = true -> rstrip w = "".
Proof.
  induction w as [|a w IH]; [reflexivity|]. cbn [all].
  intros [Ha Hw]%andb_true_iff. simpl. rewrite (IH Hw), Ha. reflexivity.
Qed.

Lemma rstrip_spaces s w : all isspace w = true -> rstrip (s +:+ w) = rstrip s.
Proof.
  intros Hw. induction s as [|a s IH].
  - rewrite append_nil. apply rstrip_spaces_nil, Hw.
  - rewrite append_cons. simpl. rewrite IH. reflexivity.
Qed.

Lemma strip_fixed p : strip p = p -> lstrip p = p /\ rstrip p = p.
Proof.
  unfold strip. intros E. split.
  - rewrite <- E at 1. rewrite lstrip_rstrip, lstrip_idem. exact E.
  - rewrite <- E at 1. rewrite rstrip_idem. exact E.
Qed.

Lemma strip_between l p w :
  all isspace l = true -> all isspace w = true -> strip p = p ->
  strip (l +:+ p +:+ w) = p.
Proof.
  intros Hl Hw [HL HR]%strip_fixed. unfold strip.
  rewrite lstrip_spaces by exact Hl.
  destruct p as [|a p].
  - rewrite append_nil.
    destruct (lstrip_split w) as (l' & E & _).
    rewrite <- lstrip_rstrip, rstrip_spaces_nil by exact Hw. reflexivity.
  - pose proof (lstrip_head _ _ _ HL) as Ha.
    rewrite append_cons. simpl lstrip. rewrite Ha.
    rewrite <- append_cons, rstrip_spaces by exact Hw. exact HR.
Qed.

Lemma find_app_None c s t :
  find c s = None -> find c (s +:+ t) = option_map (Nat.add (String.length s)) (find c t).
Proof.
  induction s as [|a s IH];
    [intros _; rewrite append_nil; destruct (find c t); reflexivity|].
  intros [Ha Hs]%find_cons_None. rewrite append_cons. cbn [find].
  rewrite Ha, (IH Hs). destruct (find c t); reflexivity.
Qed.

Lemma find_spaces c l :
  isspace c = false -> all isspace l = true -> find c l = None.
Proof.
  intros Hc. induction l as [|a l IH]; [reflexivity|]. cbn [all].
  intros [Ha Hl]%andb_true_iff. apply find_cons_None. split; [|auto].
  destruct (Ascii.eqb_spec a c) as [->|_]; [congruence|reflexivity].
Qed.

Lemma slice_to_app_length s t : slice_to (String.length s + 0) (s +:+ t) = s.
Proof.
  rewrite Nat.add_0_r.
  induction s as [|a s IH]; [destruct t; reflexivity|].
  rewrite append_cons. simpl. rewrite IH. reflexivity.
Qed.

Lemma find_app_Some c s t i :
  find c s = Some i ->
  find c (s +:+ t) = Some i /\ slice_to i (s +:+ t) = slice_to i s.
Proof.
  revert i. induction s as [|a s IH]; intros i; cbn [find]; [discriminate|].
  rewrite append_cons. cbn [find].
  destruct (Ascii.eqb a c); [intros [= <-]; auto|].
  destruct (find c s) as [j|]; [|discriminate]. intros [= <-].
  destruct (IH j eq_refl) as [-> E]. cbn [option_map slice_to]. rewrite E. auto.
Qed.

End StripFacts.

(** ** Counting records, and what every record satisfies *)

Module CountFacts.
Import Py Re GemfileParser Aux Cover BuilderFacts StateFacts ReFacts PatternFacts
  MatcherFacts GroupFacts SemFacts.
Local Open Scope list_scope.

Lemma total_insert_fresh k l (m : gmap string (list Dependency)) :
  m !! k = None -> total (<[k:=l]> m) = length l + total m.
Proof.
  intros H. unfold total.
  apply (map_fold_insert_L (fun _ (l : list Dependency) n => length l + n));
    [intros; lia|exact H].
Qed.

Lemma total_insert k l (m : gmap string (list Dependency)) :
  total (<[k:=l]> m) + length (m !!! k) = length l + total m.
Proof.
  rewrite lookup_total_alt. destruct (m !! k) as [l0|] eqn:E; simpl.
  - pose proof (total_insert_fresh k l (delete k m) (lookup_delete_eq m k)) as H1.
    pose proof (total_insert_fresh k l0 (delete k m) (lookup_delete_eq m k)) as H2.
    rewrite insert_delete_eq in H1. rewrite (insert_delete_id m k l0 E) in H2. lia.
  - rewrite total_insert_fresh by exact E. lia.
Qed.

(** [parse_line] adds exactly one record. *)
Lemma total_parse_line self line st :
  total (dependencies (parse_line self line st)) = S (total (dependencies st)).
Proof.
  rewrite parse_line_dependencies. cbv zeta.
  set (dep := build_dependency _ _ _).
  pose proof (total_insert (group dep) ((dependencies st !!! group dep) ++ [dep])
                (dependencies st)) as H.
  rewrite length_app in H. simpl in H. lia.
Qed.

Lemma init_dependencies_empty k : init_dependencies !!! k = [].
Proof.
  unfold init_dependencies.
  repeat (rewrite lookup_total_insert; case_decide; [reflexivity|]).
  rewrite lookup_total_empty. reflexivity.
Qed.

Lemma total_init : total init_dependencies = 0.
Proof. reflexivity. Qed.

(** The first checks of the Gemfile loop exclude one another. *)
Lemma gem_line_not_other line :
  startswith line "gem " = true ->
  String.eqb line "" || startswith line "source" = false /\
  startswith line "group" = false /\ startswith line "end" = false /\
  startswith line "gemspec" = false.
Proof. intros [t ->]%startswith_app. repeat split. Qed.

Lemma gemspec_call_not_other line :
  startswith line "gemspec" = true ->
  String.eqb line "" || startswith line "source" = false /\
  startswith line "group" = false /\ startswith line "end" = false /\
  startswith line "gem " = false.
Proof. intros [t ->]%startswith_app. repeat split. Qed.

(** One turn of the Gemfile loop on a line that is no gemspec call, or on
    a gemspec call that does not find exactly one gemspec: it returns, it
    files a record exactly when the line is a dependency line, and it
    prints exactly when the line is a gemspec call. *)
Lemma gemfile_line_quiet fs self raw st :
  is_gemspec_call raw = false \/
  length (glob fs (join (dirname (filepath self)) "*.gemspec")) <> 1 ->
  exists st',
    gemfile_line fs self raw st = Ok st' /\
    total (dependencies st') =
      total (dependencies st) + (if is_dependency_line raw then 1 else 0) /\
    stdout st' =
      stdout st ++
      (if is_gemspec_call raw
       then [diagnostic (glob fs (join (dirname (filepath self)) "*.gemspec"))]
       else []).
Proof.
  intros Hq. unfold is_dependency_line, is_gemspec_call in *.
  unfold gemfile_line. set (line := preprocess raw) in *.
  destruct (startswith line "gem ") eqn:Hgem.
  { destruct (gem_line_not_other line Hgem) as (-> & -> & -> & ->).
    eexists. split; [reflexivity|].
    rewrite total_parse_line, parse_line_stdout, app_nil_r. split; [lia|reflexivity]. }
  destruct (startswith line "gemspec") eqn:Hcall.
  { destruct (gemspec_call_not_other line Hcall) as (-> & -> & -> & _).
    destruct Hq as [Hq|Hq]; [discriminate|]. cbv zeta.
    destruct (glob fs _) as [|p [|q l]]; [|contradiction|];
      (eexists; split; [reflexivity|]); split; cbn; first [lia|reflexivity]. }
  destruct (_ || _);
    [eexists; split; [reflexivity|]; rewrite app_nil_r; split; [lia|reflexivity]|].
  destruct (startswith line "group").
  { destruct (match_ group_block_regex line) as [m|];
      [destruct (Re.group "groupblock" m)|];
      (eexists; split; [reflexivity|]); rewrite app_nil_r;
      split; cbn; first [lia|reflexivity]. }
  destruct (startswith line "end");
    (eexists; split; [reflexivity|]); rewrite app_nil_r;
    split; cbn; first [lia|reflexivity].
Qed.

Lemma gemspec_line_total self raw st :
  total (dependencies (gemspec_line self raw st)) =
  total (dependencies st) + (if is_directive raw then 1 else 0).
Proof.
  unfold is_directive, no_directive, gemspec_line.
  destruct (match_ add_dvtdep_regex (preprocess raw)) as [m|] eqn:E1.
  - destruct (directive_groups_set (preprocess raw) m) as (_ & H & _).
    destruct (H E1) as [v ->]. rewrite total_parse_line. cbn. lia.
  - destruct (match_ add_rundep_regex (preprocess raw)) as [m|] eqn:E2.
    + destruct (directive_groups_set (preprocess raw) m) as (_ & _ & H).
      destruct (H E2) as [v ->]. rewrite total_parse_line. cbn. lia.
    + cbn. lia.
Qed.

Lemma gemspec_line_stdout self raw st :
  stdout (gemspec_line self raw st) = stdout st.
Proof.
  unfold gemspec_line.
  repeat match goal with
  | |- context [match ?o with Some _ => _ | None => _ end] => destruct o
  end; rewrite ?parse_line_stdout; reflexivity.
Qed.

(** *** What holds of every record *)

Lemma every_init P : every P init_dependencies.
Proof. intros k d. rewrite init_dependencies_empty. intros []%elem_of_nil. Qed.

Lemma parse_line_every P self line st :
  (forall g l, let d := build_dependency (appname self) g l in P (group d) d) ->
  every P (dependencies st) ->
  every P (dependencies (parse_line self line st)).
Proof.
  intros Hb Hst k d. rewrite parse_line_dependencies. cbv zeta.
  set (dep := build_dependency _ _ _).
  destruct (decide (group dep = k)) as [<-|Hne].
  - rewrite lookup_total_insert_eq. intros [H|H]%elem_of_app; [apply Hst, H|].
    apply list_elem_of_singleton in H. subst d. apply Hb.
  - rewrite lookup_total_insert_ne by exact Hne. apply Hst.
Qed.

Lemma gemspec_line_every P self raw st :
  (forall g l, let d := build_dependency (appname self) g l in P (group d) d) ->
  every P (dependencies st) ->
  every P (dependencies (gemspec_line self raw st)).
Proof.
  intros Hb Hst. unfold gemspec_line.
  repeat match goal with
  | |- context [match ?o with Some _ => _ | None => _ end] => destruct o
  end; try exact Hst;
  apply (parse_line_every P self _ (set_global_group _ st) Hb Hst).
Qed.

Lemma gemspec_lines_every P self ls st :
  (forall g l, let d := build_dependency (appname self) g l in P (group d) d) ->
  every P (dependencies st) ->
  every P (dependencies (fold_left (fun st raw => gemspec_line self raw st) ls st)).
Proof.
  intros Hb. revert st. induction ls as [|raw ls IH]; intros st Hst; [exact Hst|].
  apply IH, gemspec_line_every; assumption.
Qed.

Lemma parse_gemspec_every P fs self path st st' :
  (forall g l, let d := build_dependency (appname self) g l in P (group d) d) ->
  every P (dependencies st) ->
  parse_gemspec fs self path st = Ok st' -> every P (dependencies st').
Proof.
  intros Hb Hst. unfold parse_gemspec.
  destruct (if String.eqb path "" then _ else _) as [ls|p]; simpl; [|discriminate].
  intros [= <-]. apply gemspec_lines_every; assumption.
Qed.

Lemma gemfile_line_every P fs self raw st st' :
  (forall g l, let d := build_dependency (appname self) g l in P (group d) d) ->
  every P (dependencies st) ->
  gemfile_line fs self raw st = Ok st' -> every P (dependencies st').
Proof.
  intros Hb Hst. unfold gemfile_line.
  repeat match goal with
  | |- context [if ?b then _ else _] => destruct b
  | |- context [match ?o with Some _ => _ | None => _ end] => destruct o
  | |- context [match ?l with [] => _ | _ :: _ => _ end] => destruct l
  end;
  try (intros [= <-]; first [exact Hst | apply parse_line_every; assumption]).
  apply parse_gemspec_every; assumption.
Qed.

Lemma gemfile_lines_every P fs self ls st st' :
  (forall g l, let d := build_dependency (appname self) g l in P (group d) d) ->
  every P (dependencies st) ->
  gemfile_lines fs self ls st = Ok st' -> every P (dependencies st').
Proof.
  intros Hb. revert st. induction ls as [|raw ls IH]; intros st Hst; simpl.
  - intros [= <-]. exact Hst.
  - destruct (gemfile_line fs self raw st) as [st1|p] eqn:E; simpl; [|discriminate].
    apply IH. eapply gemfile_line_every; eassumption.
Qed.

Lemma parse_every P fs self st st' :
  (forall g l, let d := build_dependency (appname self) g l in P (group d) d) ->
  every P (dependencies st) ->
  parse fs self st = Ok st' -> every P (dependencies st').
Proof.
  intros Hb Hst. unfold parse. destruct (gemspec self).
  - apply parse_gemspec_every; assumption.
  - unfold parse_gemfile. cbn [String.eqb bind].
    apply gemfile_lines_every; assumption.
Qed.

End CountFacts.

(** ** Whole files: counts, errors, a second parse *)

Module RunFacts.
Import Py Re GemfileParser Aux Cover BuilderFacts StateFacts ReFacts PatternFacts
  MatcherFacts GroupFacts SemFacts CountFacts.
Local Open Scope list_scope.

Lemma gemfile_lines_quiet fs self ls st :
  (forall raw, In raw ls -> is_gemspec_call raw = false) \/
  length (glob fs (join (dirname (filepath self)) "*.gemspec")) <> 1 ->
  exists st',
    gemfile_lines fs self ls st = Ok st' /\
    total (dependencies st') =
      total (dependencies st) + length (List.filter is_dependency_line ls) /\
    stdout st' =
      stdout st ++
      map (fun _ => diagnostic (glob fs (join (dirname (filepath self)) "*.gemspec")))
          (List.filter is_gemspec_call ls).
Proof.
  revert st. induction ls as [|raw ls IH]; intros st Hq.
  - exists st. cbn. rewrite app_nil_r. split; [reflexivity|]. split; [lia|reflexivity].
  - destruct (gemfile_line_quiet fs self raw st) as (st1 & E1 & T1 & O1).
    { destruct Hq as [Hq|Hq]; [left; apply Hq; left; reflexivity|right; exact Hq]. }
    destruct (IH st1) as (st' & E & T & O).
    { destruct Hq as [Hq|Hq]; [left; intros r Hr; apply Hq; right; exact Hr|right; exact Hq]. }
    exists st'. cbn [gemfile_lines bind]. rewrite E1. cbn [bind].
    split; [exact E|]. rewrite T, T1, O, O1. cbn [List.filter].
    split.
    + destruct (is_dependency_line raw); cbn [length]; lia.
    + rewrite <- app_assoc. destruct (is_gemspec_call raw); reflexivity.
Qed.

Lemma gemspec_lines_total self ls st :
  total (dependencies (fold_left (fun st raw => gemspec_line self raw st) ls st)) =
  total (dependencies st) + length (List.filter is_directive ls).
Proof.
  revert st. induction ls as [|raw ls IH]; intros st; cbn [fold_left List.filter].
  - cbn. lia.
  - rewrite IH, gemspec_line_total. destruct (is_directive raw); cbn [length]; lia.
Qed.

Lemma gemspec_lines_stdout self ls st :
  stdout (fold_left (fun st raw => gemspec_line self raw st) ls st) = stdout st.
Proof.
  revert st. induction ls as [|raw ls IH]; intros st; cbn [fold_left]; [reflexivity|].
  rewrite IH. apply gemspec_line_stdout.
Qed.

(** *** Where an error can come from *)

Lemma parse_gemspec_error fs self path st p :
  parse_gemspec fs self path st = IOError p ->
  p = path /\ path <> "" /\ readlines fs path = None.
Proof.
  unfold parse_gemspec, open_readlines.
  destruct (String.eqb_spec path "") as [->|Hne]; [discriminate|].
  destruct (readlines fs path); cbn [bind]; [discriminate|].
  intros [= <-]. auto.
Qed.

Lemma gemfile_line_error fs self raw st p :
  gemfile_line fs self raw st = IOError p ->
  is_gemspec_call raw = true /\
  exists f, glob fs (join (dirname (filepath self)) "*.gemspec") = [f] /\
            p = join (dirname (filepath self)) f /\ readlines fs p = None.
Proof.
  unfold gemfile_line, is_gemspec_call. cbv zeta.
  destruct (_ || _); [discriminate|].
  destruct (startswith (preprocess raw) "group").
  { destruct (match_ group_block_regex _) as [m|];
      [destruct (Re.group "groupblock" m)|]; discriminate. }
  destruct (startswith (preprocess raw) "end"); [discriminate|].
  destruct (startswith (preprocess raw) "gemspec");
    [|destruct (startswith (preprocess raw) "gem "); discriminate].
  destruct (glob fs _) as [|f [|f' l]]; [discriminate| |discriminate].
  intros (-> & _ & H)%parse_gemspec_error. split; [reflexivity|]. eauto.
Qed.

Lemma gemfile_lines_error fs self ls st p :
  gemfile_lines fs self ls st = IOError p ->
  (exists raw, In raw ls /\ is_gemspec_call raw = true) /\
  exists f, glob fs (join (dirname (filepath self)) "*.gemspec") = [f] /\
            p = join (dirname (filepath self)) f /\ readlines fs p = None.
Proof.
  revert st. induction ls as [|raw ls IH]; intros st; cbn [gemfile_lines];
    [discriminate|].
  destruct (gemfile_line fs self raw st) as [st1|q] eqn:E; cbn [bind].
  - intros [(r & Hr & Hc) H]%IH. split; [|exact H]. exists r. split; [right|]; assumption.
  - intros [= ->]. destruct (gemfile_line_error _ _ _ _ _ E) as [Hc H].
    split; [|exact H]. exists raw. split; [left; reflexivity|exact Hc].
Qed.

(** A gemspec call that finds one gemspec which cannot be read. *)
Lemma gemfile_line_unreadable fs self raw st f :
  is_gemspec_call raw = true ->
  glob fs (join (dirname (filepath self)) "*.gemspec") = [f] ->
  join (dirname (filepath self)) f <> "" ->
  readlines fs (join (dirname (filepath self)) f) = None ->
  gemfile_line fs self raw st = IOError (join (dirname (filepath self)) f).
Proof.
  unfold is_gemspec_call. intros Hc Hg Hne Hr.
  destruct (gemspec_call_not_other _ Hc) as (H1 & H2 & H3 & _).
  unfold gemfile_line. cbv zeta. rewrite H1, H2, H3, Hc, Hg.
  unfold parse_gemspec, open_readlines.
  destruct (String.eqb_spec (join (dirname (filepath self)) f) "") as [E|_];
    [contradiction|].
  rewrite Hr. reflexivity.
Qed.

(** *** The same lines on two states *)

Lemma parse_line_behind front self line st1 st2 :
  global_group st1 = global_group st2 ->
  behind front (dependencies st1) (dependencies st2) ->
  behind front (dependencies (parse_line self line st1))
               (dependencies (parse_line self line st2)).
Proof.
  intros Hg Hb k. rewrite !parse_line_dependencies. cbv zeta. rewrite <- Hg.
  set (dep := build_dependency _ _ _).
  destruct (decide (group dep = k)) as [<-|Hne].
  - rewrite !lookup_total_insert_eq, Hb, app_assoc. reflexivity.
  - rewrite !lookup_total_insert_ne by exact Hne. apply Hb.
Qed.

Lemma gemspec_line_behind front self raw st1 st2 :
  behind front (dependencies st1) (dependencies st2) ->
  behind front (dependencies (gemspec_line self raw st1))
               (dependencies (gemspec_line self raw st2)) /\
  (global_group st1 = global_group st2 ->
   global_group (gemspec_line self raw st1) = global_group (gemspec_line self raw st2)).
Proof.
  intros Hb. unfold gemspec_line. cbv zeta.
  repeat match goal with
  | |- context [match ?o with Some _ => _ | None => _ end] => destruct o
  end;
  (split; [first [exact Hb | apply parse_line_behind; [reflexivity|exact Hb]]
          |rewrite ?parse_line_global_group; auto]).
Qed.

Lemma gemspec_lines_behind front self ls st1 st2 :
  behind front (dependencies st1) (dependencies st2) ->
  let run st := fold_left (fun st raw => gemspec_line self raw st) ls st in
  behind front (dependencies (run st1)) (dependencies (run st2)) /\
  (global_group st1 = global_group st2 ->
   global_group (run st1) = global_group (run st2)).
Proof.
  cbv zeta. revert st1 st2. induction ls as [|raw ls IH]; intros st1 st2 Hb;
    cbn [fold_left]; [auto|].
  destruct (gemspec_line_behind front self raw st1 st2 Hb) as [Hb' Hg'].
  destruct (IH _ _ Hb') as [Hb'' Hg'']. auto.
Qed.

Lemma parse_gemspec_behind front fs self path st1 st2 st1' :
  behind front (dependencies st1) (dependencies st2) ->
  parse_gemspec fs self path st1 = Ok st1' ->
  exists st2',
    parse_gemspec fs self path st2 = Ok st2' /\
    behind front (dependencies st1') (dependencies st2') /\
    (global_group st1 = global_group st2 -> global_group st1' = global_group st2').
Proof.
  intros Hb. unfold parse_gemspec.
  destruct (if String.eqb path "" then _ else _) as [ls|p]; cbn [bind]; [|discriminate].
  intros [= <-]. eexists. split; [reflexivity|].
  apply gemspec_lines_behind, Hb.
Qed.

Lemma gemfile_line_behind front fs self raw st1 st2 st1' :
  global_group st1 = global_group st2 ->
  behind front (dependencies st1) (dependencies st2) ->
  gemfile_line fs self raw st1 = Ok st1' ->
  exists st2',
    gemfile_line fs self raw st2 = Ok st2' /\
    global_group st1' = global_group st2' /\
    behind front (dependencies st1') (dependencies st2').
Proof.
  intros Hg Hb. unfold gemfile_line. cbv zeta.
  destruct (_ || _); [intros [= <-]; eauto|].
  destruct (startswith (preprocess raw) "group").
  { destruct (match_ group_block_regex _) as [m|];
      [destruct (Re.group "groupblock" m)|]; intros [= <-]; eauto. }
  destruct (startswith (preprocess raw) "end"); [intros [= <-]; eauto|].
  destruct (startswith (preprocess raw) "gemspec").
  { destruct (glob fs _) as [|f [|f' l]]; try (intros [= <-]; eauto).
    intros H. destruct (parse_gemspec_behind front _ _ _ _ _ _ Hb H)
      as (st2' & E & Hb' & Hg'). eauto. }
  destruct (startswith (preprocess raw) "gem "); intros [= <-]; [|eauto].
  eexists. split; [reflexivity|]. rewrite !parse_line_global_group.
  split; [exact Hg|]. apply parse_line_behind; assumption.
Qed.

Lemma gemfile_lines_behind front fs self ls st1 st2 st1' :
  global_group st1 = global_group st2 ->
  behind front (dependencies st1) (dependencies st2) ->
  gemfile_lines fs self ls st1 = Ok st1' ->
  exists st2',
    gemfile_lines fs self ls st2 = Ok st2' /\
    global_group st1' = global_group st2' /\
    behind front (dependencies st1') (dependencies st2').
Proof.
  revert st1 st2. induction ls as [|raw ls IH]; intros st1 st2 Hg Hb;
    cbn [gemfile_lines].
  - intros [= <-]. eauto.
  - destruct (gemfile_line fs self raw st1) as [s1|] eqn:E; cbn [bind]; [|discriminate].
    destruct (gemfile_line_behind front _ _ _ _ _ _ Hg Hb E) as (s2 & E2 & Hg2 & Hb2).
    rewrite E2. cbn [bind]. apply IH; assumption.
Qed.

Lemma parse_behind front fs self st1 st2 st1' :
  gemspec self = true \/ global_group st1 = global_group st2 ->
  behind front (dependencies st1) (dependencies st2) ->
  parse fs self st1 = Ok st1' ->
  exists st2',
    parse fs self st2 = Ok st2' /\
    behind front (dependencies st1') (dependencies st2').
Proof.
  intros Hk Hb. unfold parse. destruct (gemspec self).
  - intros H. destruct (parse_gemspec_behind front _ _ _ _ _ _ Hb H) as (s & E & B & _).
    eauto.
  - destruct Hk as [Hk|Hg]; [discriminate|].
    unfold parse_gemfile. cbn [String.eqb bind]. intros H.
    destruct (gemfile_lines_behind front _ _ _ _ _ _ Hg Hb H) as (s & E & _ & B).
    eauto.
Qed.

End RunFacts.

(** ** The shape of what the patterns capture *)

Module ShapeFacts.
Import Py Re GemfileParser Aux Cover BuilderFacts StateFacts ReFacts PatternFacts
  MatcherFacts GroupFacts SemFacts StripFacts.
Local Open Scope list_scope.

Ltac norm_app :=
  repeat first [rewrite append_assoc | rewrite append_cons | rewrite append_nil].

Lemma sem_Lit l u c c' : sem (Lit l) u c c' -> u = l /\ c' = c.
Proof. exact (fun H => H). Qed.

Lemma sem_Cat r1 r2 u c c' :
  sem (r1 ⋅ r2) u c c' ->
  exists u1 u2 c1, u = u1 +:+ u2 /\ sem r1 u1 c c1 /\ sem r2 u2 c1 c'.
Proof. exact (fun H => H). Qed.

Lemma sem_Named n r u c c' :
  sem (Named n r) u c c' -> exists c1, sem r u c c1 /\ c' = (n, u) :: c1.
Proof. exact (fun H => H). Qed.

Lemma sem_Cls items u c c' :
  sem (Cls items) u c c' ->
  exists a, u = String a "" /\ in_class items a = true /\ c' = c.
Proof. intros [(a & -> & Ha) ->]. eauto. Qed.

Lemma sem_Star_Dot u c c' :
  sem (Star Dot) u c c' -> all not_newline u = true /\ c' = c.
Proof.
  intros H. split; [exact (star_sem_Dot _ _ _ H)|].
  exact (sem_plain (Star Dot) _ _ _ eq_refl H).
Qed.

Lemma sem_Star_Cls items u c c' :
  sem (Star (Cls items)) u c c' -> all (in_class items) u = true /\ c' = c.
Proof.
  intros H. split; [exact (star_sem_Cls _ _ _ _ H)|].
  exact (sem_plain (Star (Cls items)) _ _ _ eq_refl H).
Qed.

Lemma sem_Plus_Cls items u c c' :
  sem (Plus (Cls items)) u c c' ->
  u <> "" /\ all (in_class items) u = true /\ c' = c.
Proof.
  intros (u1 & u2 & c1 & -> & (a & -> & Ha & ->)%sem_Cls & [H ->]%sem_Star_Cls).
  rewrite append_cons, append_nil. cbn [all]. rewrite Ha, H. repeat split. discriminate.
Qed.

Lemma sem_key_sep u c c' : sem key_sep u c c' -> is_key_sep u = true /\ c' = c.
Proof.
  intros H. split; [|exact (sem_plain key_sep _ _ _ eq_refl H)].
  destruct H as [[-> _]|(u1 & u2 & c1 & -> & H1 & [-> _])]; [reflexivity|].
  destruct H1 as [(a & -> & Ha & _)%sem_Cls|[-> _]]; [|reflexivity].
  cbn in Ha. rewrite orb_false_r in Ha. apply Ascii.eqb_eq in Ha. subst a. reflexivity.
Qed.

Lemma all_space u : all (in_class [Ch " "]) u = true -> all_char " " u = true.
Proof.
  induction u as [|a u IH]; [reflexivity|]. cbn [all all_char].
  intros [Ha Hu]%andb_true_iff. cbn in Ha. rewrite orb_false_r in Ha.
  rewrite Ha, (IH Hu). reflexivity.
Qed.

Lemma group_head n v c : Re.group n ((n, v) :: c) = Some v.
Proof. cbn. rewrite String.eqb_refl. reflexivity. Qed.

Lemma in_class_quote a : in_class [Ch "'"; Ch DQ] a = is_quote a.
Proof. unfold is_quote. cbn. rewrite orb_false_r. reflexivity. Qed.

(** The start every attribute pattern shares: anything, the keyword, the
    separator, spaces. *)
Lemma sem_key kw R u c c' :
  sem (Star Dot ⋅ Lit kw ⋅ key_sep ⋅ Star sp ⋅ R) u c c' ->
  exists pre sep spaces w,
    u = pre +:+ kw +:+ sep +:+ spaces +:+ w /\
    all not_newline pre = true /\ is_key_sep sep = true /\
    all_char " " spaces = true /\ sem R w c c'.
Proof.
  intros (pre & ? & ? & -> & [Hpre ->]%sem_Star_Dot & H)%sem_Cat.
  destruct H as (? & ? & ? & -> & [-> ->] & H).
  destruct H as (sep & ? & ? & -> & [Hsep ->]%sem_key_sep & H).
  destruct H as (spaces & w & ? & -> & [Hsp ->]%sem_Star_Cls & H).
  exists pre, sep, spaces, w. repeat split; auto using all_space.
Qed.

(** A bare token: git, platform, branch, require, group. *)
Lemma token_shape kw name line v :
  match_group
    (Star Dot ⋅ Lit kw ⋅ key_sep ⋅ Star sp ⋅ Named name (Plus url_chars) ⋅ Star Dot)
    name line = Some v ->
  exists pre sep spaces rest,
    line = pre +:+ kw +:+ sep +:+ spaces +:+ v +:+ rest /\
    all not_newline pre = true /\ is_key_sep sep = true /\
    all_char " " spaces = true /\
    v <> "" /\ all (in_class url_items) v = true.
Proof.
  unfold match_group. destruct (match_ _ line) as [m|] eqn:E; [|discriminate].
  apply match_sound in E as (u & rest & -> & H).
  apply sem_key in H as (pre & sep & spaces & w & -> & Hpre & Hsep & Hsp & H).
  destruct H as (val & t & ? & -> & (? & (Hne & Hval & ->)%sem_Plus_Cls & ->)%sem_Named
                 & [_ ->]%sem_Star_Dot).
  rewrite group_head. intros [= <-].
  exists pre, sep, spaces, (t +:+ rest).
  norm_app. repeat split; auto.
Qed.

(** A quoted value: source, github. *)
Lemma quoted_shape kw name items line v :
  match_group
    (Star Dot ⋅ Lit kw ⋅ key_sep ⋅ Star sp ⋅ quote
     ⋅ Named name (Plus (Cls items)) ⋅ quote ⋅ Star Dot)
    name line = Some v ->
  exists pre sep spaces q1 q2 rest,
    line = pre +:+ kw +:+ sep +:+ spaces +:+ String q1 (v +:+ String q2 rest) /\
    all not_newline pre = true /\ is_key_sep sep = true /\
    all_char " " spaces = true /\
    is_quote q1 = true /\ is_quote q2 = true /\
    v <> "" /\ all (in_class items) v = true.
Proof.
  unfold match_group. destruct (match_ _ line) as [m|] eqn:E; [|discriminate].
  apply match_sound in E as (u & rest & -> & H).
  apply sem_key in H as (pre & sep & spaces & w & -> & Hpre & Hsep & Hsp & H).
  destruct H as (? & ? & ? & -> & (q1 & -> & Hq1 & ->)%sem_Cls & H).
  destruct H as (val & ? & ? & -> & (? & (Hne & Hval & ->)%sem_Plus_Cls & ->)%sem_Named
                 & H).
  destruct H as (? & t & ? & -> & (q2 & -> & Hq2 & ->)%sem_Cls & [_ ->]%sem_Star_Dot).
  rewrite group_head. intros [= <-].
  rewrite in_class_quote in Hq1, Hq2.
  exists pre, sep, spaces, q1, q2, (t +:+ rest).
  norm_app.
  repeat split; auto.
Qed.

(** A bracketed list: platforms, groups. *)
Lemma bracket_shape kw name tail line v :
  plain tail = true ->
  match_group
    (Star Dot ⋅ Lit kw ⋅ key_sep ⋅ Star sp
     ⋅ Named name (Lit "[" ⋅ Star Dot ⋅ Lit "]") ⋅ tail)
    name line = Some v ->
  exists pre sep spaces inner t rest c,
    line = pre +:+ kw +:+ sep +:+ spaces +:+ v +:+ t +:+ rest /\
    all not_newline pre = true /\ is_key_sep sep = true /\
    all_char " " spaces = true /\
    v = "[" +:+ inner +:+ "]" /\ all not_newline inner = true /\
    sem tail t c c.
Proof.
  intros Hplain.
  unfold match_group. destruct (match_ _ line) as [m|] eqn:E; [|discriminate].
  apply match_sound in E as (u & rest & -> & H).
  apply sem_key in H as (pre & sep & spaces & w & -> & Hpre & Hsep & Hsp & H).
  destruct H as (val & t & c1 & -> & (? & H & ->)%sem_Named & Ht).
  destruct H as (? & ? & ? & -> & [-> ->] & (inner & ? & ? & -> & [Hin ->]%sem_Star_Dot
                 & [-> ->])).
  pose proof (sem_plain tail _ _ _ Hplain Ht) as ->.
  rewrite group_head. intros [= <-].
  exists pre, sep, spaces, inner, t, rest. eexists.
  norm_app. repeat split; eauto.
Qed.

(** The path: at least one character, then a quote or a closing
    parenthesis. *)
Lemma path_shape line v :
  match_group path_regex "path" line = Some v ->
  exists pre sep spaces body q rest,
    line = pre +:+ "path" +:+ sep +:+ spaces +:+ v +:+ rest /\
    all not_newline pre = true /\ is_key_sep sep = true /\
    all_char " " spaces = true /\
    v = body +:+ String q "" /\ body <> "" /\ all not_newline body = true /\
    (is_quote q || Ascii.eqb q ")") = true.
Proof.
  unfold match_group. destruct (match_ _ line) as [m|] eqn:E; [|discriminate].
  apply match_sound in E as (u & rest & -> & H).
  apply sem_key in H as (pre & sep & spaces & w & -> & Hpre & Hsep & Hsp & H).
  destruct H as (val & t & c1 & -> & (? & H & ->)%sem_Named & [_ ->]%sem_Star_Dot).
  destruct H as (body & ? & ? & -> & Hbody & (q & -> & Hq & ->)%sem_Cls).
  destruct Hbody as (? & ? & ? & -> & [(a & -> & Ha) ->] & [Hb ->]%sem_Star_Dot).
  rewrite group_head. intros [= <-].
  match goal with
  | |- context [String a "" +:+ ?b] => exists pre, sep, spaces, (String a "" +:+ b), q, (t +:+ rest)
  end.
  split; [norm_app; reflexivity|].
  do 3 (split; [assumption|]).
  split; [reflexivity|].
  split; [rewrite append_cons; discriminate|].
  split.
  - rewrite append_cons, append_nil. cbn [all]. unfold not_newline at 1.
    rewrite Ha, Hb. reflexivity.
  - unfold is_quote. cbn in Hq. rewrite orb_false_r, orb_assoc in Hq. exact Hq.
Qed.

(** The requirement. *)
Lemma all_impl (p q : ascii -> bool) s :
  (forall a, p a = true -> q a = true) -> all p s = true -> all q s = true.
Proof.
  intros Hpq. induction s as [|a s IH]; [reflexivity|]. cbn [all].
  intros [Ha Hs]%andb_true_iff. rewrite (Hpq a Ha), (IH Hs). reflexivity.
Qed.

Ltac by_cases a :=
  destruct a as [[] [] [] [] [] [] [] []]; vm_compute;
  let H := fresh in intros H; first [discriminate H | repeat split].

Lemma operator_chars a :
  in_class [Ch ">"; Ch "|"; Ch "<"; Ch "|"; Ch "="; Ch "|"; Ch "~";
            Ch ">"; Ch "|"; Digit] a = true ->
  is_operator_char a = true /\ is_requirement_char a = true.
Proof. by_cases a. Qed.

Lemma space_chars a :
  in_class [Ch " "] a = true -> is_requirement_char a = true.
Proof. by_cases a. Qed.

Lemma version_chars a :
  in_class [Range "0" "9"; Ch "."; Word] a = true -> is_requirement_char a = true.
Proof. by_cases a. Qed.

Lemma separator_chars a :
  in_class [Ch " "; Ch ","] a = true -> is_requirement_char a = true.
Proof. by_cases a. Qed.

Lemma requirement_clause u c c' :
  sem (Plus (Cls [Ch ">"; Ch "|"; Ch "<"; Ch "|"; Ch "="; Ch "|"; Ch "~";
                  Ch ">"; Ch "|"; Digit])
       ⋅ Star sp
       ⋅ Plus (Cls [Range "0" "9"; Ch "."; Word])
       ⋅ Star (Cls [Ch " "; Ch ","])) u c c' ->
  c' = c /\ all is_requirement_char u = true /\
  exists a t, u = String a t /\ is_operator_char a = true.
Proof.
  intros (u1 & ? & ? & -> & H1 & (u2 & ? & ? & -> & [H2 ->]%sem_Star_Cls
          & (u3 & u4 & ? & -> & (_ & H3 & ->)%sem_Plus_Cls & [H4 ->]%sem_Star_Cls))).
  destruct H1 as (? & u1' & ? & -> & (a & -> & Ha & ->)%sem_Cls & [H1 ->]%sem_Star_Cls).
  destruct (operator_chars a Ha) as [Hop Hreq].
  apply (all_impl _ is_requirement_char) in H1; [|intros b Hb; apply operator_chars, Hb].
  apply (all_impl _ is_requirement_char) in H2; [|exact space_chars].
  apply (all_impl _ is_requirement_char) in H3; [|exact version_chars].
  apply (all_impl _ is_requirement_char) in H4; [|exact separator_chars].
  split; [reflexivity|]. split.
  - rewrite !all_app, H1, H2, H3, H4. cbn [all]. rewrite Hreq. reflexivity.
  - norm_app. eexists a, _. split; [reflexivity|exact Hop].
Qed.

Lemma requirement_clauses u c c' :
  star_sem
    (sem (Plus (Cls [Ch ">"; Ch "|"; Ch "<"; Ch "|"; Ch "="; Ch "|"; Ch "~";
                     Ch ">"; Ch "|"; Digit])
          ⋅ Star sp
          ⋅ Plus (Cls [Range "0" "9"; Ch "."; Word])
          ⋅ Star (Cls [Ch " "; Ch ","]))) u c c' ->
  c' = c /\ all is_requirement_char u = true.
Proof.
  induction 1 as [|u v c c1 c2 H1 _ [-> IH]]; [auto|].
  apply requirement_clause in H1 as (-> & H1 & _).
  rewrite all_app, H1, IH. auto.
Qed.

Lemma requirement_shape line v :
  match_group requirement_regex "requirement" line = Some v ->
  exists q1 mid q2 a t rest,
    line = "gem " +:+ String q1 (mid +:+ String q2 (v +:+ rest)) /\
    is_quote q1 = true /\ is_quote q2 = true /\ all not_newline mid = true /\
    v = String a t /\ is_operator_char a = true /\
    all is_requirement_char v = true.
Proof.
  unfold match_group. destruct (match_ _ line) as [m|] eqn:E; [|discriminate].
  apply match_sound in E as (u & rest & -> & H).
  destruct H as (? & ? & ? & -> & [-> ->] & H).
  destruct H as (? & ? & ? & -> & (s & -> & Hs & ->)%sem_Cls & H).
  destruct H as (? & ? & ? & -> & (q1 & -> & Hq1 & ->)%sem_Cls & H).
  destruct H as (mid & ? & ? & -> & Hmid & H).
  pose proof (star_sem_Dot _ _ _ Hmid) as Hnl.
  pose proof (sem_plain (LazyStar Dot) _ _ _ eq_refl Hmid) as ->.
  destruct H as (? & ? & ? & -> & (q2 & -> & Hq2 & ->)%sem_Cls & H).
  destruct H as (val & tl & ? & -> & (? & H & ->)%sem_Named & [_ ->]%sem_Star_Dot).
  destruct H as (u1 & u2 & ? & -> & (-> & H1 & a & t & -> & Ha)%requirement_clause
                 & [-> H2]%requirement_clauses).
  rewrite group_head. intros [= <-].
  rewrite in_class_quote in Hq1, Hq2.
  cbn in Hs. rewrite orb_false_r in Hs. apply Ascii.eqb_eq in Hs. subst s.
  exists q1, mid, q2, a, (t +:+ u2), (tl +:+ rest).
  norm_app.
  repeat split; auto.
  rewrite <- append_cons, all_app, H1, H2. reflexivity.
Qed.

End ShapeFacts.

(** ** Which run a repetition settles on *)

Module ChoiceFacts.
Import Py Re GemfileParser Aux Cover BuilderFacts StateFacts ReFacts PatternFacts
  MatcherFacts GroupFacts SemFacts StripFacts ShapeFacts.
Local Open Scope list_scope.

Lemma append_eq_nil (u t : string) : u +:+ t = "" -> u = "" /\ t = "".
Proof. destruct u; [rewrite append_nil; auto|rewrite append_cons; discriminate]. Qed.

(** The lazy repetition stops at the first place where the continuation
    accepts. *)
Lemma char_lazy_inv p k s c m :
  char_lazy p k s c = Some m ->
  exists pre rest,
    s = pre +:+ rest /\ all p pre = true /\ k rest c = Some m /\
    forall u a t, pre = u +:+ String a t -> k (String a t +:+ rest) c = None.
Proof.
  induction s as [|a s IH]; cbn [char_lazy].
  - destruct (k "" c) as [m'|] eqn:E; [|discriminate]. intros [= <-].
    exists "", "". repeat split; auto.
    intros u b t H. symmetry in H. apply append_eq_nil in H as [_ H]. discriminate.
  - destruct (k (String a s) c) as [m'|] eqn:E.
    + intros [= <-]. exists "", (String a s). repeat split; auto.
      intros u b t H. symmetry in H. apply append_eq_nil in H as [_ H]. discriminate.
    + destruct (p a) eqn:Ha; [|discriminate].
      intros (pre & rest & -> & Hp & Hk & Hmin)%IH.
      exists (String a pre), rest. rewrite append_cons. cbn [all]. rewrite Ha, Hp.
      repeat split; auto.
      intros [|b u] d t; [rewrite append_nil|rewrite append_cons]; intros [= -> H].
      * subst pre. exact E.
      * apply (Hmin u d t H).
Qed.

(** The greedy repetition fails only when the continuation rejects every
    run, and otherwise stops at the longest run it accepts. *)
Lemma char_star_None_inv p k s c :
  char_star p k s c = None ->
  forall u t, s = u +:+ t -> all p u = true -> k t c = None.
Proof.
  induction s as [|a s IH]; cbn [char_star].
  - intros H u t E. symmetry in E. apply append_eq_nil in E as [-> ->]. auto.
  - intros H [|b u] t; [rewrite append_nil|rewrite append_cons].
    + intros <- _. destruct (p a); [destruct (char_star p k s c)|]; congruence.
    + intros [= <- ->]. cbn [all]. intros [Hb Hu]%andb_true_iff. rewrite Hb in H.
      destruct (char_star p k (u +:+ t) c) eqn:E; [discriminate|].
      apply (IH eq_refl u t eq_refl Hu).
Qed.

Lemma char_star_inv p k s c m :
  char_star p k s c = Some m ->
  exists pre rest,
    s = pre +:+ rest /\ all p pre = true /\ k rest c = Some m /\
    forall u t, u <> "" -> rest = u +:+ t -> all p u = true -> k t c = None.
Proof.
  induction s as [|a s IH]; cbn [char_star].
  - intros H. exists "", "". repeat split; auto.
    intros u t Hu E. symmetry in E. apply append_eq_nil in E as [-> _]. contradiction.
  - destruct (p a) eqn:Ha.
    + destruct (char_star p k s c) as [m'|] eqn:E.
      * intros [= <-]. destruct (IH eq_refl) as (pre & rest & -> & Hp & Hk & Hmax).
        exists (String a pre), rest. rewrite append_cons. cbn [all]. rewrite Ha, Hp.
        repeat split; auto.
      * intros H. exists "", (String a s). repeat split; auto.
        intros [|b u] t Hu; [contradiction|]. rewrite append_cons.
        intros [= <- ->]. cbn [all]. intros [_ Hall]%andb_true_iff.
        apply (char_star_None_inv _ _ _ _ E u t eq_refl Hall).
    + intros H. exists "", (String a s). repeat split; auto.
      intros [|b u] t Hu; [contradiction|]. rewrite append_cons.
      intros [= <- ->]. cbn [all]. rewrite Ha. discriminate.
Qed.

Lemma char_star_Some p (k : cont) s c :
  k s c <> None -> char_star p k s c <> None.
Proof.
  destruct s as [|a s]; cbn [char_star]; [auto|].
  destruct (p a); [|auto]. destruct (char_star p k s c); [discriminate|auto].
Qed.

Lemma char_star_skip_Some p (k : cont) pre s c :
  all p pre = true -> char_star p k s c <> None ->
  char_star p k (pre +:+ s) c <> None.
Proof.
  intros Hp H. destruct (char_star p k s c) as [m|] eqn:E; [|contradiction].
  rewrite (char_star_skip p k pre s c m Hp E). discriminate.
Qed.

Lemma all_each p s :
  (forall u a t, s = u +:+ String a t -> p a = true) -> all p s = true.
Proof.
  induction s as [|a s IH]; [reflexivity|]. intros H. cbn [all].
  rewrite (H "" a s eq_refl), IH; [reflexivity|].
  intros u b t ->. apply (H (String a u) b t). reflexivity.
Qed.

Lemma all_suffix p u a t : all p (u +:+ String a t) = true -> p a = true.
Proof.
  rewrite all_app. cbn [all]. intros [_ [H _]%andb_true_iff]%andb_true_iff. exact H.
Qed.

(** *** The name *)

Lemma name_shape line v :
  match_group name_regex "name" line = Some v <->
  exists q1 q2 rest,
    line = "gem " +:+ String q1 (v +:+ String q2 rest) /\
    is_quote q1 = true /\ is_quote q2 = true /\
    all is_name_char v = true.
Proof.
  unfold match_group, match_, name_regex.
  rewrite exec_Cat, exec_Lit.
  destruct (strip_prefix "gem " line) as [s1|] eqn:E1.
  2:{ split; [discriminate|]. intros (q1 & q2 & rest & -> & _). discriminate E1. }
  apply strip_prefix_Some in E1. subst line.
  rewrite exec_Cat. cbn [exec quote]. fold quote.
  destruct s1 as [|q1 s2].
  { split; [discriminate|]. intros (q1 & q2 & rest & H & _). discriminate H. }
  rewrite in_class_quote.
  destruct (is_quote q1) eqn:Hq1.
  2:{ split; [discriminate|]. intros (q & q2 & rest & [= <- _] & Hq & _). congruence. }
  rewrite (lazy_loop_single not_newline) by (apply single_Dot || lia).
  set (k := fun (s' : string) (c' : captures) => _).
  split.
  - destruct (char_lazy not_newline k s2 []) as [m|] eqn:E; [|discriminate].
    apply char_lazy_inv in E as (pre & rest & -> & Hp & Hk & Hmin).
    unfold k in Hk. cbn [exec quote] in Hk. destruct rest as [|q2 rest]; [discriminate|].
    rewrite in_class_quote in Hk. destruct (is_quote q2) eqn:Hq2; [|discriminate].
    injection Hk as <-. rewrite slice_to_app, group_head. intros [= <-].
    exists q1, q2, rest. repeat split; auto.
    apply all_each. intros u a t ->. unfold is_name_char.
    rewrite (all_suffix _ _ _ _ Hp).
    specialize (Hmin u a t eq_refl). unfold k in Hmin. rewrite append_cons in Hmin.
    cbn [exec quote] in Hmin. rewrite in_class_quote in Hmin.
    destruct (is_quote a); [discriminate|reflexivity].
  - intros (q & q2 & rest & [= <- ->] & _ & Hq2 & Hv).
    assert (Hlast : k (String q2 rest) [] = Some [("name", v)]).
    { unfold k. cbn [exec quote]. rewrite in_class_quote, Hq2, slice_to_app.
      reflexivity. }
    rewrite (char_lazy_first not_newline k v (String q2 rest) [] _) with (3 := Hlast).
    + apply group_head.
    + clear -Hv. induction v as [|a v IH]; [reflexivity|]. cbn [all] in *.
      apply andb_true_iff in Hv as [[Ha _]%andb_true_iff Hv]. rewrite Ha, (IH Hv).
      reflexivity.
    + intros [|a t] Ht [u ->]; [contradiction|].
      apply all_suffix in Hv. apply andb_true_iff in Hv as [_ Ha].
      unfold k. rewrite append_cons. cbn [exec quote]. rewrite in_class_quote.
      apply negb_true_iff in Ha. rewrite Ha. reflexivity.
Qed.

(** *** The directives of a gemspec *)

Lemma directive_tail kw s c :
  exec (Lit kw ⋅ Named "line" (Star Dot)) s c (fun _ c' => Some c') =
  match strip_prefix kw s with
  | Some s' => Some (("line", take_while not_newline s') :: c)
  | None => None
  end.
Proof.
  rewrite exec_Cat, exec_Lit. destruct (strip_prefix kw s) as [s'|]; [|reflexivity].
  rewrite exec_Named, (exec_Star_single not_newline) by apply single_Dot.
  erewrite char_star_longest; [|reflexivity].
  rewrite slice_to_drop_while. reflexivity.
Qed.

Lemma no_keyword_false kw s :
  no_keyword kw s = false -> exists u t, s = u +:+ kw +:+ t.
Proof.
  induction s as [|a s IH]; cbn [no_keyword].
  - rewrite andb_true_r. intros [t ->]%negb_false_iff%startswith_app. exists "", t.
    reflexivity.
  - intros [[t ->]%negb_false_iff%startswith_app|(u & t & ->)%IH]%andb_false_iff.
    + exists "", t. reflexivity.
    + exists (String a u), t. reflexivity.
Qed.

Lemma no_keyword_app kw u t : no_keyword kw (u +:+ kw +:+ t) = false.
Proof.
  induction u as [|a u IH].
  - rewrite append_nil. destruct (kw +:+ t) eqn:E; cbn [no_keyword];
      rewrite <- E; apply andb_false_iff; left; apply negb_false_iff, startswith_app;
      eauto.
  - rewrite append_cons. cbn [no_keyword]. rewrite IH. apply andb_false_r.
Qed.

Lemma directive_shape kw line v :
  kw <> "" -> all not_newline line = true ->
  match_group (Star Dot ⋅ Lit kw ⋅ Named "line" (Star Dot)) "line" line = Some v ->
  exists pre, line = pre +:+ kw +:+ v /\ no_keyword kw v = true.
Proof.
  intros Hkw Hnl. unfold match_group, match_.
  rewrite exec_Cat, (exec_Star_single not_newline) by apply single_Dot.
  destruct (char_star _ _ line []) as [m|] eqn:E; [|discriminate].
  apply char_star_inv in E as (pre & rest & -> & _ & Hk & Hmax).
  rewrite directive_tail in Hk.
  destruct (strip_prefix kw rest) as [s'|] eqn:Es; [|discriminate].
  apply strip_prefix_Some in Es. subst rest. injection Hk as <-.
  rewrite group_head. intros [= <-].
  rewrite !all_app in Hnl. apply andb_true_iff in Hnl as [_ [Hkwnl Hs]%andb_true_iff].
  rewrite (take_while_all _ _ Hs). exists pre. split; [reflexivity|].
  destruct (no_keyword kw s') eqn:Hno; [reflexivity|].
  apply no_keyword_false in Hno as (u & t & ->).
  specialize (Hmax (kw +:+ u) (kw +:+ t)).
  rewrite directive_tail in Hmax.
  assert (Hst : strip_prefix kw (kw +:+ t) = Some t) by (apply strip_prefix_Some; reflexivity).
  rewrite Hst in Hmax. rewrite all_app in Hs. apply andb_true_iff in Hs as [Hu _].
  discriminate Hmax.
  - intros [-> _]%append_eq_nil. contradiction.
  - rewrite append_assoc. reflexivity.
  - rewrite all_app, Hkwnl, Hu. reflexivity.
Qed.

Lemma directive_matches kw line :
  all not_newline line = true ->
  match_ (Star Dot ⋅ Lit kw ⋅ Named "line" (Star Dot)) line <> None <->
  has_keyword kw line = true.
Proof.
  intros Hnl. unfold has_keyword. split.
  - intros H. destruct (no_keyword kw line) eqn:Hno; [|reflexivity].
    exfalso. apply H. unfold match_.
    rewrite exec_Cat, (exec_Star_single not_newline) by apply single_Dot.
    apply char_star_no_keyword, Hno.
  - intros (u & t & ->)%negb_true_iff%no_keyword_false. unfold match_.
    rewrite exec_Cat, (exec_Star_single not_newline) by apply single_Dot.
    rewrite all_app in Hnl. apply andb_true_iff in Hnl as [Hu _].
    apply char_star_skip_Some; [exact Hu|]. apply char_star_Some.
    rewrite directive_tail.
    assert (Hst : strip_prefix kw (kw +:+ t) = Some t) by (apply strip_prefix_Some; reflexivity).
    rewrite Hst. discriminate.
Qed.

(** *** The start of a group block *)

Lemma sem_Opt_sp u c c' : sem (Opt sp) u c c' -> (u = "" \/ u = " ") /\ c' = c.
Proof.
  intros [(a & -> & Ha & ->)%sem_Cls|[-> ->]]; [|auto].
  cbn in Ha. rewrite orb_false_r in Ha. apply Ascii.eqb_eq in Ha. subst a. auto.
Qed.

Lemma group_block_shape line v :
  match_group group_block_regex "groupblock" line = Some v ->
  exists pre sp1 sep spaces rest,
    line = pre +:+ "group" +:+ sp1 +:+ sep +:+ spaces +:+ v +:+ " do" +:+ rest /\
    all not_newline pre = true /\
    (sp1 = "" \/ sp1 = " ") /\ is_key_sep sep = true /\
    all_char " " spaces = true /\
    all not_newline v = true /\ no_keyword " do" v = true.
Proof.
  unfold match_group, match_, group_block_regex.
  destruct (exec _ line [] _) as [m|] eqn:E; [|discriminate].
  rewrite exec_Cat in E.
  apply exec_sound in E as (pre & ? & ? & -> & [Hpre ->]%sem_Star_Dot & E).
  rewrite exec_Cat in E.
  apply exec_sound in E as (? & ? & ? & -> & [-> ->] & E).
  rewrite exec_Cat in E.
  apply exec_sound in E as (sp1 & ? & ? & -> & [Hsp1 ->]%sem_Opt_sp & E).
  rewrite exec_Cat in E.
  apply exec_sound in E as (sep & ? & ? & -> & [Hsep ->]%sem_key_sep & E).
  rewrite exec_Cat in E.
  apply exec_sound in E as (spaces & s & ? & -> & [Hsp ->]%sem_Star_Cls & E).
  rewrite exec_Cat, exec_Named, (exec_LazyStar_single not_newline) in E
    by apply single_Dot.
  apply char_lazy_inv in E as (val & rest' & -> & Hval & Hk & Hmin).
  rewrite exec_Lit in Hk.
  destruct (strip_prefix " do" rest') as [rest|] eqn:Es; [|discriminate].
  apply strip_prefix_Some in Es. subst rest'. injection Hk as <-.
  rewrite slice_to_app, group_head. intros [= <-].
  exists pre, sp1, sep, spaces, rest.
  split; [reflexivity|]. repeat (split; [auto using all_space|]).
  destruct (no_keyword " do" val) eqn:Hno; [reflexivity|].
  apply no_keyword_false in Hno as (u & t & ->).
  specialize (Hmin u " "%char ("do" +:+ t) eq_refl). rewrite exec_Lit in Hmin.
  discriminate Hmin.
Qed.

End ChoiceFacts.

(** * The claims

    In the comments, Q stands for the double quote character. *)

Import Py Re GemfileParser Aux Inputs.
Import PreprocessFacts BuilderFacts StateFacts ReFacts PatternFacts GroupFacts.
Local Open Scope list_scope.

(** The records the example lines build, whatever the application name and
    the group state. *)
Lemma build_gem_foo app g :
  build_dependency app g gem_foo =
  {| name := Some "foo"; requirement := [">= 1.0"]; autorequire := None;
     source := None; parent := if String.eqb app "" then [] else [app];
     group := g; platform := None; platforms := None; groups := None;
     git := None; path := None; github := None; branch := None |}.
Proof. rewrite build_dependency_eq. vm_compute. reflexivity. Qed.

Lemma build_gem_foo_two_clauses app g :
  build_dependency app g gem_foo_two_clauses = build_dependency app g gem_foo.
Proof. rewrite !build_dependency_eq. vm_compute. reflexivity. Qed.

Lemma build_gem_bar_path app g :
  build_dependency app g gem_bar_path =
  {| name := Some "bar"; requirement := []; autorequire := None;
     source := None; parent := if String.eqb app "" then [] else [app];
     group := g; platform := None; platforms := None; groups := None;
     git := None; path := Some (quoted "../bar"); github := None;
     branch := None |}.
Proof. rewrite build_dependency_eq. vm_compute. reflexivity. Qed.

Lemma build_rspec_arguments app g :
  build_dependency app g rspec_arguments =
  new_Dependency g (if String.eqb app "" then [] else [app]).
Proof. rewrite build_dependency_eq. vm_compute. reflexivity. Qed.

(** C1 (the code departs from the claim).  The gemspec line
    [spec.add_development_dependency QrspecQ, Q~> 3.0Q] sets the group
    state to [development] and files exactly one record under
    [development], but the record has no name and no requirement: the
    text handed to [parse_line] is what follows the directive, and the
    [name] and [requirement] patterns only match a text that starts with
    the keyword [gem] ([build_dependency_without_gem]). *)
Theorem C1_gemspec_record_has_no_name (self : parser) (raw : string) (st : state) :
  preprocess raw = add_rspec ->
  let st' := gemspec_line self raw st in
  let dep :=
    new_Dependency "development"
      (if String.eqb (appname self) "" then [] else [appname self]) in
  global_group st' = "development" /\
  dependencies st' =
    <["development" := (dependencies st !!! "development") ++ [dep]]>
      (dependencies st) /\
  name dep = None /\ requirement dep = [].
Proof.
  intros Hraw st' dep. subst st'. unfold gemspec_line. rewrite Hraw.
  replace (match_ add_dvtdep_regex add_rspec)
    with (Some [("line", rspec_arguments)]) by (vm_compute; reflexivity).
  cbn [Re.group String.eqb Ascii.eqb Bool.eqb].
  rewrite parse_line_global_group, parse_line_dependencies. cbv zeta.
  cbn [global_group dependencies set_global_group].
  rewrite build_rspec_arguments. fold dep. auto.
Qed.

Lemma C1_witness :
  let st' := gemspec_line (mkParser "foo.gemspec" "" [add_rspec] true)
               ("  " +:+ add_rspec +:+ String "010" "") (init_state "runtime") in
  global_group st' = "development" /\
  dependencies st' =
    <["development" := (init_dependencies !!! "development")
                       ++ [new_Dependency "development" []]]> init_dependencies /\
  name (new_Dependency "development" []) = None /\
  requirement (new_Dependency "development" []) = [].
Proof.
  apply (C1_gemspec_record_has_no_name
           (mkParser "foo.gemspec" "" [add_rspec] true)
           ("  " +:+ add_rspec +:+ String "010" "") (init_state "runtime")).
  vm_compute. reflexivity.
Defined.

(** C2.  In a Gemfile, a line [gem QfooQ, Q>= 1.0Q] that meets the group
    state at its initial value [runtime] is appended to the sequence keyed
    by [runtime] as a record named [foo] whose requirement is the one
    text [>= 1.0]; the lines after it leave it in place. *)
Theorem C2_gem_foo_filed_under_runtime fs self pre raw post st0 st1 st' :
  gemspec self = false ->
  contents self = pre ++ raw :: post ->
  preprocess raw = gem_foo ->
  gemfile_lines fs self pre st0 = Ok st1 ->
  global_group st1 = "runtime" ->
  parse fs self st0 = Ok st' ->
  exists dep later,
    dependencies st' !!! "runtime" =
      (dependencies st1 !!! "runtime") ++ dep :: later /\
    name dep = Some "foo" /\ requirement dep = [">= 1.0"] /\
    group dep = "runtime".
Proof.
  intros Hkind Hcontents Hraw Hpre Hgroup Hparse.
  unfold parse, parse_gemfile in Hparse. rewrite Hkind in Hparse.
  cbn [String.eqb bind] in Hparse. rewrite Hcontents in Hparse.
  assert (Hgem : startswith (preprocess raw) "gem " = true)
    by (rewrite Hraw; reflexivity).
  destruct (gemfile_lines_files _ _ _ _ _ _ _ _ Hgem Hpre Hparse) as [later H].
  rewrite Hraw, Hgroup, build_gem_foo in H. cbn [group] in H.
  eexists _, later. split; [exact H|]. cbn. auto.
Qed.

Lemma C2_witness :
  exists dep later,
    dependencies
      (mkState "runtime"
         (<["runtime" := [build_dependency "" "runtime" gem_foo;
                          build_dependency "" "runtime" gem_baz]]>
            init_dependencies) [])
      !!! "runtime" =
      (dependencies (init_state "runtime") !!! "runtime") ++ dep :: later /\
    name dep = Some "foo" /\ requirement dep = [">= 1.0"] /\
    group dep = "runtime".
Proof.
  apply (C2_gem_foo_filed_under_runtime no_files
           (mkParser "Gemfile" "" ["source 'x'"; gem_foo +:+ " # c"; gem_baz] false)
           ["source 'x'"] (gem_foo +:+ " # c") [gem_baz]
           (init_state "runtime") (init_state "runtime"));
    vm_compute; reflexivity.
Defined.

(** C3, as stated, fails: a dependency line between [group :test do] and
    its [end] that carries a group attribute of its own is not filed under
    [test].  Here the sequence keyed by [test] stays empty and the record
    lands under [:dev]. *)
Lemma C3_counterexample :
  exists st',
    parse no_files (mkParser "Gemfile" "" override_gemfile false)
      (init_state "runtime") = Ok st' /\
    dependencies st' !! "test" = Some [] /\
    dependencies st' !! ":dev" =
      Some [build_dependency "" "test" gem_foo_group_dev] /\
    global_group st' = "runtime".
Proof. eexists. vm_compute. auto. Qed.

(** C3, amended.  In a Gemfile, the line [group :test do] sets the group
    state to [test] and a line that starts with [end] resets it to
    [runtime].  A dependency line with no group attribute of its own that
    follows the block start, with no line starting with [group], [end] or
    [gemspec] in between, is filed under [test]; such a dependency line
    that follows the [end] line, again with no such line in between, is
    filed under [runtime]. *)
Theorem C3_block_group_until_end fs self pre start mid1 dep1 mid2 endl mid3 dep2
    post st0 st' :
  preprocess start = "group :test do" ->
  forallb keeps_group mid1 = true ->
  startswith (preprocess dep1) "gem " = true ->
  has_group_attribute (preprocess dep1) = false ->
  startswith (preprocess endl) "end" = true ->
  forallb keeps_group mid3 = true ->
  startswith (preprocess dep2) "gem " = true ->
  has_group_attribute (preprocess dep2) = false ->
  gemfile_lines fs self
    (pre ++ start :: mid1 ++ dep1 :: mid2 ++ endl :: mid3 ++ dep2 :: post) st0
  = Ok st' ->
  let d1 := build_dependency (appname self) "test" (preprocess dep1) in
  let d2 := build_dependency (appname self) "runtime" (preprocess dep2) in
  group d1 = "test" /\ d1 ∈ dependencies st' !!! "test" /\
  group d2 = "runtime" /\ d2 ∈ dependencies st' !!! "runtime".
Proof.
  intros Hstart Hmid1 Hgem1 Hattr1 Hend Hmid3 Hgem2 Hattr2 Hall d1 d2.
  (* the first dependency line *)
  pose proof Hall as H1.
  change (pre ++ start :: mid1 ++ dep1 :: ?r)
    with (pre ++ (start :: mid1) ++ dep1 :: r) in H1.
  rewrite app_assoc in H1.
  pose proof H1 as (s1 & Hp1 & _)%gemfile_lines_app_Ok.
  assert (G1 : global_group s1 = "test").
  { eapply after_group_block; [| |exact Hmid1|exact Hp1].
    - rewrite Hstart. reflexivity.
    - rewrite Hstart. vm_compute. reflexivity. }
  destruct (gemfile_lines_files_under _ _ _ _ _ _ _ _ Hgem1 Hattr1 Hp1 H1)
    as [E1 [later1 L1]].
  rewrite G1 in E1, L1.
  (* the second one *)
  pose proof Hall as H2.
  replace (pre ++ start :: mid1 ++ dep1 :: mid2 ++ endl :: mid3 ++ dep2 :: post)
    with (((pre ++ start :: mid1 ++ dep1 :: mid2) ++ endl :: mid3) ++ dep2 :: post)
    in H2 by (repeat (rewrite <- ?app_assoc; cbn [app]); reflexivity).
  pose proof H2 as (s2 & Hp2 & _)%gemfile_lines_app_Ok.
  pose proof (after_end _ _ _ _ _ _ _ Hend Hmid3 Hp2) as G2.
  destruct (gemfile_lines_files_under _ _ _ _ _ _ _ _ Hgem2 Hattr2 Hp2 H2)
    as [E2 [later2 L2]].
  rewrite G2 in E2, L2.
  repeat split; [exact E1| |exact E2|].
  - rewrite L1. apply elem_of_app. right. apply elem_of_cons. left. reflexivity.
  - rewrite L2. apply elem_of_app. right. apply elem_of_cons. left. reflexivity.
Qed.

Lemma C3_witness :
  exists st',
    parse no_files (mkParser "Gemfile" "" block_gemfile false)
      (init_state "runtime") = Ok st' /\
    group (build_dependency "" "test" gem_foo) = "test" /\
    build_dependency "" "test" gem_foo ∈ dependencies st' !!! "test" /\
    group (build_dependency "" "runtime" gem_baz) = "runtime" /\
    build_dependency "" "runtime" gem_baz ∈ dependencies st' !!! "runtime".
Proof.
  eexists. split; [vm_compute; reflexivity|].
  apply (C3_block_group_until_end no_files
           (mkParser "Gemfile" "" block_gemfile false)
           ["source 'https://rubygems.org'" +:+ String "010" ""]
           ("group :test do" +:+ String "010" "") []
           ("  " +:+ gem_foo +:+ "  # pinned" +:+ String "010" "") []
           ("end" +:+ String "010" "") []
           (gem_baz +:+ String "010" "") []
           (init_state "runtime"));
    vm_compute; reflexivity.
Defined.

(** C4.  Whatever the files and the arguments, when [parse] returns, the
    five predefined keys are in the result collection, each mapped to a
    sequence; for an empty file each is mapped to the empty sequence.  No
    step of parsing removes a key: see [gemfile_lines_extends] and
    [gemspec_lines_extends]. *)
Theorem C4_predefined_keys_present fs filepath appname g st' :
  run fs filepath appname g = Ok st' ->
  (forall k, k ∈ predefined_groups -> is_Some (dependencies st' !! k)) /\
  (readlines fs filepath = Some [] ->
   forall k, k ∈ predefined_groups -> dependencies st' !! k = Some []).
Proof.
  unfold run, __init__, open_readlines.
  destruct (readlines fs filepath) as [ls|]; [|discriminate].
  cbn [bind]. set (self := mkParser _ _ _ _). intros Hparse.
  assert (Hinit : forall k, k ∈ predefined_groups -> init_dependencies !! k = Some []).
  { intros k Hk. unfold predefined_groups in Hk.
    repeat (apply elem_of_cons in Hk as [->|Hk]; [vm_compute; reflexivity|]).
    apply elem_of_nil in Hk. contradiction. }
  split.
  - assert (Hext : extends (dependencies (init_state g)) (dependencies st')).
    { unfold parse in Hparse. destruct (gemspec self).
      + eapply parse_gemspec_extends, Hparse.
      + unfold parse_gemfile in Hparse. cbn [String.eqb bind] in Hparse.
        eapply gemfile_lines_extends, Hparse. }
    intros k Hk. apply (Hext k). cbn [dependencies init_state].
    rewrite (Hinit k Hk). eauto.
  - intros [= ->]. unfold parse, parse_gemspec, parse_gemfile in Hparse.
    cbn [String.eqb bind contents self] in Hparse.
    destruct (gemspec self); cbn in Hparse; injection Hparse as <-; exact Hinit.
Qed.

Lemma C4_witness :
  (forall k, k ∈ predefined_groups ->
     is_Some (dependencies (init_state "runtime") !! k)) /\
  (readlines (one_file "Gemfile" []) "Gemfile" = Some [] ->
   forall k, k ∈ predefined_groups ->
     dependencies (init_state "runtime") !! k = Some []).
Proof.
  apply (C4_predefined_keys_present (one_file "Gemfile" []) "Gemfile" "" "runtime").
  vm_compute. reflexivity.
Defined.

(** C5, as stated, fails: a [gem] line that follows the directive and
    carries a group attribute of its own is not filed under the group the
    gemspec parse last set.  Here the gemspec leaves the group state at
    [development] and the line is filed under [:dev]. *)
Lemma C5_counterexample :
  exists st',
    run project_with_attribute "Gemfile" "" "runtime" = Ok st' /\
    global_group st' = "development" /\
    dependencies st' !! "development" = Some [new_Dependency "development" []] /\
    dependencies st' !! ":dev" =
      Some [build_dependency "" "development" gem_foo_group_dev].
Proof. eexists. vm_compute. auto. Qed.

(** C5, amended.  When a Gemfile reaches a [gemspec] directive, the glob
    finds exactly one gemspec and the path the directive opens (the
    directory of the Gemfile joined with the path the glob returned) can
    be read, the lines read are parsed to completion, into the same
    result collection, before any later line of the Gemfile, and the group
    state is not restored afterwards: a [gem] line with no group attribute
    of its own that follows the directive, with no line starting with
    [group], [end] or [gemspec] in between, is filed under the group state
    the gemspec parse left, which is [development] when the last directive
    the gemspec matched is [add_development_dependency]. *)
Theorem C5_gemspec_parse_shares_group_state fs self pre raw mid gemline post
    st0 st1 st' p glines :
  gemfile_lines fs self pre st0 = Ok st1 ->
  startswith (preprocess raw) "gemspec" = true ->
  glob fs (join (dirname (filepath self)) "*.gemspec") = [p] ->
  p <> EmptyString ->
  readlines fs (join (dirname (filepath self)) p) = Some glines ->
  forallb keeps_group mid = true ->
  startswith (preprocess gemline) "gem " = true ->
  has_group_attribute (preprocess gemline) = false ->
  gemfile_lines fs self (pre ++ raw :: mid ++ gemline :: post) st0 = Ok st' ->
  let after_gemspec :=
    fold_left (fun st raw => gemspec_line self raw st) glines st1 in
  let g := global_group after_gemspec in
  let dep := build_dependency (appname self) g (preprocess gemline) in
  gemfile_lines fs self (mid ++ gemline :: post) after_gemspec = Ok st' /\
  extends (dependencies st1) (dependencies after_gemspec) /\
  extends (dependencies after_gemspec) (dependencies st') /\
  group dep = g /\ dep ∈ dependencies st' !!! g /\
  (forall gpre dline gpost,
     glines = gpre ++ dline :: gpost ->
     match_ add_dvtdep_regex (preprocess dline) <> None ->
     forallb no_directive gpost = true ->
     g = "development").
Proof.
  intros Hpre Hs Hglob Hp Hread Hmid Hgem Hattr Hall after_gemspec g dep.
  apply gemfile_lines_app_Ok in Hall as (s1 & Hpre' & Hall).
  rewrite Hpre in Hpre'. injection Hpre' as <-.
  apply gemfile_lines_cons_Ok in Hall as (s2 & Hline & Hrest).
  rewrite (gemfile_line_gemspec _ _ _ _ _ _ Hs Hglob Hp Hread) in Hline.
  injection Hline as <-. fold after_gemspec in Hrest.
  split; [exact Hrest|].
  split; [apply gemspec_lines_extends|].
  split; [eapply gemfile_lines_extends, Hrest|].
  pose proof Hrest as (s3 & Hmid' & _)%gemfile_lines_app_Ok.
  pose proof (gemfile_lines_keep_group _ _ _ _ _ Hmid Hmid') as G.
  destruct (gemfile_lines_files_under _ _ _ _ _ _ _ _ Hgem Hattr Hmid' Hrest)
    as [E [later L]].
  rewrite G in E, L. fold g dep in E, L.
  split; [exact E|]. split.
  - rewrite L. apply elem_of_app. right. apply elem_of_cons. left. reflexivity.
  - intros gpre dline gpost -> Hd Hpost.
    apply gemspec_lines_leave_development; assumption.
Qed.

Lemma C5_witness :
  let self := mkParser "Gemfile" "" ["gemspec"; gem_foo] false in
  let after_gemspec :=
    fold_left (fun st raw => gemspec_line self raw st) [add_rspec]
      (init_state "runtime") in
  let st' :=
    mkState "development"
      (<["development" := [new_Dependency "development" [];
                           build_dependency "" "development" gem_foo]]>
         init_dependencies) [] in
  let g := global_group after_gemspec in
  let dep := build_dependency "" g gem_foo in
  run project_here "Gemfile" "" "runtime" = Ok st' /\
  gemfile_lines project_here self [gem_foo] after_gemspec = Ok st' /\
  extends (dependencies (init_state "runtime")) (dependencies after_gemspec) /\
  extends (dependencies after_gemspec) (dependencies st') /\
  group dep = g /\ dep ∈ dependencies st' !!! g /\
  (forall gpre dline gpost,
     [add_rspec] = gpre ++ dline :: gpost ->
     match_ add_dvtdep_regex (preprocess dline) <> None ->
     forallb no_directive gpost = true ->
     g = "development").
Proof.
  intros self after_gemspec st' g dep.
  split; [vm_compute; reflexivity|].
  apply (C5_gemspec_parse_shares_group_state project_here self [] "gemspec" []
           gem_foo [] (init_state "runtime") (init_state "runtime") st'
           "foo.gemspec" [add_rspec]);
    first [discriminate | vm_compute; reflexivity].
Defined.

(** The slip the amended C5 leaves aside.  The glob returns its matches
    with the directory part of the pattern, and the directive joins the
    directory of the Gemfile in front of the match once more.  The two
    agree when the Gemfile is opened from its own directory or through an
    absolute path.  Opened as [proj/Gemfile], the parse of a project with
    exactly one sibling gemspec, [proj/foo.gemspec], tries to open
    [proj/proj/foo.gemspec] and ends in the error of that [open]; opened
    as [Gemfile] from inside the directory, the same project parses. *)
Lemma gemspec_path_joined_twice :
  run project_from_above "proj/Gemfile" "" "runtime"
    = IOError "proj/proj/foo.gemspec" /\
  run project_here "Gemfile" "" "runtime"
    = Ok (mkState "development"
            (<["development" := [new_Dependency "development" [];
                                 build_dependency "" "development" gem_foo]]>
               init_dependencies) []).
Proof. split; vm_compute; reflexivity. Qed.

(** C6 (the code departs from the claim).  On the line
    [gem QfooQ, Q>= 1.0Q, Q< 2.0Q] the requirement sequence of the record
    is the single text [>= 1.0]: the clause [< 2.0] is lost.  The match
    of the requirement pattern is appended, not assigned, but the pattern
    is matched once per line and its group stops at the quote that closes
    the first clause, so no line gives the sequence more than one
    element. *)
Theorem C6_second_clause_is_lost (app g : string) :
  requirement (build_dependency app g gem_foo_two_clauses) = [">= 1.0"] /\
  forall line, length (requirement (build_dependency app g line)) <= 1.
Proof.
  split.
  - rewrite build_gem_foo_two_clauses, build_gem_foo. reflexivity.
  - intros line. rewrite build_dependency_eq. cbn [requirement].
    destruct (match_group requirement_regex "requirement" line); simpl; lia.
Qed.

(** C7, as stated, fails: the path the line
    [gem QbarQ, path: Q../barQ] yields is not [../bar]. *)
Lemma C7_counterexample :
  path (build_dependency "" "runtime" gem_bar_path) <> Some "../bar".
Proof. rewrite build_gem_bar_path. cbn [path]. vm_compute. discriminate. Qed.

(** C7, amended.  In a Gemfile the line [gem QbarQ, path: Q../barQ] is
    filed, under the current group state, as a record named [bar], with an
    empty requirement sequence, whose path is the text [Q../barQ]: the
    group of the path pattern runs through the closing quote (or
    parenthesis) and starts at the opening quote, so both quotes stay in
    the value. *)
Theorem C7_path_keeps_its_quotes fs (self : parser) (raw : string) (st : state) :
  preprocess raw = gem_bar_path ->
  exists dep,
    gemfile_line fs self raw st =
      Ok (set_dependencies
            (<[global_group st := (dependencies st !!! global_group st) ++ [dep]]>
               (dependencies st)) st) /\
    name dep = Some "bar" /\ path dep = Some (quoted "../bar") /\
    requirement dep = [] /\ group dep = global_group st.
Proof.
  intros Hraw.
  exists (build_dependency (appname self) (global_group st) gem_bar_path).
  rewrite gemfile_line_gem by (rewrite Hraw; reflexivity).
  rewrite Hraw, build_gem_bar_path. split; [|cbn; auto].
  unfold parse_line. rewrite build_gem_bar_path. cbn [group].
  rewrite lookup_total_alt.
  destruct (dependencies st !! global_group st); reflexivity.
Qed.

Lemma C7_witness :
  exists dep,
    gemfile_line no_files (mkParser "Gemfile" "" [gem_bar_path] false)
      gem_bar_path (init_state "runtime") =
      Ok (set_dependencies
            (<["runtime" := (init_dependencies !!! "runtime") ++ [dep]]>
               init_dependencies) (init_state "runtime")) /\
    name dep = Some "bar" /\ path dep = Some (quoted "../bar") /\
    requirement dep = [] /\ group dep = "runtime".
Proof.
  apply (C7_path_keeps_its_quotes no_files
           (mkParser "Gemfile" "" [gem_bar_path] false) gem_bar_path
           (init_state "runtime")).
  vm_compute. reflexivity.
Defined.

(** C8.  A line of a Gemfile that starts with the keyword [gem] and a
    space always reaches the builder, which is total: the line yields
    [Ok], with exactly one record appended to the sequence keyed by the
    record's group, a sequence of that one record being created when the
    key is new, and every other key left as it was.  When no pattern of
    the table matches the line the record has its group and parent and
    nothing else. *)
Theorem C8_dependency_line_always_filed fs (self : parser) (raw : string)
    (st : state) :
  startswith (preprocess raw) "gem " = true ->
  let dep := build_dependency (appname self) (global_group st) (preprocess raw) in
  exists st',
    gemfile_line fs self raw st = Ok st' /\
    dependencies st' !! group dep =
      Some ((dependencies st !!! group dep) ++ [dep]) /\
    (dependencies st !! group dep = None ->
     dependencies st' !! group dep = Some [dep]) /\
    (forall k, k <> group dep -> dependencies st' !! k = dependencies st !! k) /\
    global_group st' = global_group st /\
    ((forall entry, entry ∈ gemfile_regexes ->
        match_ entry.2 (preprocess raw) = None) ->
     dep = new_Dependency (global_group st)
             (if String.eqb (appname self) "" then [] else [appname self])).
Proof.
  intros Hgem dep. exists (parse_line self (preprocess raw) st).
  split; [apply gemfile_line_gem, Hgem|].
  rewrite parse_line_dependencies, parse_line_global_group. cbv zeta. fold dep.
  split; [apply lookup_insert_eq|].
  split; [intros Hnew; rewrite lookup_insert_eq, lookup_total_alt, Hnew; reflexivity|].
  split; [intros k Hk; apply lookup_insert_ne; congruence|].
  split; [reflexivity|].
  intros Hnone. unfold dep. rewrite build_dependency_eq. unfold new_Dependency.
  assert (Hnone' : forall n r, (n, r) ∈ gemfile_regexes ->
            match_ r (preprocess raw) = None)
    by (intros n r Hin; apply (Hnone (n, r)), Hin).
  rewrite !match_group_None; [reflexivity|..];
    eapply Hnone'; unfold gemfile_regexes;
    repeat (apply elem_of_cons; first [left; reflexivity | right]).
Qed.

Lemma C8_witness :
  let dep := build_dependency "app" "staging" "gem foo" in
  exists st',
    gemfile_line no_files (mkParser "Gemfile" "app" [] false) "gem foo"
      (mkState "staging" init_dependencies []) = Ok st' /\
    dependencies st' !! "staging" = Some [dep] /\
    dependencies st' !! "runtime" = Some [] /\
    dep = new_Dependency "staging" ["app"].
Proof.
  destruct (C8_dependency_line_always_filed no_files
              (mkParser "Gemfile" "app" [] false) "gem foo"
              (mkState "staging" init_dependencies []) eq_refl)
    as (st' & Hok & _ & Hnew & Hother & _ & Hbare).
  exists st'. split; [exact Hok|]. split; [apply Hnew; reflexivity|].
  split; [rewrite Hother by discriminate; reflexivity|].
  apply Hbare. intros entry Hin. unfold gemfile_regexes in Hin.
  repeat (apply elem_of_cons in Hin as [->|Hin]; [vm_compute; reflexivity|]).
  apply elem_of_nil in Hin. contradiction.
Defined.

(** C9.  [preprocess] is idempotent: cutting the line at its first [#]
    and stripping the white space of both ends a second time changes
    nothing.  It is a total function on strings. *)
Theorem C9_preprocess_idempotent (line : string) :
  preprocess (preprocess line) = preprocess line.
Proof.
  unfold preprocess at 1. rewrite preprocess_no_hash.
  unfold preprocess. apply strip_idem.
Qed.

(** C10.  A dependency line whose group attribute is written with a
    symbol, [group: :SYM] or [group => :SYM] with [SYM] an identifier,
    alone or followed by a comma and further attributes, is filed under a
    key that starts with the colon of the symbol (the colon and the
    leading letters of [SYM]: [:test] for [group: :test]).  That key is
    never the key a group block gives: the block start [group :NAME do]
    sets the group state to [NAME], without the colon. *)
Theorem C10_symbol_group_keeps_colon fs (self : parser)
    (raw rest sep sym tail : string) (st : state) :
  preprocess raw = "gem " +:+ rest +:+ "group" +:+ sep +:+ " :" +:+ sym +:+ tail ->
  all not_newline rest = true ->
  is_key_sep sep = true ->
  all is_ident sym = true ->
  comma_tail tail = true ->
  let key := ":" +:+ take_while is_letter sym in
  (exists dep,
     gemfile_line fs self raw st =
       Ok (set_dependencies
             (<[key := (dependencies st !!! key) ++ [dep]]> (dependencies st)) st) /\
     group dep = key) /\
  (all is_letter sym = true -> key = ":" +:+ sym) /\
  (forall start blk,
     preprocess start = "group :" +:+ blk +:+ " do" ->
     blk <> EmptyString -> all is_ident blk = true ->
     gemfile_line fs self start st = Ok (set_global_group blk st) /\ blk <> key).
Proof.
  intros Hraw Hrest Hsep Hsym Htail key.
  assert (Hgem : startswith (preprocess raw) "gem " = true).
  { apply startswith_app. rewrite Hraw. eexists. reflexivity. }
  assert (Hkey : group (build_dependency (appname self) (global_group st)
                          (preprocess raw)) = key).
  { rewrite build_dependency_eq. cbn [group]. rewrite Hraw.
    change ("gem " +:+ rest +:+ "group" +:+ sep +:+ " :" +:+ sym +:+ tail)
      with (("gem " +:+ rest) +:+ "group" +:+ sep +:+ " :" +:+ sym +:+ tail).
    rewrite group_regex_symbol; [reflexivity| |exact Hsep|exact Hsym|exact Htail].
    rewrite all_app, Hrest. reflexivity. }
  split; [|split].
  - eexists. split; [|exact Hkey].
    rewrite (gemfile_line_gem _ _ _ _ Hgem). f_equal.
    unfold parse_line. rewrite Hkey, lookup_total_alt.
    destruct (dependencies st !! key); reflexivity.
  - intros Hl. unfold key. rewrite take_while_all by exact Hl. reflexivity.
  - intros start blk Hstart Hne Hblk. split.
    + apply gemfile_line_group.
      * apply startswith_app. rewrite Hstart. eexists. reflexivity.
      * rewrite Hstart. apply group_block_regex_symbol; assumption.
    + intros ->. unfold key in Hblk. cbn [all] in Hblk.
      change (":" +:+ take_while is_letter sym)
        with (String ":" (take_while is_letter sym)) in Hblk.
      cbn [all] in Hblk. discriminate Hblk.
Qed.

Lemma C10_witness :
  (exists dep,
     gemfile_line no_files (mkParser "Gemfile" "" [] false)
       (gem_foo_group_test +:+ ", require: false") (init_state "runtime") =
       Ok (set_dependencies
             (<[":test" := (init_dependencies !!! ":test") ++ [dep]]>
                init_dependencies) (init_state "runtime")) /\
     group dep = ":test") /\
  (all is_letter "test" = true -> ":test" = ":" +:+ "test") /\
  (forall start blk,
     preprocess start = "group :" +:+ blk +:+ " do" ->
     blk <> EmptyString -> all is_ident blk = true ->
     gemfile_line no_files (mkParser "Gemfile" "" [] false) start
       (init_state "runtime") = Ok (set_global_group blk (init_state "runtime")) /\
     blk <> ":test").
Proof.
  apply (C10_symbol_group_keeps_colon no_files (mkParser "Gemfile" "" [] false)
           (gem_foo_group_test +:+ ", require: false") (quoted "foo" +:+ ", ")
           ":" "test" ", require: false" (init_state "runtime"));
    vm_compute; reflexivity.
Defined.

(** * Further properties

    What the code does besides the claims: the text [preprocess] keeps,
    how many records a file gives and what every record satisfies, where
    an error can come from, what a second parse does, and the shape of
    the text each pattern captures.  In the comments, Q stands for the
    double quote character. *)

Import Cover MatcherFacts SemFacts StripFacts CountFacts RunFacts ShapeFacts
  ChoiceFacts.

(** X1.  [preprocess] returns a piece of the line it is given: the line
    is white space, the result, white space again, and then nothing or a
    comment that starts at a [#].  The result holds no [#] and stripping
    it changes nothing, so it neither starts nor ends with white space. *)
Theorem X1_preprocess_splits_line (line : string) :
  exists l w cmt,
    line = l +:+ preprocess line +:+ w +:+ cmt /\
    all isspace l = true /\ all isspace w = true /\
    (cmt = "" \/ exists t, cmt = String "#" t) /\
    find "#" (preprocess line) = None /\
    strip (preprocess line) = preprocess line.
Proof.
  assert (Hsplit : forall body, exists l w,
             body = l +:+ strip body +:+ w /\
             all isspace l = true /\ all isspace w = true).
  { intros body. destruct (lstrip_split body) as (l & El & Hl).
    destruct (rstrip_split (lstrip body)) as (w & Ew & Hw).
    exists l, w. unfold strip. rewrite <- Ew. auto. }
  pose proof (preprocess_no_hash line) as Hhash.
  unfold preprocess in *. destruct (find "#" line) as [i|] eqn:F.
  - destruct (find_split _ _ _ F) as [t Et].
    destruct (Hsplit (slice_to i line)) as (l & w & E & Hl & Hw).
    exists l, w, (String "#" t). split.
    + rewrite Et at 1. rewrite E at 1. rewrite !append_assoc. reflexivity.
    + repeat split; eauto using strip_idem.
  - destruct (Hsplit line) as (l & w & E & Hl & Hw).
    exists l, w, "". split.
    + rewrite append_nil_r. exact E.
    + repeat split; auto using strip_idem.
Qed.

(** X2.  The other way round: a line made of white space, a text without
    [#] that stripping leaves as it is, white space, and then nothing or a
    comment, is preprocessed to that text.  Quotes play no part: the text
    may hold opening quotes that the comment closes. *)
Theorem X2_preprocess_recovers_text (l p w cmt : string) :
  all isspace l = true -> all isspace w = true ->
  (cmt = "" \/ exists t, cmt = String "#" t) ->
  find "#" p = None -> strip p = p ->
  preprocess (l +:+ p +:+ w +:+ cmt) = p.
Proof.
  intros Hl Hw Hcmt Hp Hstrip.
  assert (Hfront : find "#" (l +:+ p +:+ w) = None).
  { rewrite find_app_None by (apply find_spaces; [reflexivity|exact Hl]).
    rewrite find_app_None by exact Hp.
    rewrite (find_spaces "#" w eq_refl Hw). reflexivity. }
  replace (l +:+ p +:+ w +:+ cmt) with ((l +:+ p +:+ w) +:+ cmt)
    by (rewrite !append_assoc; reflexivity).
  unfold preprocess. rewrite (find_app_None _ _ _ Hfront).
  destruct Hcmt as [->|[t ->]].
  - cbn [find option_map]. rewrite append_nil_r. apply strip_between; assumption.
  - change (find "#" (String "#" t)) with (Some 0). cbn [option_map].
    rewrite slice_to_app_length. apply strip_between; assumption.
Qed.

Lemma X2_witness :
  preprocess ("  " +:+ gem_foo +:+ " " +:+ "# see " +:+ quoted "foo") = gem_foo.
Proof.
  apply (X2_preprocess_recovers_text "  " gem_foo " " ("# see " +:+ quoted "foo"));
    first [reflexivity | right; eexists; reflexivity].
Defined.

(** X3.  Whatever follows a [#] is never looked at, also when the [#]
    stands inside a quoted text: a line and the same line with a [#] and
    any text behind it are preprocessed alike, and both loops treat them
    alike. *)
Theorem X3_text_after_hash_is_ignored fs (self : parser) (s t : string)
    (st : state) :
  preprocess (s +:+ String "#" t) = preprocess s /\
  gemfile_line fs self (s +:+ String "#" t) st = gemfile_line fs self s st /\
  gemspec_line self (s +:+ String "#" t) st = gemspec_line self s st.
Proof.
  assert (H : preprocess (s +:+ String "#" t) = preprocess s).
  { unfold preprocess. destruct (find "#" s) as [i|] eqn:F.
    - destruct (find_app_Some _ _ (String "#" t) _ F) as [-> ->]. reflexivity.
    - rewrite (find_app_None _ _ _ F).
      change (find "#" (String "#" t)) with (Some 0). cbn [option_map].
      rewrite slice_to_app_length. reflexivity. }
  split; [exact H|]. unfold gemfile_line, gemspec_line. rewrite H. auto.
Qed.

(** X4.  A line of white space only, or of white space and a comment, is
    preprocessed to the empty text and changes nothing in either loop: no
    record, no change of the group state, nothing printed.  A directive
    of a gemspec that is commented out is such a line. *)
Theorem X4_blank_and_comment_lines_change_nothing fs (self : parser)
    (l cmt : string) (st : state) :
  all isspace l = true ->
  (cmt = "" \/ exists t, cmt = String "#" t) ->
  preprocess (l +:+ cmt) = "" /\
  gemfile_line fs self (l +:+ cmt) st = Ok st /\
  gemspec_line self (l +:+ cmt) st = st.
Proof.
  intros Hl Hcmt.
  assert (H : preprocess (l +:+ cmt) = "").
  { assert (F : find "#" l = None) by (apply find_spaces; [reflexivity|exact Hl]).
    assert (S : strip l = "").
    { unfold strip. replace l with (l +:+ "") by apply append_nil_r.
      rewrite lstrip_spaces by exact Hl. reflexivity. }
    unfold preprocess. rewrite (find_app_None _ _ _ F).
    destruct Hcmt as [->|[t ->]].
    - cbn [find option_map]. rewrite append_nil_r. exact S.
    - change (find "#" (String "#" t)) with (Some 0). cbn [option_map].
      rewrite slice_to_app_length. exact S. }
  split; [exact H|]. unfold gemfile_line, gemspec_line. rewrite H. auto.
Qed.

Lemma X4_witness :
  let raw := "   " +:+ "# " +:+ add_rspec in
  preprocess raw = "" /\
  gemfile_line no_files (mkParser "Gemfile" "" [] false) raw (init_state "test")
    = Ok (init_state "test") /\
  gemspec_line (mkParser "foo.gemspec" "" [] true) raw (init_state "test")
    = init_state "test".
Proof.
  intros raw.
  destruct (X4_blank_and_comment_lines_change_nothing no_files
              (mkParser "Gemfile" "" [] false) "   " ("# " +:+ add_rspec)
              (init_state "test") eq_refl
              (or_intror (ex_intro _ (" " +:+ add_rspec) eq_refl)))
    as (H1 & H2 & _).
  split; [exact H1|]. split; [exact H2|].
  apply (X4_blank_and_comment_lines_change_nothing no_files
           (mkParser "foo.gemspec" "" [] true) "   " ("# " +:+ add_rspec)
           (init_state "test") eq_refl
           (or_intror (ex_intro _ (" " +:+ add_rspec) eq_refl))).
Defined.

(** X5.  A Gemfile in which no gemspec call finds exactly one gemspec
    (it holds no such call, or the glob gives no file or several) always
    parses: the parse returns, the number of records grows by exactly the
    number of lines whose preprocessed text starts with [gem] and a space,
    and one diagnostic is printed per gemspec call, [No gemspec file
    found...] or [Multiple gemspec files found] according to the glob.
    Lines such as [gem(QfooQ)] or [gemfoo], which do not have the space,
    give no record. *)
Theorem X5_gemfile_record_count fs (self : parser) (st : state) :
  gemspec self = false ->
  ((forall raw, In raw (contents self) -> is_gemspec_call raw = false) \/
   length (glob fs (join (dirname (filepath self)) "*.gemspec")) <> 1) ->
  exists st',
    parse fs self st = Ok st' /\
    total (dependencies st') =
      total (dependencies st)
      + length (List.filter is_dependency_line (contents self)) /\
    stdout st' =
      stdout st ++
      map (fun _ => diagnostic (glob fs (join (dirname (filepath self)) "*.gemspec")))
          (List.filter is_gemspec_call (contents self)).
Proof.
  intros Hkind Hq. unfold parse, parse_gemfile. rewrite Hkind.
  cbn [String.eqb bind]. apply gemfile_lines_quiet, Hq.
Qed.

Lemma X5_witness :
  exists st',
    parse no_files
      (mkParser "Gemfile" ""
         ["gemspec"; gem_foo; "gem(" +:+ quoted "bar" +:+ ")"; "  " +:+ gem_baz]
         false)
      (init_state "runtime") = Ok st' /\
    total (dependencies st') = 2 /\
    stdout st' = ["No gemspec file found. Ignoring the gemspec call"].
Proof.
  apply (X5_gemfile_record_count no_files
           (mkParser "Gemfile" ""
              ["gemspec"; gem_foo; "gem(" +:+ quoted "bar" +:+ ")"; "  " +:+ gem_baz]
              false)
           (init_state "runtime") eq_refl).
  right. cbn. discriminate.
Defined.

(** X6.  A gemspec call for which the glob gives exactly one file that
    cannot be opened ends the parse with the error of that [open]: the
    lines before it have been processed, the lines after it are not, and
    no result is returned. *)
Theorem X6_unreadable_gemspec_ends_the_parse fs (self : parser)
    (pre post : list string) (raw f : string) (st st1 : state) :
  gemspec self = false ->
  contents self = pre ++ raw :: post ->
  gemfile_lines fs self pre st = Ok st1 ->
  is_gemspec_call raw = true ->
  glob fs (join (dirname (filepath self)) "*.gemspec") = [f] ->
  f <> "" ->
  readlines fs (join (dirname (filepath self)) f) = None ->
  parse fs self st = IOError (join (dirname (filepath self)) f).
Proof.
  intros Hkind Hc Hpre Hcall Hglob Hf Hread.
  unfold parse, parse_gemfile. rewrite Hkind, Hc. cbn [String.eqb bind].
  rewrite gemfile_lines_app, Hpre. cbn [bind gemfile_lines].
  rewrite (gemfile_line_unreadable fs self raw st1 f Hcall Hglob
             (join_nonempty _ _ Hf) Hread).
  reflexivity.
Qed.

Lemma X6_witness :
  parse project_from_above
    (mkParser "proj/Gemfile" "" [gem_baz; "gemspec"; gem_foo] false)
    (init_state "runtime")
  = IOError "proj/proj/foo.gemspec".
Proof.
  apply (X6_unreadable_gemspec_ends_the_parse project_from_above
           (mkParser "proj/Gemfile" "" [gem_baz; "gemspec"; gem_foo] false)
           [gem_baz] [gem_foo] "gemspec" "proj/foo.gemspec"
           (init_state "runtime")
           (parse_line (mkParser "proj/Gemfile" "" [] false) gem_baz
              (init_state "runtime")));
    first [reflexivity | discriminate].
Defined.

(** X7.  The only errors of [GemfileParser(filepath, appname).parse()]
    are those of the two calls of [open]: the file itself cannot be
    read, or the file is a Gemfile with a gemspec call, the glob gives
    exactly one file, and the path joined from the directory of the
    Gemfile and that file cannot be read. *)
Theorem X7_errors_come_from_open fs (filepath appname g p : string) :
  run fs filepath appname g = IOError p ->
  (p = filepath /\ readlines fs filepath = None) \/
  (exists ls f,
     readlines fs filepath = Some ls /\
     endswith filepath "gemspec" = false /\
     (exists raw, In raw ls /\ is_gemspec_call raw = true) /\
     glob fs (join (dirname filepath) "*.gemspec") = [f] /\
     p = join (dirname filepath) f /\ readlines fs p = None).
Proof.
  unfold run, __init__, open_readlines.
  destruct (readlines fs filepath) as [ls|] eqn:R; cbn [bind];
    [|intros [= <-]; left; auto].
  unfold parse. cbn [gemspec].
  destruct (endswith filepath "gemspec") eqn:K.
  - unfold parse_gemspec. cbn [String.eqb bind contents]. discriminate.
  - unfold parse_gemfile. cbn [String.eqb bind contents].
    intros [Hcall (f & Hglob & -> & Hread)]%gemfile_lines_error.
    cbn [GemfileParser.filepath] in *.
    right. exists ls, f. split; [reflexivity|]. split; [reflexivity|].
    split; [exact Hcall|]. split; [exact Hglob|]. split; [reflexivity|exact Hread].
Qed.

Lemma X7_witness :
  ("proj/proj/foo.gemspec" = "proj/Gemfile" /\
   readlines project_from_above "proj/Gemfile" = None) \/
  (exists ls f,
     readlines project_from_above "proj/Gemfile" = Some ls /\
     endswith "proj/Gemfile" "gemspec" = false /\
     (exists raw, In raw ls /\ is_gemspec_call raw = true) /\
     glob project_from_above (join (dirname "proj/Gemfile") "*.gemspec") = [f] /\
     "proj/proj/foo.gemspec" = join (dirname "proj/Gemfile") f /\
     readlines project_from_above "proj/proj/foo.gemspec" = None).
Proof.
  apply (X7_errors_come_from_open project_from_above "proj/Gemfile" "" "runtime").
  vm_compute. reflexivity.
Defined.

(** X8.  A file whose path ends in [gemspec] and that can be read always
    parses, whatever it holds: the parse returns, prints nothing, and
    the number of records is the number of lines on which one of the two
    directive patterns matches. *)
Theorem X8_gemspec_record_count fs (filepath appname g : string)
    (ls : list string) :
  readlines fs filepath = Some ls ->
  endswith filepath "gemspec" = true ->
  exists st',
    run fs filepath appname g = Ok st' /\
    total (dependencies st') = length (List.filter is_directive ls) /\
    stdout st' = [].
Proof.
  intros R K. unfold run, __init__, open_readlines. rewrite R. cbn [bind].
  unfold parse. cbn [gemspec]. rewrite K.
  unfold parse_gemspec. cbn [String.eqb bind contents].
  eexists. split; [reflexivity|].
  rewrite gemspec_lines_total, gemspec_lines_stdout. auto.
Qed.

Lemma X8_witness :
  exists st',
    run (one_file "foo.gemspec" ["Gem::Specification.new do |spec|"; add_rspec; "end"])
      "foo.gemspec" "" "runtime" = Ok st' /\
    total (dependencies st') = 1 /\ stdout st' = [].
Proof.
  apply (X8_gemspec_record_count
           (one_file "foo.gemspec" ["Gem::Specification.new do |spec|"; add_rspec; "end"])
           "foo.gemspec" "" "runtime"
           ["Gem::Specification.new do |spec|"; add_rspec; "end"]);
    reflexivity.
Defined.

(** X9.  In the result of [GemfileParser(filepath, appname).parse()]
    every record is filed under the key that is its own [group], and its
    [parent] is the application name alone, or empty when the parser was
    made without one. *)
Theorem X9_records_carry_key_and_parent fs (filepath appname g k : string)
    (st : state) (d : Dependency) :
  run fs filepath appname g = Ok st ->
  d ∈ dependencies st !!! k ->
  group d = k /\
  parent d = if String.eqb appname "" then [] else [appname].
Proof.
  unfold run, __init__. destruct (open_readlines fs filepath) as [ls|]; cbn [bind];
    [|discriminate].
  intros Hparse.
  apply (parse_every
           (fun k d => group d = k /\
                       parent d = if String.eqb appname "" then [] else [appname])
           _ _ _ _) with (3 := Hparse).
  - intros g0 l. cbv zeta. split; [reflexivity|].
    rewrite build_dependency_eq. reflexivity.
  - apply every_init.
Qed.

Lemma X9_witness :
  let d := build_dependency "app" "runtime" gem_foo_group_dev in
  group d = ":dev" /\ parent d = ["app"].
Proof.
  intros d.
  apply (X9_records_carry_key_and_parent
           (one_file "Gemfile" [gem_foo_group_dev; gem_baz]) "Gemfile" "app"
           "runtime" ":dev"
           (mkState "runtime"
              (<["runtime" := [build_dependency "app" "runtime" gem_baz]]>
                 (<[":dev" := [d]]> init_dependencies)) [])).
  - vm_compute. reflexivity.
  - vm_compute. apply elem_of_cons. left. reflexivity.
Defined.

(** X10.  Parsing a Gemfile is running the loop on its first lines and
    then on the others, from the records and the group state the first
    lines left: both parts return, and each only adds to what it found,
    no key is dropped and the sequence of every key is extended at its
    end, so that the records of a key stand in the order of their
    lines. *)
Theorem X10_parse_is_sequential fs (self : parser) (pre post : list string)
    (st st' : state) :
  gemspec self = false ->
  contents self = pre ++ post ->
  parse fs self st = Ok st' ->
  exists st1,
    gemfile_lines fs self pre st = Ok st1 /\
    gemfile_lines fs self post st1 = Ok st' /\
    extends (dependencies st) (dependencies st1) /\
    extends (dependencies st1) (dependencies st').
Proof.
  intros Hkind Hc. unfold parse, parse_gemfile. rewrite Hkind, Hc.
  cbn [String.eqb bind].
  intros (st1 & H1 & H2)%gemfile_lines_app_Ok.
  exists st1. split; [exact H1|]. split; [exact H2|].
  split; eapply gemfile_lines_extends; eassumption.
Qed.

Lemma X10_witness :
  let self := mkParser "Gemfile" "" block_gemfile false in
  let pre := ["source 'https://rubygems.org'" +:+ String "010" "";
              "group :test do" +:+ String "010" ""] in
  let post := ["  " +:+ gem_foo +:+ "  # pinned" +:+ String "010" "";
               "end" +:+ String "010" "";
               gem_baz +:+ String "010" ""] in
  let st' :=
    mkState "runtime"
      (<["runtime" := [build_dependency "" "runtime" gem_baz]]>
         (<["test" := [build_dependency "" "test" gem_foo]]> init_dependencies))
      [] in
  exists st1,
    gemfile_lines no_files self pre (init_state "runtime") = Ok st1 /\
    gemfile_lines no_files self post st1 = Ok st' /\
    extends (dependencies (init_state "runtime")) (dependencies st1) /\
    extends (dependencies st1) (dependencies st').
Proof.
  intros self pre post st'.
  apply (X10_parse_is_sequential no_files self pre post (init_state "runtime") st');
    vm_compute; reflexivity.
Defined.

(** X11.  [parse] is not idempotent.  Called a second time on the same
    parser it runs the lines again on the records of the first call, and
    files every record once more: each key then holds its records twice.
    This holds for every gemspec, and for a Gemfile whose first parse left
    the group state as it found it. *)
Theorem X11_second_parse_files_every_record_again fs (self : parser)
    (g : string) (st1 : state) :
  parse fs self (init_state g) = Ok st1 ->
  gemspec self = true \/ global_group st1 = g ->
  exists st2,
    parse fs self st1 = Ok st2 /\
    forall k,
      dependencies st2 !!! k = dependencies st1 !!! k ++ dependencies st1 !!! k.
Proof.
  intros Hparse Hg.
  apply (parse_behind (fun k => dependencies st1 !!! k) fs self
           (init_state g) st1 st1); [| |exact Hparse].
  - destruct Hg as [Hg|Hg]; [left; exact Hg|right; symmetry; exact Hg].
  - intros k. cbn [dependencies init_state].
    rewrite init_dependencies_empty, app_nil_r. reflexivity.
Qed.

Lemma X11_witness :
  let self := mkParser "Gemfile" "" block_gemfile false in
  let st1 :=
    mkState "runtime"
      (<["runtime" := [build_dependency "" "runtime" gem_baz]]>
         (<["test" := [build_dependency "" "test" gem_foo]]> init_dependencies))
      [] in
  exists st2,
    parse no_files self st1 = Ok st2 /\
    forall k,
      dependencies st2 !!! k = dependencies st1 !!! k ++ dependencies st1 !!! k.
Proof.
  intros self st1.
  apply (X11_second_parse_files_every_record_again no_files self "runtime" st1).
  - vm_compute. reflexivity.
  - right. reflexivity.
Defined.

(** X12.  Whenever a pattern of the table, the block pattern or a
    directive pattern matches, the named group the parser then reads is
    set: in each of them the group lies on every path through the
    pattern.  So [match.group(...)] never gives [None], no attribute of a
    record is set to [None] by a match, and [None] is never appended to a
    requirement. *)
Theorem X12_group_of_a_match_is_set (line : string) (m : captures) :
  (forall criteria criteria_regex,
     In (criteria, criteria_regex) gemfile_regexes ->
     match_ criteria_regex line = Some m ->
     exists v, Re.group criteria m = Some v) /\
  (match_ group_block_regex line = Some m ->
   exists v, Re.group "groupblock" m = Some v) /\
  (match_ add_dvtdep_regex line = Some m -> exists v, Re.group "line" m = Some v) /\
  (match_ add_rundep_regex line = Some m -> exists v, Re.group "line" m = Some v).
Proof.
  split; [|repeat split; intros H;
           apply (fun Hs => match_sets _ _ _ _ Hs H); reflexivity].
  intros criteria criteria_regex Hin H.
  apply (fun Hs => match_sets _ _ _ _ Hs H). unfold gemfile_regexes in Hin.
  cbn [In] in Hin.
  repeat (destruct Hin as [[= <- <-]|Hin]; [reflexivity|]). contradiction.
Qed.

Lemma X12_witness :
  exists v, Re.group "requirement" [("requirement", ">= 1.0")] = Some v.
Proof.
  apply (proj1 (X12_group_of_a_match_is_set gem_foo [("requirement", ">= 1.0")])
           "requirement" requirement_regex).
  - cbn. do 11 right. left. reflexivity.
  - vm_compute. reflexivity.
Defined.

(** X13.  The name of a record.  A line gives its record the name [v]
    exactly when the line is [gem], a space, a quote, [v], a quote and
    anything, where [v] holds no quote and no newline: the name is the
    text between the first two quotes, which need not be of the same
    kind, and nothing may stand between the keyword and its one space
    and the opening quote. *)
Theorem X13_name_is_the_text_between_the_first_quotes (app g line v : string) :
  name (build_dependency app g line) = Some v <->
  exists q1 q2 rest,
    line = "gem " +:+ String q1 (v +:+ String q2 rest) /\
    is_quote q1 = true /\ is_quote q2 = true /\
    all is_name_char v = true.
Proof. rewrite build_dependency_eq. cbn [name]. apply name_shape. Qed.

Lemma X13_witness :
  exists q1 q2 rest,
    gem_foo = "gem " +:+ String q1 ("foo" +:+ String q2 rest) /\
    is_quote q1 = true /\ is_quote q2 = true /\
    all is_name_char "foo" = true.
Proof.
  apply (proj1 (X13_name_is_the_text_between_the_first_quotes "" "runtime"
                  gem_foo "foo")).
  vm_compute. reflexivity.
Defined.

(** X14.  The attributes read as a bare token: [git], [platform],
    [branch], [autorequire] (keyword [require]) and [group].  When the
    pattern of one of them matches, the line holds the keyword, then [:]
    or [=>] (with at most one space before [=>]), then spaces, then the
    value, and the value is a non-empty run of letters, colons, slashes,
    dots and hyphens.  It holds no quote, no digit, no underscore and no
    space, so a value written between quotes is never captured as it
    stands. *)
Theorem X14_token_value_shape (kw name : string) (r : re) (line v : string) :
  In (kw, name, r) token_patterns ->
  match_group r name line = Some v ->
  exists pre sep spaces rest,
    line = pre +:+ kw +:+ sep +:+ spaces +:+ v +:+ rest /\
    is_key_sep sep = true /\ all_char " " spaces = true /\
    v <> "" /\ all (in_class url_items) v = true /\
    all (fun a => negb (is_quote a || is_digit a || Ascii.eqb a "_"
                        || Ascii.eqb a " ")) v = true.
Proof.
  intros Hin Hm.
  assert (H : match_group
                (Star Dot ⋅ Lit kw ⋅ key_sep ⋅ Star sp
                 ⋅ Named name (Plus url_chars) ⋅ Star Dot) name line = Some v).
  { unfold token_patterns in Hin. cbn [In] in Hin.
    repeat (destruct Hin as [[= <- <- <-]|Hin]; [exact Hm|]). contradiction. }
  apply token_shape in H as (pre & sep & spaces & rest & E & _ & Hsep & Hsp & Hne & Hv).
  exists pre, sep, spaces, rest. do 4 (split; [assumption|]).
  split; [exact Hv|]. revert Hv. apply all_impl. intros a. by_cases a.
Qed.

Lemma X14_witness :
  exists pre sep spaces rest,
    gem_foo +:+ ", require: false" =
      pre +:+ "require" +:+ sep +:+ spaces +:+ "false" +:+ rest /\
    is_key_sep sep = true /\ all_char " " spaces = true /\
    "false" <> "" /\ all (in_class url_items) "false" = true /\
    all (fun a => negb (is_quote a || is_digit a || Ascii.eqb a "_"
                        || Ascii.eqb a " ")) "false" = true.
Proof.
  apply (X14_token_value_shape "require" "autorequire" autorequire_regex
           (gem_foo +:+ ", require: false") "false").
  - cbn. right. right. right. left. reflexivity.
  - vm_compute. reflexivity.
Defined.

(** X15.  The attributes read between quotes: [source] and [github].
    When the pattern matches, the value is the non-empty text between
    two quotes (of any kind) that follow the keyword, the separator and
    spaces.  A source holds only characters of its set: no hyphen and no
    underscore, which the set leaves out.  A github value holds no
    underscore and no digit from 1 to 8. *)
Theorem X15_quoted_value_shape (line v : string) :
  (match_group source_regex "source" line = Some v ->
   exists pre sep spaces q1 q2 rest,
     line = pre +:+ "source" +:+ sep +:+ spaces +:+ String q1 (v +:+ String q2 rest) /\
     is_key_sep sep = true /\ all_char " " spaces = true /\
     is_quote q1 = true /\ is_quote q2 = true /\
     v <> "" /\ all is_source_char v = true /\
     all (fun a => negb (Ascii.eqb a "-" || Ascii.eqb a "_")) v = true) /\
  (match_group github_regex "github" line = Some v ->
   exists pre sep spaces q1 q2 rest,
     line = pre +:+ "github" +:+ sep +:+ spaces +:+ String q1 (v +:+ String q2 rest) /\
     is_key_sep sep = true /\ all_char " " spaces = true /\
     is_quote q1 = true /\ is_quote q2 = true /\
     v <> "" /\ all is_github_char v = true /\
     all (fun a => negb (Ascii.eqb a "_" || in_range 49 56 a)) v = true).
Proof.
  split; intros H; apply quoted_shape in H
    as (pre & sep & spaces & q1 & q2 & rest & E & _ & Hsep & Hsp & Hq1 & Hq2 & Hne & Hv);
    exists pre, sep, spaces, q1, q2, rest; do 6 (split; [assumption|]);
    (split; [exact Hv|]); revert Hv; apply all_impl; intros a; by_cases a.
Qed.

Lemma X15_witness :
  let line := gem_foo +:+ ", github: 'rails/rails'" in
  exists pre sep spaces q1 q2 rest,
    line = pre +:+ "github" +:+ sep +:+ spaces
           +:+ String q1 ("rails/rails" +:+ String q2 rest) /\
    is_key_sep sep = true /\ all_char " " spaces = true /\
    is_quote q1 = true /\ is_quote q2 = true /\
    "rails/rails" <> "" /\ all is_github_char "rails/rails" = true /\
    all (fun a => negb (Ascii.eqb a "_" || in_range 49 56 a)) "rails/rails" = true.
Proof.
  intros line.
  apply (proj2 (X15_quoted_value_shape line "rails/rails")).
  vm_compute. reflexivity.
Defined.

(** X16.  The attributes read between brackets: [platforms] and
    [groups].  The value is the text from an opening bracket to a closing
    one, brackets included, as it stands in the line.  For [groups] a
    comma has to follow the closing bracket: a list that ends the line
    is not captured. *)
Theorem X16_bracket_value_shape (line v : string) :
  (match_group platforms_regex "platforms" line = Some v ->
   exists pre sep spaces inner rest,
     line = pre +:+ "platforms" +:+ sep +:+ spaces +:+ v +:+ rest /\
     is_key_sep sep = true /\ all_char " " spaces = true /\
     v = "[" +:+ inner +:+ "]" /\ all not_newline inner = true) /\
  (match_group groups_regex "groups" line = Some v ->
   exists pre sep spaces inner rest,
     line = pre +:+ "groups" +:+ sep +:+ spaces +:+ v +:+ "," +:+ rest /\
     is_key_sep sep = true /\ all_char " " spaces = true /\
     v = "[" +:+ inner +:+ "]" /\ all not_newline inner = true).
Proof.
  split; intros H; apply bracket_shape in H
    as (pre & sep & spaces & inner & t & rest & c & E & _ & Hsep & Hsp & Hv & Hin & Ht);
    try reflexivity.
  - exists pre, sep, spaces, inner, (t +:+ rest). auto.
  - destruct Ht as (? & t' & ? & -> & [-> _] & _).
    exists pre, sep, spaces, inner, (t' +:+ rest).
    split; [rewrite E, !append_assoc; reflexivity|auto].
Qed.

Lemma X16_witness :
  let line := gem_foo +:+ ", groups: [:a, :b], require: false" in
  exists pre sep spaces inner rest,
    line = pre +:+ "groups" +:+ sep +:+ spaces +:+ "[:a, :b]" +:+ "," +:+ rest /\
    is_key_sep sep = true /\ all_char " " spaces = true /\
    "[:a, :b]" = "[" +:+ inner +:+ "]" /\ all not_newline inner = true.
Proof.
  intros line.
  apply (proj2 (X16_bracket_value_shape line "[:a, :b]")).
  vm_compute. reflexivity.
Defined.

(** X17.  The path.  When the path pattern matches, the value starts
    right after the separator and its spaces and ends with a quote or a
    closing parenthesis, with at least one character before it: opening
    and closing quotes are part of the value. *)
Theorem X17_path_value_shape (line v : string) :
  match_group path_regex "path" line = Some v ->
  exists pre sep spaces body q rest,
    line = pre +:+ "path" +:+ sep +:+ spaces +:+ v +:+ rest /\
    is_key_sep sep = true /\ all_char " " spaces = true /\
    v = body +:+ String q "" /\ body <> "" /\ all not_newline body = true /\
    (is_quote q || Ascii.eqb q ")") = true.
Proof.
  intros (pre & sep & spaces & body & q & rest & E & _ & H)%path_shape.
  exists pre, sep, spaces, body, q, rest. auto.
Qed.

Lemma X17_witness :
  exists pre sep spaces body q rest,
    gem_bar_path = pre +:+ "path" +:+ sep +:+ spaces +:+ quoted "../bar" +:+ rest /\
    is_key_sep sep = true /\ all_char " " spaces = true /\
    quoted "../bar" = body +:+ String q "" /\ body <> "" /\
    all not_newline body = true /\
    (is_quote q || Ascii.eqb q ")") = true.
Proof.
  apply (X17_path_value_shape gem_bar_path (quoted "../bar")).
  vm_compute. reflexivity.
Defined.

(** X18.  The requirement.  When the requirement pattern matches, the
    line is [gem], a space, a quote, a text, a quote, and then at once
    the value: the value starts with an operator character or a digit
    and holds only characters of the sets of the pattern, so it holds no
    quote.  With the usual [gem QnameQ, Q>= 1.0Q] the quote before the
    value is the one that opens the version, and the text before it runs
    over the name and the comma. *)
Theorem X18_requirement_value_shape (line v : string) :
  match_group requirement_regex "requirement" line = Some v ->
  exists q1 mid q2 a t rest,
    line = "gem " +:+ String q1 (mid +:+ String q2 (v +:+ rest)) /\
    is_quote q1 = true /\ is_quote q2 = true /\ all not_newline mid = true /\
    v = String a t /\ is_operator_char a = true /\
    all is_requirement_char v = true /\
    all (fun a => negb (is_quote a)) v = true.
Proof.
  intros (q1 & mid & q2 & a & t & rest & E & Hq1 & Hq2 & Hmid & Hv & Ha & Hall)
           %requirement_shape.
  exists q1, mid, q2, a, t, rest. do 6 (split; [assumption|]).
  split; [exact Hall|]. revert Hall. apply all_impl. intros b. by_cases b.
Qed.

Lemma X18_witness :
  exists q1 mid q2 a t rest,
    gem_foo = "gem " +:+ String q1 (mid +:+ String q2 (">= 1.0" +:+ rest)) /\
    is_quote q1 = true /\ is_quote q2 = true /\ all not_newline mid = true /\
    ">= 1.0" = String a t /\ is_operator_char a = true /\
    all is_requirement_char ">= 1.0" = true /\
    all (fun a => negb (is_quote a)) ">= 1.0" = true.
Proof.
  apply (X18_requirement_value_shape gem_foo ">= 1.0").
  vm_compute. reflexivity.
Defined.

(** X19.  The loop of a gemspec looks for its two directives anywhere in
    the line, whatever stands before (the receiver, or any text).  A line
    that holds [add_development_dependency] and a space is parsed under
    the group state [development]; otherwise a line that holds
    [add_runtime_dependency] and a space is parsed under [runtime]; any
    other line changes nothing.  What is parsed is the text after the
    last occurrence of the directive. *)
Theorem X19_directive_is_found_by_keyword (self : parser) (raw : string)
    (st : state) :
  all not_newline (preprocess raw) = true ->
  (has_keyword dvtdep_keyword (preprocess raw) = true ->
   exists pre v,
     preprocess raw = pre +:+ dvtdep_keyword +:+ v /\
     no_keyword dvtdep_keyword v = true /\
     gemspec_line self raw st
       = parse_line self v (set_global_group "development" st)) /\
  (has_keyword dvtdep_keyword (preprocess raw) = false ->
   has_keyword rundep_keyword (preprocess raw) = true ->
   exists pre v,
     preprocess raw = pre +:+ rundep_keyword +:+ v /\
     no_keyword rundep_keyword v = true /\
     gemspec_line self raw st
       = parse_line self v (set_global_group "runtime" st)) /\
  (has_keyword dvtdep_keyword (preprocess raw) = false ->
   has_keyword rundep_keyword (preprocess raw) = false ->
   gemspec_line self raw st = st).
Proof.
  intros Hnl.
  pose proof (directive_matches dvtdep_keyword _ Hnl) as Hd.
  pose proof (directive_matches rundep_keyword _ Hnl) as Hr.
  change (match_ add_dvtdep_regex (preprocess raw) <> None <->
          has_keyword dvtdep_keyword (preprocess raw) = true) in Hd.
  change (match_ add_rundep_regex (preprocess raw) <> None <->
          has_keyword rundep_keyword (preprocess raw) = true) in Hr.
  unfold gemspec_line. cbv zeta.
  split; [|split].
  - intros Hk. apply Hd in Hk.
    destruct (match_ add_dvtdep_regex (preprocess raw)) as [m|] eqn:E;
      [|contradiction].
    destruct (directive_groups_set (preprocess raw) m) as (_ & H & _).
    destruct (H E) as [v Hv]. rewrite Hv.
    destruct (directive_shape dvtdep_keyword (preprocess raw) v) as (pre & Ep & Hno);
      [discriminate|exact Hnl| |eauto].
    change (match_group add_dvtdep_regex "line" (preprocess raw) = Some v).
    unfold match_group. rewrite E. exact Hv.
  - intros Hk1 Hk2. apply Hr in Hk2.
    destruct (match_ add_dvtdep_regex (preprocess raw)) as [m|] eqn:E1.
    { assert (Hc : has_keyword dvtdep_keyword (preprocess raw) = true)
        by (apply Hd; discriminate). congruence. }
    destruct (match_ add_rundep_regex (preprocess raw)) as [m|] eqn:E;
      [|contradiction].
    destruct (directive_groups_set (preprocess raw) m) as (_ & _ & H).
    destruct (H E) as [v Hv]. rewrite Hv.
    destruct (directive_shape rundep_keyword (preprocess raw) v) as (pre & Ep & Hno);
      [discriminate|exact Hnl| |eauto].
    change (match_group add_rundep_regex "line" (preprocess raw) = Some v).
    unfold match_group. rewrite E. exact Hv.
  - intros Hk1 Hk2.
    destruct (match_ add_dvtdep_regex (preprocess raw)) as [m|] eqn:E1.
    { assert (Hc : has_keyword dvtdep_keyword (preprocess raw) = true)
        by (apply Hd; discriminate). congruence. }
    destruct (match_ add_rundep_regex (preprocess raw)) as [m|] eqn:E2;
      [|reflexivity].
    assert (Hc : has_keyword rundep_keyword (preprocess raw) = true)
      by (apply Hr; discriminate). congruence.
Qed.

Lemma X19_witness :
  exists pre v,
    preprocess ("  " +:+ add_rspec) = pre +:+ dvtdep_keyword +:+ v /\
    no_keyword dvtdep_keyword v = true /\
    gemspec_line (mkParser "foo.gemspec" "" [] true) ("  " +:+ add_rspec)
      (init_state "runtime")
    = parse_line (mkParser "foo.gemspec" "" [] true) v
        (set_global_group "development" (init_state "runtime")).
Proof.
  apply (X19_directive_is_found_by_keyword (mkParser "foo.gemspec" "" [] true)
           ("  " +:+ add_rspec) (init_state "runtime") eq_refl).
  reflexivity.
Defined.

(** X20.  A line of a Gemfile that starts with [group] never files a
    record and prints nothing.  Either the block pattern does not match
    and nothing changes, or the line holds [group], at most one space, [:]
    or [=>], spaces, a text [v] and then a space and [do], and the group
    state becomes [v]: the raw text up to the first [ do], which is the
    whole list when the block names several groups. *)
Theorem X20_group_line_sets_the_raw_text fs (self : parser) (raw : string)
    (st : state) :
  startswith (preprocess raw) "group" = true ->
  (match_ group_block_regex (preprocess raw) = None /\
   gemfile_line fs self raw st = Ok st) \/
  (exists pre sp1 sep spaces v rest,
     preprocess raw
       = pre +:+ "group" +:+ sp1 +:+ sep +:+ spaces +:+ v +:+ " do" +:+ rest /\
     (sp1 = "" \/ sp1 = " ") /\ is_key_sep sep = true /\
     all_char " " spaces = true /\
     all not_newline v = true /\ no_keyword " do" v = true /\
     gemfile_line fs self raw st = Ok (set_global_group v st)).
Proof.
  intros Hs.
  destruct (match_ group_block_regex (preprocess raw)) as [m|] eqn:E.
  - right. destruct (directive_groups_set (preprocess raw) m) as (H & _).
    destruct (H E) as [v Hv].
    assert (Hm : match_group group_block_regex "groupblock" (preprocess raw) = Some v)
      by (unfold match_group; rewrite E; exact Hv).
    destruct (group_block_shape _ _ Hm)
      as (pre & sp1 & sep & spaces & rest & Ep & _ & H1 & H2 & H3 & H4 & H5).
    exists pre, sp1, sep, spaces, v, rest. repeat (split; [assumption|]).
    apply gemfile_line_group; assumption.
  - left. split; [reflexivity|].
    apply startswith_app in Hs as [t Et]. unfold gemfile_line. rewrite E, Et.
    reflexivity.
Qed.

Lemma X20_witness :
  (match_ group_block_regex (preprocess "group :development, :test do") = None /\
   gemfile_line no_files (mkParser "Gemfile" "" [] false)
     "group :development, :test do" (init_state "runtime")
   = Ok (init_state "runtime")) \/
  (exists pre sp1 sep spaces v rest,
     preprocess "group :development, :test do"
       = pre +:+ "group" +:+ sp1 +:+ sep +:+ spaces +:+ v +:+ " do" +:+ rest /\
     (sp1 = "" \/ sp1 = " ") /\ is_key_sep sep = true /\
     all_char " " spaces = true /\
     all not_newline v = true /\ no_keyword " do" v = true /\
     gemfile_line no_files (mkParser "Gemfile" "" [] false)
       "group :development, :test do" (init_state "runtime")
     = Ok (set_global_group v (init_state "runtime"))).
Proof.
  apply (X20_group_line_sets_the_raw_text no_files (mkParser "Gemfile" "" [] false)
           "group :development, :test do" (init_state "runtime")).
  reflexivity.
Defined.

(** X21.  A gemspec call for which the glob gives exactly one file that
    can be read runs the loop of a gemspec over that file, on the records
    and the group state of the Gemfile: the turn returns, adds as many
    records as the gemspec has lines with a directive, keeps every record
    filed before, and prints nothing. *)
Theorem X21_gemspec_call_adds_the_directives fs (self : parser)
    (raw f : string) (glines : list string) (st : state) :
  is_gemspec_call raw = true ->
  glob fs (join (dirname (filepath self)) "*.gemspec") = [f] ->
  f <> "" ->
  readlines fs (join (dirname (filepath self)) f) = Some glines ->
  exists st',
    gemfile_line fs self raw st = Ok st' /\
    total (dependencies st') =
      total (dependencies st) + length (List.filter is_directive glines) /\
    extends (dependencies st) (dependencies st') /\
    stdout st' = stdout st.
Proof.
  intros Hcall Hglob Hf Hread. eexists.
  split; [apply (gemfile_line_gemspec fs self raw st f glines Hcall Hglob Hf Hread)|].
  rewrite gemspec_lines_total, gemspec_lines_stdout.
  split; [reflexivity|]. split; [apply gemspec_lines_extends|reflexivity].
Qed.

Lemma X21_witness :
  exists st',
    gemfile_line project_here (mkParser "Gemfile" "" ["gemspec"; gem_foo] false)
      "gemspec" (init_state "runtime") = Ok st' /\
    total (dependencies st') = 0 + 1 /\
    extends (dependencies (init_state "runtime")) (dependencies st') /\
    stdout st' = [].
Proof.
  apply (X21_gemspec_call_adds_the_directives project_here
           (mkParser "Gemfile" "" ["gemspec"; gem_foo] false)
           "gemspec" "foo.gemspec" [add_rspec] (init_state "runtime"));
    first [reflexivity | discriminate].
Defined.
